(** * tls-perf: a shallow embedding of [main.cc]

    The development follows the source file top-down: machine integers,
    the constants and option block, the shared [stat] block, the latency
    sampler [LatencyStat] and the global latency store, the poller [IO],
    the [Peer] state machine, [update_limits], the driver's
    [statistics_update] / [statistics_dump] and the worker loop [io_loop].
    Theorems come after all definitions. *)

From Stdlib Require Import ZArith Lia Bool String.
From stdpp Require Import base tactics option list sorting.

Local Open Scope Z_scope.

(** ** Machine integers

    Values are carried as [Z]; every conversion of the source is a wrap. *)

Definition wrap_u (w x : Z) : Z := x mod 2 ^ w.
Definition wrap_s (w x : Z) : Z := (x + 2 ^ (w - 1)) mod 2 ^ w - 2 ^ (w - 1).

(** [unsigned int], [unsigned long] / [size_t] / [rlim_t], [int] / [int32_t]. *)
Definition u32 : Z -> Z := wrap_u 32.
Definition u64 : Z -> Z := wrap_u 64.
Definition i32 : Z -> Z := wrap_s 32.

(** C++ integer division truncates toward zero. *)
Definition cdiv (a b : Z) : Z := Z.quot a b.

(** ** Constants and options *)

Definition PEERS_SLOW_START : Z := 10.
Definition LATENCY_N : Z := 1024.

(** The fields of [g_opt] that the modelled functions read. *)
Record options := {
  n_peers : Z;     (* int *)
  n_threads : Z;   (* int *)
  n_hs : Z;        (* size_t *)
  timeout : Z      (* int *)
}.

(** ** Console output

    A line of output is its text and the numbers streamed into it.  [Dbg]
    is a write on the [dbg] stream (shown only with [g_opt.debug]), [Cout]
    and [Cerr] are the standard streams. *)

Inductive msg :=
| Dbg (s : string) (args : list Z)
| Cout (s : string) (args : list Z)
| Cerr (s : string) (args : list Z).

(** ** Exceptions

    A function that may [throw Except(...)] returns [Throw] with the
    message; the worker thread catches it and calls [exit(1)]. *)

Inductive result (A : Type) :=
| Ret (a : A)
| Throw (what : string).
Arguments Ret {A} a.
Arguments Throw {A} what.

Global Instance result_ret : MRet result := fun A a => Ret a.
Global Instance result_bind : MBind result := fun A B k r =>
  match r with
  | Ret a => k a
  | Throw e => Throw e
  end.

(** ** The shared [stat] block

    The six atomics and the driver-owned window state; [stat_time] is
    represented by the elapsed time handed to [statistics_update]. *)

Record stat_t := {
  tot_tls_handshakes : Z;   (* std::atomic<uint64_t> *)
  tcp_handshakes : Z;       (* std::atomic<int32_t> *)
  tcp_connections : Z;      (* std::atomic<int32_t> *)
  tls_connections : Z;      (* std::atomic<int32_t> *)
  tls_handshakes : Z;       (* std::atomic<int32_t> *)
  error_count : Z;          (* std::atomic<int32_t> *)
  measures : Z;             (* int32_t *)
  max_hs : Z;               (* int32_t *)
  min_hs : Z;               (* int32_t *)
  avg_hs : Z;               (* int32_t *)
  hs_history : list Z       (* std::vector<int32_t> *)
}.

(** Static storage is zero-initialised. *)
Definition stat0 : stat_t :=
  {| tot_tls_handshakes := 0; tcp_handshakes := 0; tcp_connections := 0;
     tls_connections := 0; tls_handshakes := 0; error_count := 0;
     measures := 0; max_hs := 0; min_hs := 0; avg_hs := 0;
     hs_history := [] |}.

Definition upd_tot_tls_handshakes (f : Z -> Z) (s : stat_t) : stat_t :=
  {| tot_tls_handshakes := f (tot_tls_handshakes s);
     tcp_handshakes := tcp_handshakes s; tcp_connections := tcp_connections s;
     tls_connections := tls_connections s; tls_handshakes := tls_handshakes s;
     error_count := error_count s; measures := measures s;
     max_hs := max_hs s; min_hs := min_hs s; avg_hs := avg_hs s;
     hs_history := hs_history s |}.

Definition upd_tcp_handshakes (f : Z -> Z) (s : stat_t) : stat_t :=
  {| tot_tls_handshakes := tot_tls_handshakes s;
     tcp_handshakes := f (tcp_handshakes s); tcp_connections := tcp_connections s;
     tls_connections := tls_connections s; tls_handshakes := tls_handshakes s;
     error_count := error_count s; measures := measures s;
     max_hs := max_hs s; min_hs := min_hs s; avg_hs := avg_hs s;
     hs_history := hs_history s |}.

Definition upd_tcp_connections (f : Z -> Z) (s : stat_t) : stat_t :=
  {| tot_tls_handshakes := tot_tls_handshakes s;
     tcp_handshakes := tcp_handshakes s; tcp_connections := f (tcp_connections s);
     tls_connections := tls_connections s; tls_handshakes := tls_handshakes s;
     error_count := error_count s; measures := measures s;
     max_hs := max_hs s; min_hs := min_hs s; avg_hs := avg_hs s;
     hs_history := hs_history s |}.

Definition upd_tls_connections (f : Z -> Z) (s : stat_t) : stat_t :=
  {| tot_tls_handshakes := tot_tls_handshakes s;
     tcp_handshakes := tcp_handshakes s; tcp_connections := tcp_connections s;
     tls_connections := f (tls_connections s); tls_handshakes := tls_handshakes s;
     error_count := error_count s; measures := measures s;
     max_hs := max_hs s; min_hs := min_hs s; avg_hs := avg_hs s;
     hs_history := hs_history s |}.

Definition upd_tls_handshakes (f : Z -> Z) (s : stat_t) : stat_t :=
  {| tot_tls_handshakes := tot_tls_handshakes s;
     tcp_handshakes := tcp_handshakes s; tcp_connections := tcp_connections s;
     tls_connections := tls_connections s; tls_handshakes := f (tls_handshakes s);
     error_count := error_count s; measures := measures s;
     max_hs := max_hs s; min_hs := min_hs s; avg_hs := avg_hs s;
     hs_history := hs_history s |}.

Definition upd_error_count (f : Z -> Z) (s : stat_t) : stat_t :=
  {| tot_tls_handshakes := tot_tls_handshakes s;
     tcp_handshakes := tcp_handshakes s; tcp_connections := tcp_connections s;
     tls_connections := tls_connections s; tls_handshakes := tls_handshakes s;
     error_count := f (error_count s); measures := measures s;
     max_hs := max_hs s; min_hs := min_hs s; avg_hs := avg_hs s;
     hs_history := hs_history s |}.

(** [x++] and [x--] on the atomics (atomic arithmetic wraps). *)
Definition incr32 (x : Z) : Z := i32 (x + 1).
Definition decr32 (x : Z) : Z := i32 (x - 1).
Definition incr64 (x : Z) : Z := u64 (x + 1).

(** ** The global latency store [g_lat_stat]

    The mutex only serialises [LatencyStat::dump]; each dump is one atomic
    transition of this record. *)

Record lat_store := {
  ls_stat : list Z;   (* std::vector<unsigned long> *)
  acc_lat : Z         (* unsigned long *)
}.

Definition g_lat_stat0 : lat_store := {| ls_stat := []; acc_lat := 0 |}.

(** ** LatencyStat *)

Module LatencyStat.

Record t := {
  i_ : Z;            (* unsigned int *)
  di_ : Z;           (* unsigned int *)
  stat_ : list Z     (* std::array<unsigned long, LATENCY_N> *)
}.

(** [LatencyStat()]: [i_(0), di_(1), stat_({0})]. *)
Definition init : t :=
  {| i_ := 0; di_ := 1; stat_ := replicate (Z.to_nat LATENCY_N) 0 |}.

(** [update(dt)].  The element write [stat_[i_] = dt] is a list insert;
    an index outside the array is undefined in the source and a no-op
    here (it never happens on a sampler that started from [init]). *)
Definition update (s : t) (dt : Z) : t * list msg :=
  if dt =? 0 then (s, [Dbg "Bad zero latency" []])
  else
    let stat' := <[Z.to_nat (i_ s) := dt]> (stat_ s) in
    let i1 := u32 (i_ s + di_ s) in
    if LATENCY_N <=? i1 then
      let d1 := u32 (di_ s + 1) in
      ({| i_ := 0;
          di_ := if LATENCY_N / 4 <? d1 then 1 else d1;
          stat_ := stat' |}, [])
    else
      ({| i_ := i1; di_ := di_ s; stat_ := stat' |}, []).

(** The range-for of [dump], with its [break]. *)
Fixpoint dump_loop (slots : list Z) (g : lat_store) : lat_store :=
  match slots with
  | [] => g
  | l :: rest =>
      if l =? 0 then g
      else dump_loop rest
             {| ls_stat := ls_stat g ++ [l];
                acc_lat := u64 (acc_lat g + l) |}
  end.

(** [dump()], run under [g_lat_stat.lock]. *)
Definition dump (s : t) (g : lat_store) : lat_store :=
  dump_loop (stat_ s) g.

(** The sampler after a sequence of [update] calls. *)
Definition updates (s : t) (dts : list Z) : t :=
  fold_left (fun s dt => fst (update s dt)) dts s.

End LatencyStat.

(** ** The environment of one step

    What the kernel, the TLS library and the clock answer during one call
    of [next_state] (each of these calls is made at most once per advance)
    or one call of [IO::wait]. *)

Record sys := {
  socket_ret : Z;              (* socket() *)
  connect_ret : Z;             (* connect() *)
  connect_errno : Z;           (* errno after connect() *)
  getsockopt_ret : Z;          (* getsockopt(SO_ERROR) *)
  so_error : Z;                (* the value it stores *)
  ssl_new_ret : option Z;      (* SSL_new(): a session, or NULL *)
  ssl_connect_ret : Z;         (* SSL_connect() *)
  ssl_get_error_ret : Z;       (* SSL_get_error() *)
  lat : Z;                     (* microseconds between t0 and t1 *)
  epoll_add_ret : Z;           (* epoll_ctl(EPOLL_CTL_ADD) *)
  epoll_del_ret : Z;           (* epoll_ctl(EPOLL_CTL_DEL) *)
  wait_eintr : nat;            (* epoll_wait() calls interrupted by a signal *)
  wait_ret : Z;                (* the epoll_wait() result that is not EINTR *)
  wait_ready : list Z          (* the handlers it reports *)
}.

(** Values of the system headers (Linux, OpenSSL). *)
Definition EAGAIN : Z := 11.
Definition EINPROGRESS : Z := 115.
Definition SSL_ERROR_WANT_READ : Z := 2.
Definition SSL_ERROR_WANT_WRITE : Z := 3.

(** ** IO: the poller with its two queues

    A [SocketHandler *] is the identity of a peer: its [id_], which is also
    its position in [all_peers]. *)

Module IO.

Definition N_EVENTS : Z := 128.
Definition TO_MSEC : Z := 5.

Record t := {
  ev_count_ : Z;               (* int *)
  events_ : list Z;            (* events_[k].data.ptr *)
  reconnect_q_ : list Z;       (* std::list<SocketHandler *> *)
  backlog_ : list Z            (* std::list<SocketHandler *> *)
}.

Definition init : t :=
  {| ev_count_ := 0; events_ := []; reconnect_q_ := []; backlog_ := [] |}.

Definition add (e : sys) (io : t) : result t :=
  if epoll_add_ret e <? 0 then Throw "can't add socket to poller"
  else Ret io.

Definition del (e : sys) (io : t) : result t :=
  if epoll_del_ret e <? 0 then Throw "can't delete socket from poller"
  else Ret io.

Definition queue_reconnect (sh : Z) (io : t) : t :=
  {| ev_count_ := ev_count_ io; events_ := events_ io;
     reconnect_q_ := reconnect_q_ io ++ [sh];
     backlog_ := backlog_ io |}.

(** [wait()]: a call interrupted by a signal ([EINTR]) jumps back to
    [retry]; the first other result is stored.  The kernel reports at most
    [N_EVENTS] events and the slots past [ev_count_] are never read. *)
Fixpoint wait_retry (eintr : nat) (e : sys) (io : t) : result t :=
  match eintr with
  | S k => wait_retry k e io
  | O =>
      if wait_ret e <? 0 then Throw "poller wait error"
      else
        Ret {| ev_count_ := wait_ret e;
               events_ := wait_ready e;
               reconnect_q_ := reconnect_q_ io;
               backlog_ := backlog_ io |}
  end.

Definition wait (e : sys) (io : t) : result t :=
  wait_retry (wait_eintr e) e io.

(** [next_sk()]: [events_[--ev_count_].data.ptr], or [NULL].  After
    [wait] the count is the number of stored events, so the slot read is
    one of them. *)
Definition next_sk (io : t) : option Z * t :=
  if ev_count_ io =? 0 then (None, io)
  else
    let n := i32 (ev_count_ io - 1) in
    ((if n <? 0 then None else events_ io !! Z.to_nat n),
     {| ev_count_ := n; events_ := events_ io;
        reconnect_q_ := reconnect_q_ io; backlog_ := backlog_ io |}).

(** [backlog()]: [backlog_.swap(reconnect_q_)]. *)
Definition backlog (io : t) : t :=
  {| ev_count_ := ev_count_ io; events_ := events_ io;
     reconnect_q_ := backlog_ io;
     backlog_ := reconnect_q_ io |}.

Definition next_backlog (io : t) : option Z * t :=
  match backlog_ io with
  | [] => (None, io)
  | sh :: rest =>
      (Some sh,
       {| ev_count_ := ev_count_ io; events_ := events_ io;
          reconnect_q_ := reconnect_q_ io; backlog_ := rest |})
  end.

Definition new_tls_ctx (e : sys) : result Z :=
  match ssl_new_ret e with
  | None => Throw "cannot clone TLS context"
  | Some ctx => Ret ctx
  end.

(** Call [next_backlog] until it answers [NULL], at most [n] times. *)
Fixpoint drain (n : nat) (io : t) : list Z * t :=
  match n with
  | O => ([], io)
  | S n' =>
      match next_backlog io with
      | (None, io') => ([], io')
      | (Some sh, io') =>
          let '(rest, io'') := drain n' io' in (sh :: rest, io'')
      end
  end.

End IO.

(** ** What a worker thread sees

    The shared block, the global latency store and the two flags, its
    own poller, its thread-local sampler and the console. *)

Record world := {
  stat : stat_t;
  g_lat_stat : lat_store;
  finish : bool;               (* std::atomic<bool> *)
  start_stats : bool;          (* std::atomic<bool> *)
  io : IO.t;
  lat_stat : LatencyStat.t;    (* thread_local *)
  out : list msg
}.

Definition world0 : world :=
  {| stat := stat0; g_lat_stat := g_lat_stat0;
     finish := false; start_stats := false;
     io := IO.init; lat_stat := LatencyStat.init; out := [] |}.

Definition set_stat (f : stat_t -> stat_t) (w : world) : world :=
  {| stat := f (stat w); g_lat_stat := g_lat_stat w;
     finish := finish w; start_stats := start_stats w;
     io := io w; lat_stat := lat_stat w; out := out w |}.

Definition set_g_lat_stat (x : lat_store) (w : world) : world :=
  {| stat := stat w; g_lat_stat := x;
     finish := finish w; start_stats := start_stats w;
     io := io w; lat_stat := lat_stat w; out := out w |}.

Definition set_finish (b : bool) (w : world) : world :=
  {| stat := stat w; g_lat_stat := g_lat_stat w;
     finish := b; start_stats := start_stats w;
     io := io w; lat_stat := lat_stat w; out := out w |}.

Definition set_start_stats (b : bool) (w : world) : world :=
  {| stat := stat w; g_lat_stat := g_lat_stat w;
     finish := finish w; start_stats := b;
     io := io w; lat_stat := lat_stat w; out := out w |}.

Definition set_io (x : IO.t) (w : world) : world :=
  {| stat := stat w; g_lat_stat := g_lat_stat w;
     finish := finish w; start_stats := start_stats w;
     io := x; lat_stat := lat_stat w; out := out w |}.

Definition set_lat_stat (x : LatencyStat.t) (w : world) : world :=
  {| stat := stat w; g_lat_stat := g_lat_stat w;
     finish := finish w; start_stats := start_stats w;
     io := io w; lat_stat := x; out := out w |}.

Definition print (ms : list msg) (w : world) : world :=
  {| stat := stat w; g_lat_stat := g_lat_stat w;
     finish := finish w; start_stats := start_stats w;
     io := io w; lat_stat := lat_stat w; out := out w ++ ms |}.

(** ** Peer *)

Module Peer.

Inductive _states :=
| STATE_TCP_CONNECT
| STATE_TCP_CONNECTING
| STATE_TLS_HANDSHAKING.

Record t := {
  id_ : Z;                (* int *)
  sd : Z;                 (* int, -1 when closed *)
  tls_ : option Z;        (* SSL *, None for NULL *)
  state_ : _states;
  polled_ : bool
}.

Definition set_sd (x : Z) (p : t) : t :=
  {| id_ := id_ p; sd := x; tls_ := tls_ p; state_ := state_ p;
     polled_ := polled_ p |}.

Definition set_tls (x : option Z) (p : t) : t :=
  {| id_ := id_ p; sd := sd p; tls_ := x; state_ := state_ p;
     polled_ := polled_ p |}.

Definition set_state (x : _states) (p : t) : t :=
  {| id_ := id_ p; sd := sd p; tls_ := tls_ p; state_ := x;
     polled_ := polled_ p |}.

Definition set_polled (x : bool) (p : t) : t :=
  {| id_ := id_ p; sd := sd p; tls_ := tls_ p; state_ := state_ p;
     polled_ := x |}.

Definition dbg_status (p : t) (m : string) (w : world) : world :=
  print [Dbg m [id_ p]] w.

(** [Peer(io, id)]. *)
Definition create (id : Z) (w : world) : t * world :=
  let p := {| id_ := id; sd := -1; tls_ := None;
              state_ := STATE_TCP_CONNECT; polled_ := false |} in
  (p, dbg_status p "created" w).

Definition add_to_poll (e : sys) (p : t) (w : world) : result (t * world) :=
  if polled_ p then Ret (p, w)
  else
    io' ← IO.add e (io w);
    Ret (set_polled true p, set_io io' w).

Definition del_from_poll (e : sys) (p : t) (w : world) : result (t * world) :=
  if polled_ p then
    io' ← IO.del e (io w);
    Ret (set_polled false p, set_io io' w)
  else Ret (p, w).

(** [disconnect()]: frees the session, deregisters and closes the socket;
    a failing [del_from_poll] is caught and reported, [polled_] then keeps
    its value. *)
Definition disconnect (e : sys) (p : t) (w : world) : t * world :=
  let p1 := match tls_ p with
            | Some _ => set_tls None p
            | None => p
            end in
  let '(p2, w2) :=
    if 0 <=? sd p1 then
      let '(p', w') :=
        match del_from_poll e p1 w with
        | Ret pw => pw
        | Throw what => (p1, print [Cerr ("ERROR disconnect: " ++ what) []] w)
        end in
      (set_sd (-1) p', w')
    else (p1, w) in
  (set_state STATE_TCP_CONNECT p2, w2).

Definition tls_handshake (e : sys) (p : t) (w : world)
  : result (bool * t * world) :=
  let p := set_state STATE_TLS_HANDSHAKING p in
  '(p, w) ← match tls_ p with
            | None =>
                ctx ← IO.new_tls_ctx e;
                Ret (set_tls (Some ctx) p,
                     set_stat (upd_tls_handshakes incr32) w)
            | Some _ => Ret (p, w)
            end;
  let r := ssl_connect_ret e in
  if r =? 1 then
    (* Update TLS handshake latency only if a handshakes happens
       immediately. *)
    let '(ls, log) := LatencyStat.update (lat_stat w) (u64 (lat e)) in
    let w := print log (set_lat_stat ls w) in
    let w := dbg_status p "has completed TLS handshake" w in
    let w := set_stat (upd_tls_handshakes decr32) w in
    let w := set_stat (upd_tls_connections incr32) w in
    let w := set_stat (upd_tot_tls_handshakes incr64) w in
    let '(p, w) := disconnect e p w in
    let w := set_stat (upd_tcp_connections decr32) w in
    let w := set_io (IO.queue_reconnect (id_ p) (io w)) w in
    Ret (true, p, w)
  else if (ssl_get_error_ret e =? SSL_ERROR_WANT_READ)
          || (ssl_get_error_ret e =? SSL_ERROR_WANT_WRITE) then
    '(p, w) ← add_to_poll e p w;
    Ret (false, p, w)
  else if tls_connections (stat w) =? 0 then
    Throw "cannot establish even one TLS connection"
  else
    let w := set_stat (upd_tls_handshakes decr32) w in
    let w := set_stat (upd_error_count incr32) w in
    let '(p, w) := disconnect e p w in
    let w := set_stat (upd_tcp_connections decr32) w in
    Ret (false, p, w).

Definition handle_established_tcp_conn (e : sys) (p : t) (w : world)
  : result (bool * t * world) :=
  let w := dbg_status p "has established TCP connection" w in
  let w := set_stat (upd_tcp_handshakes decr32) w in
  let w := set_stat (upd_tcp_connections incr32) w in
  tls_handshake e p w.

Definition handle_connect_error (err : Z) (e : sys) (p : t) (w : world)
  : result (t * world) :=
  if (err =? EINPROGRESS) || (err =? EAGAIN) then
    (* Continue to wait on the TCP handshake. *)
    add_to_poll e p w
  else if tcp_connections (stat w) =? 0 then
    Throw "cannot establish even one TCP connection"
  else
    let w := set_stat (upd_tcp_handshakes decr32) w in
    Ret (disconnect e p w).

Definition tcp_connect_try_finish (e : sys) (p : t) (w : world)
  : result (bool * t * world) :=
  if negb (getsockopt_ret e =? 0) then
    Throw "cannot get a socket connect() status"
  else if so_error e =? 0 then
    handle_established_tcp_conn e p w
  else
    '(p, w) ← handle_connect_error (so_error e) e p w;
    Ret (false, p, w).

Definition tcp_connect (e : sys) (p : t) (w : world)
  : result (bool * t * world) :=
  let p := set_sd (socket_ret e) p in
  if sd p <? 0 then Throw "cannot create a socket"
  else
    let r := connect_ret e in
    let w := set_stat (upd_tcp_handshakes incr32) w in
    let p := set_state STATE_TCP_CONNECTING p in
    (* connect() can complete instantly even on non-blocking sockets. *)
    if r =? 0 then handle_established_tcp_conn e p w
    else
      '(p, w) ← handle_connect_error (connect_errno e) e p w;
      Ret (false, p, w).

Definition next_state (e : sys) (p : t) (w : world)
  : result (bool * t * world) :=
  match state_ p with
  | STATE_TCP_CONNECT => tcp_connect e p w
  | STATE_TCP_CONNECTING => tcp_connect_try_finish e p w
  | STATE_TLS_HANDSHAKING => tls_handshake e p w
  end.

End Peer.

(** ** update_limits *)

(** The function either returns, leaving [g_opt] possibly changed, or
    leaves the process through [exit(code)]. *)
Inductive or_exit (A : Type) :=
| Returns (a : A)
| Exits (code : Z).
Arguments Returns {A} a.
Arguments Exits {A} code.

(** [rlim_t req_fd_n = (g_opt.n_peers + 4) * g_opt.n_threads]: computed
    in [int], then converted. *)
Definition req_fd_n (g : options) : Z :=
  u64 (i32 (i32 (n_peers g + 4) * n_threads g)).

(** [rlim_cur] is the soft limit that [getrlimit] reports and
    [setrlimit_ret] the result of the [setrlimit] call, if it is made.
    The quotient of an [rlim_t] by an [int] is an unsigned division; the
    divisor is zero only for [n_threads = -4], where the source is
    undefined and the model yields 0. *)
Definition update_limits (g : options) (rlim_cur setrlimit_ret : Z)
  : or_exit options * list msg :=
  let req_fd_n := req_fd_n g in
  if req_fd_n <? rlim_cur then (Returns g, [])
  else
    let o1 := [Cout "set open files limit to" [req_fd_n]] in
    let rlim_cur := req_fd_n in
    if negb (setrlimit_ret =? 0) then
      let n := i32 (rlim_cur / u64 (i32 (n_threads g + 4))) in
      let g' := {| n_peers := n; n_threads := n_threads g;
                   n_hs := n_hs g; timeout := timeout g |} in
      let o2 := [Cerr "WARNING: required (peers_number * threads_number), but setrlimit(2) fails for this rlimit. Continue with peers"
                   [req_fd_n; n]] in
      if n =? 0 then
        (Exits 3, o1 ++ o2 ++ [Cerr "ERROR: cannot run with no peers" []])
      else (Returns g', o1 ++ o2)
    else (Returns g, o1).

(** ** The driver's statistics *)

(** [int32_t curr_hs = (size_t)(1000 * tls_conns) / dt]: an unsigned
    division, narrowed.  A zero [dt] is undefined in the source (the driver
    sleeps a second between calls) and yields 0 here. *)
Definition curr_hs (tls_conns dt : Z) : Z :=
  i32 (u64 (i32 (1000 * tls_conns)) / u64 dt).

(** [statistics_update()], called [dt] milliseconds after the previous
    call. *)
Definition statistics_update (dt : Z) (w : world) : world :=
  let tls_conns := tls_connections (stat w) in
  let w := set_stat (upd_tls_connections (fun x => i32 (x - tls_conns))) w in
  let curr_hs := curr_hs tls_conns dt in
  let s := stat w in
  let w := print [Cout "TLS hs in progress [ h/s], TCP open conns [ hs in progress], Errors"
                    [tls_handshakes s; curr_hs; tcp_connections s;
                     tcp_handshakes s; error_count s]] w in
  if negb (start_stats w) then w
  else
    let measures' := i32 (measures s + 1) in
    let max_hs' := if max_hs s <? curr_hs then curr_hs else max_hs s in
    let min_hs' :=
      if negb (curr_hs =? 0) && ((curr_hs <? min_hs s) || (min_hs s =? 0))
      then curr_hs else min_hs s in
    let avg_hs' :=
      i32 (cdiv (i32 (i32 (avg_hs s * i32 (measures' - 1)) + curr_hs))
                measures') in
    let sz := Z.of_nat (length (hs_history s)) in
    let warn :=
      if sz =? 3600
      then [Cerr "WARNING: benchmark is running for too long last history won't be stored" []]
      else [] in
    let hist' :=
      if sz <=? 3600 then hs_history s ++ [curr_hs] else hs_history s in
    let s' :=
      {| tot_tls_handshakes := tot_tls_handshakes s;
         tcp_handshakes := tcp_handshakes s;
         tcp_connections := tcp_connections s;
         tls_connections := tls_connections s;
         tls_handshakes := tls_handshakes s;
         error_count := error_count s;
         measures := measures'; max_hs := max_hs'; min_hs := min_hs';
         avg_hs := avg_hs'; hs_history := hist' |} in
    print warn (set_stat (fun _ => s') w).

(** [std::sort(first, last, comp)]: the result is ordered by [comp] and
    holds the same elements; here by insertion. *)
Fixpoint sort_insert {A} (comp : A -> A -> bool) (x : A) (l : list A)
  : list A :=
  match l with
  | [] => [x]
  | y :: l' => if comp y x then y :: sort_insert comp x l' else x :: l
  end.

Definition std_sort {A} (comp : A -> A -> bool) (l : list A) : list A :=
  foldr (sort_insert comp) [] l.

(** [std::greater<int32_t>] and [std::less<int32_t>]: both arguments are
    converted to [int32_t] before they are compared. *)
Definition greater_int32 (a b : Z) : bool := i32 b <? i32 a.
Definition less_int32 (a b : Z) : bool := i32 a <? i32 b.

(** Reads of a vector and an unsigned division; [None] where the source
    reads outside the vector or divides by zero (undefined behaviour). *)
Definition vec_at (v : list Z) (k : Z) : option Z :=
  if k <? 0 then None else v !! Z.to_nat k.
Definition vec_front (v : list Z) : option Z := head v.
Definition vec_back (v : list Z) : option Z := last v.
Definition udiv (a b : Z) : option Z :=
  if b =? 0 then None else Some (a / b).

(** The numbers of the final report, in the order they are printed. *)
Record report := {
  r_seconds : Z;
  r_handshakes : Z;
  r_max_hs : Z;
  r_avg_hs : Z;
  r_p95_hs : option Z;
  r_min_hs : Z;
  r_lat_min : option Z;
  r_lat_avg : option Z;
  r_lat_p95 : option Z;
  r_lat_max : option Z
}.

Inductive dump_out :=
| NotEnough                  (* "ERROR: not enough statistics collected" *)
| Printed (r : report).

(** [statistics_dump()]: both vectors are sorted in place, then read. *)
Definition statistics_dump (w : world) : world * dump_out :=
  let g := g_lat_stat w in
  let hsz := Z.of_nat (length (hs_history (stat w))) in
  let lsz := Z.of_nat (length (ls_stat g)) in
  if negb (start_stats w) || (hsz <? 1) then
    (print [Cerr "ERROR: not enough statistics collected" []] w, NotEnough)
  else
    let s := stat w in
    let hist := std_sort greater_int32 (hs_history s) in
    let lats := std_sort less_int32 (ls_stat g) in
    let s' :=
      {| tot_tls_handshakes := tot_tls_handshakes s;
         tcp_handshakes := tcp_handshakes s;
         tcp_connections := tcp_connections s;
         tls_connections := tls_connections s;
         tls_handshakes := tls_handshakes s;
         error_count := error_count s;
         measures := measures s; max_hs := max_hs s; min_hs := min_hs s;
         avg_hs := avg_hs s; hs_history := hist |} in
    let g' := {| ls_stat := lats; acc_lat := acc_lat g |} in
    let r :=
      {| r_seconds := measures s;
         r_handshakes := tot_tls_handshakes s;
         r_max_hs := max_hs s;
         r_avg_hs := avg_hs s;
         r_p95_hs := vec_at hist (u64 (hsz * 95) / 100);
         r_min_hs := min_hs s;
         r_lat_min := vec_front lats;
         r_lat_avg := udiv (acc_lat g) lsz;
         r_lat_p95 := vec_at lats (u64 (lsz * 95) / 100);
         r_lat_max := vec_back lats |} in
    (set_g_lat_stat g' (set_stat (fun _ => s') w), Printed r).

(** ** The worker loop and the driver

    One worker thread and the driver thread, interleaved at the grain of
    one advance.  The worker is at one of the control points of [io_loop];
    the driver at one of those of the loop in [main]. *)

Inductive wpc :=
| AtTop        (* the test of [while (!end_of_work())] *)
| AtCreate     (* the test of the slow-start [for] *)
| AtReady      (* the test of [while (auto p = io.next_sk())] *)
| AtDrain      (* the test of [while (!finish)] *)
| AtDone.      (* the thread has returned *)

Inductive dpc :=
| DTest        (* the test of [while (!end_of_work())] *)
| DSleep       (* inside [sleep_for], before [statistics_update] *)
| DJoin        (* joining the workers *)
| DDone.       (* [statistics_dump] has run *)

Record machine := {
  w_pc : wpc;
  active_peers : Z;            (* int *)
  new_peers : Z;               (* int *)
  all_peers : list Peer.t;     (* the peer with [id_ = k] at position [k] *)
  d_pc : dpc;
  final : option dump_out;
  wld : world
}.

Definition end_of_work (g : options) (w : world) : bool :=
  finish w || (n_hs g <=? tot_tls_handshakes (stat w)).

(** The locals of [io_loop] at its first test, the driver at its own. *)
Definition machine0 (g : options) : machine :=
  {| w_pc := AtTop;
     active_peers := 0;
     new_peers := Z.min (n_peers g) PEERS_SLOW_START;
     all_peers := [];
     d_pc := DTest; final := None;
     wld := world0 |}.

Definition at_pc (pc : wpc) (m : machine) : machine :=
  {| w_pc := pc; active_peers := active_peers m; new_peers := new_peers m;
     all_peers := all_peers m; d_pc := d_pc m; final := final m;
     wld := wld m |}.

Definition with_wld (w : world) (m : machine) : machine :=
  {| w_pc := w_pc m; active_peers := active_peers m;
     new_peers := new_peers m; all_peers := all_peers m;
     d_pc := d_pc m; final := final m; wld := w |}.

Definition with_new_peers (n : Z) (m : machine) : machine :=
  {| w_pc := w_pc m; active_peers := active_peers m; new_peers := n;
     all_peers := all_peers m; d_pc := d_pc m; final := final m;
     wld := wld m |}.

Definition with_all_peers (ps : list Peer.t) (m : machine) : machine :=
  {| w_pc := w_pc m; active_peers := active_peers m;
     new_peers := new_peers m; all_peers := ps; d_pc := d_pc m;
     final := final m; wld := wld m |}.

Definition with_driver (pc : dpc) (r : option dump_out) (m : machine)
  : machine :=
  {| w_pc := w_pc m; active_peers := active_peers m;
     new_peers := new_peers m; all_peers := all_peers m; d_pc := pc;
     final := r; wld := wld m |}.

(** [if (p->next_state() && active_peers + new_peers < g_opt.n_peers)
    ++new_peers;] with [b] the value of [p->next_state()]. *)
Definition bump (g : options) (b : bool) (m : machine) : machine :=
  if b && (i32 (active_peers m + new_peers m) <? n_peers g)
  then with_new_peers (i32 (new_peers m + 1)) m
  else m.

Definition peer_at (ps : list Peer.t) (sh : Z) : option Peer.t :=
  if sh <? 0 then None else ps !! Z.to_nat sh.

(** Advance the peer behind a handler that the poller or the backlog
    handed out.  A handler that is not a peer of this worker is never
    handed out; the model skips it. *)
Definition advance (g : options) (e : sys) (sh : Z) (m : machine)
  : result machine :=
  match peer_at (all_peers m) sh with
  | None => Ret m
  | Some p =>
      '(b, p', w') ← Peer.next_state e p (wld m);
      Ret (bump g b
             (with_wld w'
                (with_all_peers (<[Z.to_nat sh := p']> (all_peers m)) m)))
  end.

(** One round of the slow-start [for]: create, advance once, [--new_peers]. *)
Definition create_peer (g : options) (e : sys) (m : machine)
  : result machine :=
  let '(p, w) := Peer.create (active_peers m) (wld m) in
  let m1 :=
    {| w_pc := w_pc m; active_peers := i32 (active_peers m + 1);
       new_peers := new_peers m; all_peers := all_peers m;
       d_pc := d_pc m; final := final m; wld := w |} in
  '(b, p', w') ← Peer.next_state e p w;
  let m2 := bump g b (with_wld w' (with_all_peers (all_peers m ++ [p']) m1)) in
  Ret (with_new_peers (i32 (new_peers m2 - 1)) m2).

(** After the backlog loop: publish [start_stats], back to the top. *)
Definition end_iteration (g : options) (m : machine) : machine :=
  let w := wld m in
  let w' :=
    if (active_peers m =? n_peers g) && negb (start_stats w) then
      print [Cout "( All peers are active, start to gather statistics )" []]
            (set_start_stats true w)
    else w in
  at_pc AtTop (with_wld w' m).

(** [for (auto p : all_peers) delete p;] and, back in the thread's lambda,
    [lat_stat.dump()]. *)
Definition delete_all (e : sys) (ps : list Peer.t) (w : world) : world :=
  fold_left (fun w p => snd (Peer.disconnect e p w)) ps w.

Definition thread_exit (e : sys) (m : machine) : machine :=
  let w := delete_all e (all_peers m) (wld m) in
  let w := set_g_lat_stat (LatencyStat.dump (lat_stat w) (g_lat_stat w)) w in
  at_pc AtDone (with_wld w (with_all_peers [] m)).

Definition worker_step (g : options) (e : sys) (m : machine)
  : result machine :=
  match w_pc m with
  | AtTop =>
      if end_of_work g (wld m) then Ret (thread_exit e m)
      else Ret (at_pc AtCreate m)
  | AtCreate =>
      if (active_peers m <? n_peers g) && negb (new_peers m =? 0) then
        create_peer g e m
      else
        io' ← IO.wait e (io (wld m));
        Ret (at_pc AtReady (with_wld (set_io io' (wld m)) m))
  | AtReady =>
      let '(sh, io') := IO.next_sk (io (wld m)) in
      match sh with
      | Some p => advance g e p (with_wld (set_io io' (wld m)) m)
      | None =>
          (* Process disconnected sockets from the backlog. *)
          Ret (at_pc AtDrain
                 (with_wld (set_io (IO.backlog io') (wld m)) m))
      end
  | AtDrain =>
      if finish (wld m) then Ret (end_iteration g m)
      else
        let '(sh, io') := IO.next_backlog (io (wld m)) in
        match sh with
        | None => Ret (end_iteration g (with_wld (set_io io' (wld m)) m))
        | Some p => advance g e p (with_wld (set_io io' (wld m)) m)
        end
  | AtDone => Ret m
  end.

(** The driver: [dt] is the time in milliseconds since the previous
    [statistics_update], [elapsed] the seconds since the start. *)
Definition driver_step (g : options) (dt elapsed : Z) (m : machine)
  : machine :=
  match d_pc m with
  | DTest =>
      if end_of_work g (wld m) then with_driver DJoin None m
      else with_driver DSleep None m
  | DSleep =>
      let w := statistics_update dt (wld m) in
      let w :=
        if negb (timeout g =? 0) && (timeout g <=? elapsed)
        then set_finish true w else w in
      with_driver DTest None (with_wld w m)
  | DJoin =>
      match w_pc m with
      | AtDone =>
          let '(w, r) := statistics_dump (wld m) in
          with_driver DDone (Some r) (with_wld w m)
      | _ => m
      end
  | DDone => m
  end.

Inductive input :=
| Worker (e : sys)             (* the worker makes its next step *)
| Driver (dt elapsed : Z)      (* the driver makes its next step *)
| Signal.                      (* [sig_handler]: SIGINT or SIGTERM *)

Definition step (g : options) (i : input) (m : machine) : result machine :=
  match i with
  | Worker e => worker_step g e m
  | Driver dt elapsed => Ret (driver_step g dt elapsed m)
  | Signal => Ret (with_wld (set_finish true (wld m)) m)
  end.

Fixpoint run (g : options) (ins : list input) (m : machine)
  : result machine :=
  match ins with
  | [] => Ret m
  | i :: rest => m' ← step g i m; run g rest m'
  end.

(** ** Definitions used to state the properties *)

(** The slots of a ring before its first zero slot, scanning from
    index 0, and the sum of a list of readings. *)
Fixpoint nonzero_prefix (slots : list Z) : list Z :=
  match slots with
  | [] => []
  | l :: rest => if l =? 0 then [] else l :: nonzero_prefix rest
  end.

Definition zsum (l : list Z) : Z := foldr Z.add 0 l.

(** The invariant of the sampler: the stride and the cursor stay in
    range, and the ring keeps its [LATENCY_N] slots. *)
Definition sampler_inv (s : LatencyStat.t) : Prop :=
  1 <= LatencyStat.di_ s <= LATENCY_N / 4 /\
  0 <= LatencyStat.i_ s < LATENCY_N /\
  length (LatencyStat.stat_ s) = Z.to_nat LATENCY_N.

(** The counters of the worker loop: [active_peers] stays within the
    target and the creation budget never promises more than is left. *)
Definition loop_inv (g : options) (m : machine) : Prop :=
  0 <= active_peers m <= n_peers g /\
  0 <= new_peers m /\
  active_peers m + new_peers m <= n_peers g.

(** What the test after an advance adds to the creation budget: one when
    [next_state] returned [b = true] and [active + new] is below the
    target. *)
Definition budget (g : options) (b : bool) (active new : Z) : Z :=
  if b && (active + new <? n_peers g) then 1 else 0.

(** The slow-start [for] is about to create a peer. *)
Definition creating (g : options) (m : machine) : bool :=
  match w_pc m with
  | AtCreate => (active_peers m <? n_peers g) && negb (new_peers m =? 0)
  | _ => false
  end.

(** The peer that the next step of the worker advances, with the world it
    is advanced in; [None] when that step advances no peer. *)
Definition handed_out (g : options) (m : machine) : option (Peer.t * world) :=
  match w_pc m with
  | AtCreate =>
      if creating g m then Some (Peer.create (active_peers m) (wld m))
      else None
  | AtReady =>
      let '(sh, io') := IO.next_sk (io (wld m)) in
      p ← sh ≫= peer_at (all_peers m);
      Some (p, set_io io' (wld m))
  | AtDrain =>
      if finish (wld m) then None
      else
        let '(sh, io') := IO.next_backlog (io (wld m)) in
        p ← sh ≫= peer_at (all_peers m);
        Some (p, set_io io' (wld m))
  | _ => None
  end.

(** What [p->next_state()] returns in the next step of the worker. *)
Definition advance_result (g : options) (e : sys) (m : machine)
  : option bool :=
  match handed_out g m with
  | Some (p, w) =>
      match Peer.next_state e p w with
      | Ret (b, _, _) => Some b
      | Throw _ => None
      end
  | None => None
  end.

(** The driver's part of [stat]. *)
Definition driver_part (s : stat_t) : Z * Z * Z * Z * list Z :=
  (measures s, max_hs s, min_hs s, avg_hs s, hs_history s).

(** What an advance of a peer leaves alone: the global latency store,
    the two flags, the backlog and the driver's part of [stat]. *)
Definition worker_frame (w w' : world) : Prop :=
  g_lat_stat w' = g_lat_stat w /\
  finish w' = finish w /\
  start_stats w' = start_stats w /\
  IO.backlog_ (io w') = IO.backlog_ (io w) /\
  driver_part (stat w') = driver_part (stat w).

(** The sampler after an advance: untouched, or updated once with the
    time of this call. *)
Definition lat_step (e : sys) (w w' : world) : Prop :=
  lat_stat w' = lat_stat w \/
  lat_stat w' = fst (LatencyStat.update (lat_stat w) (u64 (lat e))).

(** The peer has a TLS session, or [SSL_new] provides one. *)
Definition session_ready (e : sys) (p : Peer.t) : Prop :=
  Peer.tls_ p <> None \/ ssl_new_ret e <> None.

(** A fatal answer of the TLS library: neither success nor a request to
    wait for the socket. *)
Definition fatal (e : sys) : Prop :=
  ssl_connect_ret e <> 1 /\
  ssl_get_error_ret e <> SSL_ERROR_WANT_READ /\
  ssl_get_error_ret e <> SSL_ERROR_WANT_WRITE.

(** The driver's figures: the maximum is non-negative and bounds the
    minimum and every stored sample; the history holds at most 3601
    samples. *)
Definition stat_inv (s : stat_t) : Prop :=
  0 <= max_hs s /\ min_hs s <= max_hs s /\
  Forall (fun v => v <= max_hs s) (hs_history s) /\
  (length (hs_history s) <= 3601)%nat.

Definition avg_inv (s : stat_t) : Prop :=
  0 <= measures s /\ 0 <= avg_hs s <= max_hs s.

(** The signed arithmetic of one [statistics_update] call is defined:
    the snapshot is not negative, the time since the last call is
    positive, and neither [1000 * tls_conns], [stat.measures++] nor
    [avg_hs * (measures - 1) + curr_hs] leaves the range of [int32_t]. *)
Definition tick_defined (dt : Z) (w : world) : bool :=
  let c := tls_connections (stat w) in
  (0 <=? c) && (1000 * c <? 2 ^ 31) && (0 <? dt) && (dt <? 2 ^ 63) &&
  (negb (start_stats w) ||
   ((measures (stat w) + 1 <? 2 ^ 31) &&
    (avg_hs (stat w) * measures (stat w) + curr_hs c dt <? 2 ^ 31))).

(** ... in every [statistics_update] of a run. *)
Fixpoint ticks_defined (g : options) (ins : list input) (m : machine)
  : bool :=
  match ins with
  | [] => true
  | i :: rest =>
      match i, d_pc m with
      | Driver dt _, DSleep => tick_defined dt (wld m)
      | _, _ => true
      end &&
      match step g i m with
      | Ret m' => ticks_defined g rest m'
      | Throw _ => true
      end
  end.

(** The order that a sort by [key] establishes. *)
Definition key_le {A} (key : A -> Z) (a b : A) : Prop := key a <= key b.

(** The run [ins] from the initial state raises no exception and ends
    in a state with the property [P]. *)
Definition reaches (g : options) (ins : list input) (P : machine -> Prop)
  : Prop :=
  match run g ins (machine0 g) with
  | Ret m => P m
  | Throw _ => False
  end.

(** The sampler's ring and the global store hold [unsigned long] values;
    the store holds no zero, its accumulator is the wrapped sum of its
    samples, and one worker contributes at most [LATENCY_N] samples. *)
Definition ring_ok (s : LatencyStat.t) : Prop :=
  sampler_inv s /\
  Forall (fun v => 0 <= v < 2 ^ 64) (LatencyStat.stat_ s).

Definition store_ok (g : lat_store) : Prop :=
  Forall (fun v => 0 < v < 2 ^ 64) (ls_stat g) /\
  acc_lat g = u64 (zsum (ls_stat g)) /\
  (length (ls_stat g) <= Z.to_nat LATENCY_N)%nat.

(** What holds of the statistics in every state of a run. *)
Definition world_inv (w : world) : Prop :=
  stat_inv (stat w) /\ ring_ok (lat_stat w) /\ store_ok (g_lat_stat w).

(** ... and of the machine: the global store is empty until the worker
    has returned, and the backlog is empty whenever the worker is about to
    create peers or to serve ready handlers (at the top of the loop it is
    empty unless [finish] cut the draining short). *)
Definition machine_inv (m : machine) : Prop :=
  world_inv (wld m) /\
  (w_pc m <> AtDone -> g_lat_stat (wld m) = g_lat_stat0) /\
  match w_pc m with
  | AtTop => IO.backlog_ (io (wld m)) = [] \/ finish (wld m) = true
  | AtCreate | AtReady => IO.backlog_ (io (wld m)) = []
  | AtDrain | AtDone => True
  end.

(** The order of the figures of a report, as far as the code keeps it:
    every figure is read inside its vector; the maximum throughput bounds
    the other three throughput figures; the least and the greatest
    latency bound the average and the 95th percentile. *)
Definition report_ordered (r : report) : Prop :=
  exists p95 lmin lavg lp95 lmax,
    r_p95_hs r = Some p95 /\ r_lat_min r = Some lmin /\
    r_lat_avg r = Some lavg /\ r_lat_p95 r = Some lp95 /\
    r_lat_max r = Some lmax /\
    p95 <= r_max_hs r /\ r_avg_hs r <= r_max_hs r /\
    r_min_hs r <= r_max_hs r /\
    lmin <= lavg <= lmax /\ lmin <= lp95 <= lmax.

(** The order [min <= avg <= 95P <= max] of both groups of figures. *)
Definition percentile_order (r : report) : Prop :=
  exists p95 lmin lavg lp95 lmax,
    r_p95_hs r = Some p95 /\ r_lat_min r = Some lmin /\
    r_lat_avg r = Some lavg /\ r_lat_p95 r = Some lp95 /\
    r_lat_max r = Some lmax /\
    r_min_hs r <= r_avg_hs r <= p95 /\ p95 <= r_max_hs r /\
    lmin <= lavg <= lp95 /\ lp95 <= lmax.

(** The latency store can be ordered and summed as the report does: it
    is not empty and its samples are below 2^31 microseconds, where
    [std::less<int32_t>] agrees with the order of the values. *)
Definition store_small (store : list Z) : Prop :=
  Forall (fun v => v < 2 ^ 31) store /\ store <> [].

(** Once the report is printed both threads are done, and the report is
    ordered if the store it was read from can be. *)
Definition final_inv (m : machine) : Prop :=
  match final m with
  | Some o =>
      d_pc m = DDone /\ w_pc m = AtDone /\
      match o with
      | Printed r =>
          store_small (ls_stat (g_lat_stat (wld m))) -> report_ordered r
      | NotEnough => True
      end
  | None => True
  end.

(** ** Example runs

    An environment is given by what it answers to [connect] and
    [SSL_connect], the error code of [SSL_get_error], the time spent in
    [SSL_connect] and the handlers that [epoll_wait] reports; the calls
    that set up sockets and sessions succeed. *)

Definition env (conn sslr sslerr latency : Z) (ready : list Z) : sys :=
  {| socket_ret := 3; connect_ret := conn; connect_errno := EINPROGRESS;
     getsockopt_ret := 0; so_error := 0; ssl_new_ret := Some 1;
     ssl_connect_ret := sslr; ssl_get_error_ret := sslerr; lat := latency;
     epoll_add_ret := 0; epoll_del_ret := 0;
     wait_eintr := 0; wait_ret := Z.of_nat (length ready);
     wait_ready := ready |}.

(** Nothing completes: [connect] is in progress, the handshake wants to
    read, no handler is ready. *)
Definition env_idle : sys := env (-1) (-1) SSL_ERROR_WANT_READ 0 [].

(** [epoll_wait] reports the handlers [ready]. *)
Definition env_ready (ready : list Z) : sys :=
  env (-1) (-1) SSL_ERROR_WANT_READ 0 ready.

(** [SSL_connect] returns 1 after [latency] microseconds. *)
Definition env_done (latency : Z) : sys := env (-1) 1 0 latency [].

(** [SSL_connect] fails with [SSL_ERROR_SSL]. *)
Definition env_fatal : sys := env (-1) (-1) 1 0 [].

(** One worker, one peer, no cap on handshakes, no timeout. *)
Definition g1 : options :=
  {| n_peers := 1; n_threads := 1; n_hs := 2 ^ 64 - 1; timeout := 0 |}.

(** One worker with a target of twelve peers. *)
Definition g12 : options :=
  {| n_peers := 12; n_threads := 1; n_hs := 2 ^ 64 - 1; timeout := 0 |}.

(** Peer 0 connects, its handshake suspends on the first [SSL_connect]
    and is resumed by a readiness event. *)
Definition suspended : list input :=
  [ Worker env_idle;            (* top: not the end of work *)
    Worker env_idle;            (* create peer 0: connect() in progress *)
    Worker (env_ready [0]);     (* budget spent: wait, peer 0 is ready *)
    Worker env_idle;            (* TCP established, SSL_connect wants read *)
    Worker env_idle;            (* no more events: swap the backlog *)
    Worker env_idle;            (* backlog empty: all peers are active *)
    Worker env_idle;            (* top *)
    Worker (env_ready [0]) ].   (* wait, peer 0 is ready *)

(** The server accepts the TCP connection and never answers the
    ClientHello: the only peer is active, the driver records a second with
    no handshake, a signal ends the run, the worker drains its sampler and
    the driver prints the report. *)
Definition stalled : list input :=
  take 6 suspended ++
  [ Driver 0 0;                 (* driver: not the end of work *)
    Driver 1000 1;              (* statistics_update records 0 h/s *)
    Signal;                     (* SIGINT *)
    Worker env_idle;            (* top: end of work, the thread returns *)
    Driver 0 0;                 (* driver: end of work *)
    Driver 0 0 ].               (* join, then statistics_dump *)

(** A poller whose backlog was not drained. *)
Definition io_busy : IO.t :=
  {| IO.ev_count_ := 0; IO.events_ := [];
     IO.reconnect_q_ := [2]; IO.backlog_ := [1] |}.

(** Peer 0 is active and the driver is left to take 3601 samples. *)
Definition long_run : list input :=
  take 6 suspended ++
  mjoin (replicate 3601 [Driver 0 0; Driver 1000 1]).

(** 512 workers with one peer each. *)
Definition g512 : options :=
  {| n_peers := 1; n_threads := 512; n_hs := 2 ^ 64 - 1; timeout := 0 |}.

(** After a completed handshake: peer 0 is taken from the backlog,
    connects again, and its next handshake is suspended and resumed. *)
Definition reconnect : list input :=
  [ Worker env_idle;            (* no more events: swap the backlog *)
    Worker env_idle;            (* peer 0 from the backlog: connect() *)
    Worker env_idle;            (* backlog empty *)
    Worker env_idle;            (* top *)
    Worker (env_ready [0]);     (* wait, peer 0 is ready *)
    Worker env_idle;            (* TCP established, SSL_connect wants read *)
    Worker env_idle;            (* no more events: swap the backlog *)
    Worker env_idle;            (* backlog empty *)
    Worker env_idle;            (* top *)
    Worker (env_ready [0]) ].   (* wait, peer 0 is ready *)

(** The resumed handshake completes; a second later the driver takes its
    sample; peer 0 reconnects and its next handshake is under way. *)
Definition second_handshake : list input :=
  suspended ++
  [ Worker (env_done 150);      (* SSL_connect returns 1 *)
    Driver 0 0;                 (* driver: not the end of work *)
    Driver 1000 1 ] ++          (* statistics_update takes the window *)
  reconnect.

(** Two handshakes complete in the first second and none in the next;
    then a signal ends the run and the report is printed. *)
Definition uneven : list input :=
  suspended ++
  [ Worker (env_done 100) ] ++  (* SSL_connect returns 1 after 100 us *)
  reconnect ++
  [ Worker (env_done 120);      (* SSL_connect returns 1 after 120 us *)
    Driver 0 0;                 (* driver: not the end of work *)
    Driver 1000 1;              (* statistics_update records 2 h/s *)
    Driver 0 0;                 (* driver: not the end of work *)
    Driver 1000 2;              (* statistics_update records 0 h/s *)
    Signal;                     (* SIGINT *)
    Worker env_idle;            (* no more events: swap the backlog *)
    Worker env_idle;            (* finish is set: leave the backlog *)
    Worker env_idle;            (* top: end of work, the thread returns *)
    Driver 0 0;                 (* driver: end of work *)
    Driver 0 0 ].               (* join, then statistics_dump *)

(** With a target of twelve peers: the first ten are created, the
    handshake of peer 0 is suspended and resumed. *)
Definition ramp : list input :=
  Worker env_idle ::            (* top: not the end of work *)
  replicate 10 (Worker env_idle) ++   (* create peers 0 to 9 *)
  [ Worker (env_ready [0]);     (* budget spent: wait, peer 0 is ready *)
    Worker env_idle;            (* TCP established, SSL_connect wants read *)
    Worker env_idle;            (* no more events: swap the backlog *)
    Worker env_idle;            (* backlog empty *)
    Worker env_idle;            (* top *)
    Worker (env_ready [0]) ].   (* wait, peer 0 is ready *)

(** A target below zero, as [-l -1] sets it. *)
Definition g_negative : options :=
  {| n_peers := -1; n_threads := 1; n_hs := 2 ^ 64 - 1; timeout := 0 |}.

(** With a target of twelve peers: the first ten are created, three of
    them are reported ready together, and two of these complete their
    handshake at once. *)
Definition burst : list input :=
  Worker env_idle ::            (* top: not the end of work *)
  replicate 10 (Worker env_idle) ++   (* create peers 0 to 9 *)
  [ Worker (env_ready [0; 1; 2]);     (* budget spent: wait, three are ready *)
    Worker (env_done 90);       (* peer 2: SSL_connect returns 1 *)
    Worker (env_done 80) ].     (* peer 1: SSL_connect returns 1 *)

(** Peer 0 in the middle of a handshake, and the shared block as the
    run [suspended] leaves it and as it is one completed handshake
    later. *)
Definition peer_in_handshake : Peer.t :=
  {| Peer.id_ := 0; Peer.sd := 3; Peer.tls_ := Some 1;
     Peer.state_ := Peer.STATE_TLS_HANDSHAKING; Peer.polled_ := true |}.

Definition world_in_handshake : world :=
  set_stat (upd_tls_handshakes incr32)
    (set_stat (upd_tcp_connections incr32) world0).

Definition world_after_handshake : world :=
  set_stat (upd_tls_connections incr32) world_in_handshake.

(** The driver has recorded [n] seconds without a handshake. *)
Definition world_recorded (n : nat) : world :=
  Nat.iter n (statistics_update 1000) (set_start_stats true world0).

(** ** The command line

    [do_getopt], [parse_ipv4], [parse_ipv6], [usage] and [print_settings],
    with the whole of [g_opt]. *)

Definition DEFAULT_THREADS : Z := 1.
Definition DEFAULT_PEERS : Z := 1.
Definition DEFAULT_CIPHER_12 : string := "ECDHE-ECDSA-AES128-GCM-SHA256".
Definition DEFAULT_CIPHER_13 : string := "TLS_AES_256_GCM_SHA384".

(** Values of the system headers (Linux, OpenSSL). *)
Definition EINVAL : Z := 22.
Definition AF_INET : Z := 2.
Definition AF_INET6 : Z := 10.
Definition ULONG_MAX : Z := 2 ^ 64 - 1.
Definition TLS1_2_VERSION : Z := 771.       (* 0x0303 *)
Definition TLS1_3_VERSION : Z := 772.       (* 0x0304 *)
Definition TLS_ANY_VERSION : Z := 65536.    (* 0x10000 *)
Definition SSL_OP_NO_TICKET : Z := 16384.   (* 1 << 14 *)

(** [struct sockaddr_in6], which [parse_ipv4] also uses as a
    [struct sockaddr_in]: the family and the port are at the same place in
    both, the IPv4 address lies in front of the IPv6 address. *)
Record sockaddr_in6 := {
  sin6_family : Z;          (* sa_family_t *)
  sin6_port : Z;            (* in_port_t, in network byte order *)
  sin_addr : list Z;        (* the four bytes of [sockaddr_in::sin_addr] *)
  sin6_addr : list Z        (* the sixteen bytes of [sin6_addr] *)
}.

(** [memset(&g_opt.ip, 0, sizeof(g_opt.ip))]. *)
Definition ip_zero : sockaddr_in6 :=
  {| sin6_family := 0; sin6_port := 0;
     sin_addr := replicate 4 0; sin6_addr := replicate 16 0 |}.

(** [g_opt]: the four fields that the threads read are [opts]. *)
Record g_opt_t := {
  opts : options;
  debug : bool;
  tls_vers : Z;             (* int *)
  use_tickets : Z;          (* int *)
  cipher : option string;   (* const char *, None for NULL *)
  ip : sockaddr_in6
}.

(** Static storage is zero-initialised. *)
Definition g_opt0 : g_opt_t :=
  {| opts := {| n_peers := 0; n_threads := 0; n_hs := 0; timeout := 0 |};
     debug := false; tls_vers := 0; use_tickets := 0; cipher := None;
     ip := ip_zero |}.

Definition set_n_peers (x : Z) (g : g_opt_t) : g_opt_t :=
  {| opts := {| n_peers := x; n_threads := n_threads (opts g);
                n_hs := n_hs (opts g); timeout := timeout (opts g) |};
     debug := debug g; tls_vers := tls_vers g; use_tickets := use_tickets g;
     cipher := cipher g; ip := ip g |}.

Definition set_n_threads (x : Z) (g : g_opt_t) : g_opt_t :=
  {| opts := {| n_peers := n_peers (opts g); n_threads := x;
                n_hs := n_hs (opts g); timeout := timeout (opts g) |};
     debug := debug g; tls_vers := tls_vers g; use_tickets := use_tickets g;
     cipher := cipher g; ip := ip g |}.

Definition set_n_hs (x : Z) (g : g_opt_t) : g_opt_t :=
  {| opts := {| n_peers := n_peers (opts g); n_threads := n_threads (opts g);
                n_hs := x; timeout := timeout (opts g) |};
     debug := debug g; tls_vers := tls_vers g; use_tickets := use_tickets g;
     cipher := cipher g; ip := ip g |}.

Definition set_timeout (x : Z) (g : g_opt_t) : g_opt_t :=
  {| opts := {| n_peers := n_peers (opts g); n_threads := n_threads (opts g);
                n_hs := n_hs (opts g); timeout := x |};
     debug := debug g; tls_vers := tls_vers g; use_tickets := use_tickets g;
     cipher := cipher g; ip := ip g |}.

Definition set_debug (x : bool) (g : g_opt_t) : g_opt_t :=
  {| opts := opts g; debug := x; tls_vers := tls_vers g;
     use_tickets := use_tickets g; cipher := cipher g; ip := ip g |}.

Definition set_tls_vers (x : Z) (g : g_opt_t) : g_opt_t :=
  {| opts := opts g; debug := debug g; tls_vers := x;
     use_tickets := use_tickets g; cipher := cipher g; ip := ip g |}.

Definition set_use_tickets (x : Z) (g : g_opt_t) : g_opt_t :=
  {| opts := opts g; debug := debug g; tls_vers := tls_vers g;
     use_tickets := x; cipher := cipher g; ip := ip g |}.

Definition set_cipher (x : option string) (g : g_opt_t) : g_opt_t :=
  {| opts := opts g; debug := debug g; tls_vers := tls_vers g;
     use_tickets := use_tickets g; cipher := x; ip := ip g |}.

Definition set_ip (x : sockaddr_in6) (g : g_opt_t) : g_opt_t :=
  {| opts := opts g; debug := debug g; tls_vers := tls_vers g;
     use_tickets := use_tickets g; cipher := cipher g; ip := x |}.

(** What the C library answers: [atoi], [inet_pton] (the address bytes
    when it returns 1), [inet_ntop], and the byte order of the host. *)
Record libc := {
  atoi : string -> Z;
  inet_pton : Z -> string -> option (list Z);
  inet_ntop : Z -> list Z -> string;
  little_endian : bool
}.

(** [htons] and [ntohs] on a value converted to [uint16_t]. *)
Definition htons (lc : libc) (x : Z) : Z :=
  let x := x mod 2 ^ 16 in
  if little_endian lc then (x mod 256) * 256 + x / 256 else x.

Definition ntohs (lc : libc) (x : Z) : Z := htons lc x.

(** A function that returns, leaves the process through [exit(code)]
    with what it has printed, or runs into undefined behaviour. *)
Inductive ended (A : Type) :=
| Normal (a : A)
| Exit (code : Z) (o : list msg)
| Undefined.
Arguments Normal {A} a.
Arguments Exit {A} code o.
Arguments Undefined {A}.

Global Instance ended_ret : MRet ended := fun A a => Normal a.
Global Instance ended_bind : MBind ended := fun A B k r =>
  match r with
  | Normal a => k a
  | Exit code o => Exit code o
  | Undefined => Undefined
  end.

(** [usage()]: prints the help and calls [exit(0)]. *)
Definition usage_text : list msg :=
  [ Cout "./tls-perf [options] <ip> <port>" [];
    Cout "  -h,--help         Print this help and exit" [];
    Cout "  -d,--debug        Run in debug mode" [];
    Cout "  -l <N>            Limit parallel connections for each thread (default: )"
         [DEFAULT_PEERS];
    Cout "  -n <N>            Total number of handshakes to establish" [];
    Cout "  -t <N>            Number of threads (default: )." [DEFAULT_THREADS];
    Cout "  -T,--to           Duration of the test (in seconds)" [];
    Cout ("  -c <cipher>       Force cipher choice (default for TLSv1.2: "
          ++ DEFAULT_CIPHER_12 ++ ", for TLSv1.3: " ++ DEFAULT_CIPHER_13
          ++ "), or type 'any' to disable ciphersuite restrictions") [];
    Cout "  --tls <version>   Set TLS version for handshake: '1.2', '1.3' or 'any' for both (default: '1.2')" [];
    Cout "  --use-tickets     Enable TLS Session tickets, (default: disabled)" [];
    Cout "127.0.0.1:443 address is used by default." [];
    Cout "To list available ciphers run command:" [];
    Cout "$ nmap --script ssl-enum-ciphers -p <PORT> <IP>" [] ].

Definition usage {A} (o : list msg) : ended A :=
  Exit 0 (o ++ usage_text).

(** [parse_ipv4] and [parse_ipv6]: the return value and [g_opt.ip]. *)
Definition parse_ipv4 (lc : libc) (addr port : string) : Z * sockaddr_in6 :=
  match inet_pton lc AF_INET addr with
  | None => (- EINVAL, ip_zero)
  | Some a =>
      (0, {| sin6_family := AF_INET; sin6_port := htons lc (atoi lc port);
             sin_addr := a; sin6_addr := sin6_addr ip_zero |})
  end.

Definition parse_ipv6 (lc : libc) (addr port : string) : Z * sockaddr_in6 :=
  match inet_pton lc AF_INET6 addr with
  | None => (- EINVAL, ip_zero)
  | Some a =>
      (0, {| sin6_family := AF_INET6; sin6_port := htons lc (atoi lc port);
             sin_addr := sin_addr ip_zero; sin6_addr := a |})
  end.

(** One answer of [getopt_long]: its return value and [optarg]. *)
Record getopt_answer := {
  ga_c : Z;
  ga_optarg : option string
}.

(** The table [long_opts]; [lo_flag] tells whether [flag] is
    [&g_opt.use_tickets] (the only flag of the table) or [NULL]. *)
Inductive has_arg_t := no_argument | required_argument.

Record long_option := {
  lo_name : string;
  lo_has_arg : has_arg_t;
  lo_flag : bool;
  lo_val : Z
}.

Definition chr (c : string) : Z :=
  match c with
  | String a _ => Z.of_nat (Ascii.nat_of_ascii a)
  | EmptyString => 0
  end.

Definition long_opts : list long_option :=
  [ {| lo_name := "help"; lo_has_arg := no_argument;
       lo_flag := false; lo_val := chr "h" |};
    {| lo_name := "debug"; lo_has_arg := no_argument;
       lo_flag := false; lo_val := chr "d" |};
    {| lo_name := "to"; lo_has_arg := no_argument;
       lo_flag := false; lo_val := chr "T" |};
    {| lo_name := "tls"; lo_has_arg := required_argument;
       lo_flag := false; lo_val := chr "V" |};
    {| lo_name := "use-tickets"; lo_has_arg := no_argument;
       lo_flag := true; lo_val := 1 |} ].

(** What [getopt_long] answers when it has matched the long option [o]
    with the argument [arg]: 0 after storing [val] through a flag, else
    [val]; [optarg] is [NULL] for an option declared [no_argument]. *)
Definition long_answer (o : long_option) (arg : string) : getopt_answer :=
  {| ga_c := if lo_flag o then 0 else lo_val o;
     ga_optarg := match lo_has_arg o with
                  | no_argument => None
                  | required_argument => Some arg
                  end |}.

(** The state of the loop of [do_getopt]. *)
Record getopt_st := {
  gs_opt : g_opt_t;
  gs_defaut_cipher : bool;
  gs_out : list msg
}.

Definition with_opt (f : g_opt_t -> g_opt_t) (st : getopt_st) : getopt_st :=
  {| gs_opt := f (gs_opt st); gs_defaut_cipher := gs_defaut_cipher st;
     gs_out := gs_out st |}.

(** A use of [optarg] by [strcmp], [strncmp] or [atoi]: undefined when it
    is [NULL]. *)
Definition with_optarg {A} (a : getopt_answer) (k : string -> ended A)
  : ended A :=
  match ga_optarg a with
  | Some s => k s
  | None => Undefined
  end.

(** The body of the [switch].  [getopt_long] returns 0 only for the long
    option with a flag, after it has stored [true] in
    [g_opt.use_tickets]. *)
Definition getopt_case (lc : libc) (a : getopt_answer) (st : getopt_st)
  : ended getopt_st :=
  let c := ga_c a in
  if c =? 0 then
    Normal (with_opt (set_use_tickets 1) st)
  else if c =? chr "c" then
    with_optarg a (fun optarg =>
      let st := if negb (String.eqb optarg "any")
                then with_opt (set_cipher (Some optarg)) st else st in
      Normal {| gs_opt := gs_opt st; gs_defaut_cipher := false;
                gs_out := gs_out st |})
  else if c =? chr "d" then
    Normal (with_opt (set_debug true) st)
  else if c =? chr "l" then
    with_optarg a (fun optarg =>
      Normal (with_opt (set_n_peers (i32 (atoi lc optarg))) st))
  else if c =? chr "t" then
    with_optarg a (fun optarg =>
      let st := with_opt (set_n_threads (i32 (atoi lc optarg))) st in
      if 512 <? n_threads (opts (gs_opt st)) then
        Exit 2 (gs_out st ++ [Cerr "ERROR: too many threads requested" []])
      else Normal st)
  else if c =? chr "n" then
    with_optarg a (fun optarg =>
      Normal (with_opt (set_n_hs (u64 (i32 (atoi lc optarg)))) st))
  else if c =? chr "T" then
    with_optarg a (fun optarg =>
      Normal (with_opt (set_timeout (i32 (atoi lc optarg))) st))
  else if c =? chr "V" then
    with_optarg a (fun optarg =>
      if String.eqb optarg "1.2" then
        Normal (with_opt (set_tls_vers TLS1_2_VERSION) st)
      else if String.eqb optarg "1.3" then
        Normal (with_opt (set_tls_vers TLS1_3_VERSION) st)
      else if String.eqb optarg "any" then
        Normal (with_opt (set_tls_vers TLS_ANY_VERSION) st)
      else
        Normal {| gs_opt := set_tls_vers TLS1_2_VERSION (gs_opt st);
                  gs_defaut_cipher := gs_defaut_cipher st;
                  gs_out := gs_out st
                            ++ [Cout "Unknown TLS version, fallback to 1.2" []] |})
  else
    (* case 'h': default: *)
    usage (gs_out st).

(** The [while] over the answers of [getopt_long] until it returns -1. *)
Fixpoint getopt_loop (lc : libc) (answers : list getopt_answer)
  (st : getopt_st) : ended getopt_st :=
  match answers with
  | [] => Normal st
  | a :: rest => st' ← getopt_case lc a st; getopt_loop lc rest st'
  end.

(** The command line as [getopt_long] presents it: its answers, in
    order, and the arguments from [argv[optind]] on that are left when it
    has returned -1. *)
Record cmdline := {
  answers : list getopt_answer;
  operands : list string
}.

(** The assignments at the top of [do_getopt]; [g_opt.ip] is not
    assigned there. *)
Definition getopt_init (g : g_opt_t) : getopt_st :=
  {| gs_opt :=
       {| opts := {| n_peers := DEFAULT_PEERS; n_threads := DEFAULT_THREADS;
                     n_hs := ULONG_MAX; timeout := 0 |};
          debug := false; tls_vers := TLS1_2_VERSION; use_tickets := 0;
          cipher := None; ip := ip g |};
     gs_defaut_cipher := true; gs_out := [] |}.

(** [do_getopt]: the return value, [g_opt] and the output. *)
Definition do_getopt (lc : libc) (cl : cmdline)
  : ended (Z * g_opt_t * list msg) :=
  st ← getopt_loop lc (answers cl) (getopt_init g_opt0);
  let g := gs_opt st in
  let g :=
    if gs_defaut_cipher st then
      if tls_vers g =? TLS1_3_VERSION
      then set_cipher (Some DEFAULT_CIPHER_13) g
      else set_cipher (Some DEFAULT_CIPHER_12) g
    else g in
  let o := gs_out st in
  match operands cl with
  | [] =>
      Normal (0, set_ip (snd (parse_ipv4 lc "127.0.0.1" "443")) g, o)
  | [addr_str; port_str] =>
      let '(r4, ip4) := parse_ipv4 lc addr_str port_str in
      if negb (r4 =? 0) then
        let '(r6, ip6) := parse_ipv6 lc addr_str port_str in
        if negb (r6 =? 0) then
          Normal (- EINVAL, set_ip ip6 g,
                  o ++ [Cerr ("ERROR: can't parse ip address from string '"
                              ++ addr_str ++ "'") []])
        else Normal (0, set_ip ip6 g, o)
      else Normal (0, set_ip ip4 g, o)
  | _ =>
      usage (o ++ [Cerr "ERROR: either 0 or 2 arguments are allowed: none for defaults or address and port." []])
  end.

(** [print_settings()].  Streaming [g_opt.cipher] when it is [NULL] is
    undefined. *)
Definition print_settings (lc : libc) (g : g_opt_t) : ended (list msg) :=
  let addr := if sin6_family (ip g) =? AF_INET
              then sin_addr (ip g) else sin6_addr (ip g) in
  let str := inet_ntop lc (sin6_family (ip g)) addr in
  let vers : string :=
    if tls_vers g =? TLS1_2_VERSION then "1.2"%string
    else if tls_vers g =? TLS1_3_VERSION then "1.2"%string
    else "Any of 1.2 or 1.3"%string in
  match cipher g with
  | None => Undefined
  | Some c =>
      Normal
        [ Cout "Running TLS benchmark with following settings:" [];
          Cout ("Host:        " ++ str ++ " : ") [ntohs lc (sin6_port (ip g))];
          Cout ("TLS version: " ++ vers) [];
          Cout ("Cipher:      " ++ c) [];
          Cout ("TLS tickets: "
                ++ (if use_tickets g =? 0 then "off" else "on")) [];
          Cout "Duration:    " [timeout (opts g)] ]
  end.

(** [main] up to the start of the threads: [do_getopt] (a non-zero
    result is returned, which ends the process with it),
    [print_settings], [update_limits].  [rlim_cur] and [setrlimit_ret] are
    what [getrlimit] and [setrlimit] answer. *)
Definition main_start (lc : libc) (cl : cmdline) (rlim_cur setrlimit_ret : Z)
  : ended (g_opt_t * list msg) :=
  '(r, g, o) ← do_getopt lc cl;
  if negb (r =? 0) then Exit r o
  else
    o2 ← print_settings lc g;
    match update_limits (opts g) rlim_cur setrlimit_ret with
    | (Returns opts', o3) =>
        Normal ({| opts := opts'; debug := debug g; tls_vers := tls_vers g;
                   use_tickets := use_tickets g; cipher := cipher g;
                   ip := ip g |}, o ++ o2 ++ o3)
    | (Exits code, o3) => Exit code (o ++ o2 ++ o3)
    end.

(** ** The constructor of [IO]

    The calls by which the constructor configures its [SSL_CTX], in
    order.  [SSL_CTX_new] is taken to succeed: the source does not test
    its result. *)

Inductive ssl_ctx_call :=
| SSL_CTX_set_min_proto_version (v : Z)
| SSL_CTX_set_max_proto_version (v : Z)
| SSL_CTX_set_options (o : Z)
| SSL_CTX_set_ciphersuites (s : string)
| SSL_CTX_set_cipher_list (s : string).

Definition IO_configure (g : g_opt_t) : list ssl_ctx_call :=
  (if negb (tls_vers g =? TLS_ANY_VERSION) then
     [SSL_CTX_set_min_proto_version (tls_vers g);
      SSL_CTX_set_max_proto_version (tls_vers g)]
   else
     [SSL_CTX_set_min_proto_version TLS1_2_VERSION;
      SSL_CTX_set_max_proto_version TLS1_3_VERSION]) ++
  (* Session resumption. *)
  (if use_tickets g =? 0 then [SSL_CTX_set_options SSL_OP_NO_TICKET]
   else []) ++
  match cipher g with
  | Some c =>
      if tls_vers g =? TLS1_3_VERSION then [SSL_CTX_set_ciphersuites c]
      else if tls_vers g =? TLS1_2_VERSION then [SSL_CTX_set_cipher_list c]
      else []
  | None => []
  end.

(** ** Definitions used to state the properties of the command line *)

(** The arguments of the [-c] options, in order, and those of them that
    name a cipher. *)
Definition cipher_args (l : list getopt_answer) : list string :=
  omap (fun a => if ga_c a =? chr "c" then ga_optarg a else None) l.

Definition named_ciphers (cs : list string) : list string :=
  List.filter (fun s => negb (String.eqb s "any")) cs.

(** The calls that restrict the ciphers. *)
Definition restricts_ciphers (c : ssl_ctx_call) : bool :=
  match c with
  | SSL_CTX_set_ciphersuites _ | SSL_CTX_set_cipher_list _ => true
  | _ => false
  end.

(** An example C library: [atoi] on an optional sign and decimal digits,
    the loopback addresses, a little-endian host. *)
Fixpoint atoi_digits (s : string) (acc : Z) : Z :=
  match s with
  | String c rest =>
      let d := Z.of_nat (Ascii.nat_of_ascii c) - 48 in
      if (0 <=? d) && (d <=? 9) then atoi_digits rest (10 * acc + d) else acc
  | EmptyString => acc
  end.

Definition atoi_dec (s : string) : Z :=
  match s with
  | String c rest =>
      if Nat.eqb (Ascii.nat_of_ascii c) 45 then - atoi_digits rest 0
      else if Nat.eqb (Ascii.nat_of_ascii c) 43 then atoi_digits rest 0
      else atoi_digits s 0
  | EmptyString => 0
  end.

Definition libc_example : libc :=
  {| atoi := atoi_dec;
     inet_pton := fun af s =>
       if (af =? AF_INET) && String.eqb s "127.0.0.1" then Some [127; 0; 0; 1]
       else if (af =? AF_INET6) && String.eqb s "::1"
            then Some (replicate 15 0 ++ [1])
       else None;
     inet_ntop := fun af a =>
       if af =? AF_INET then "127.0.0.1"%string else "::1"%string;
     little_endian := true |}.

(** [-c], [-t] and [--tls] with an argument, as [getopt_long] answers
    them. *)
Definition short_answer (c arg : string) : getopt_answer :=
  {| ga_c := chr c; ga_optarg := Some arg |}.

(** ** Definitions used to state the properties of the threads *)

(** The loop [while (auto p = io.next_sk())] of [io_loop], seen from the
    poller: call [next_sk] until it answers [NULL], at most [n] times. *)
Fixpoint serve (n : nat) (io : IO.t) : list Z * IO.t :=
  match n with
  | O => ([], io)
  | S n' =>
      match IO.next_sk io with
      | (None, io') => ([], io')
      | (Some sh, io') =>
          let '(rest, io'') := serve n' io' in (sh :: rest, io'')
      end
  end.

(** The readings that [update] accepts. *)
Definition accepted (dts : list Z) : list Z :=
  List.filter (fun dt => negb (dt =? 0)) dts.

(** Whether a peer is in a TCP handshake, or in a TLS handshake. *)
Definition connecting (p : Peer.t) : Z :=
  match Peer.state_ p with
  | Peer.STATE_TCP_CONNECTING => 1
  | _ => 0
  end.

Definition handshaking (p : Peer.t) : Z :=
  match Peer.state_ p with
  | Peer.STATE_TLS_HANDSHAKING => 1
  | _ => 0
  end.

(** The socket and the session of a peer, by its state. *)
Definition peer_ok (p : Peer.t) : Prop :=
  match Peer.state_ p with
  | Peer.STATE_TCP_CONNECT => Peer.sd p < 0 /\ Peer.tls_ p = None
  | Peer.STATE_TCP_CONNECTING => 0 <= Peer.sd p /\ Peer.tls_ p = None
  | Peer.STATE_TLS_HANDSHAKING => 0 <= Peer.sd p /\ Peer.tls_ p <> None
  end.

(** The three connection counters of [stat] are inside [int32_t] with
    room for one step up or down. *)
Definition counters_safe (s : stat_t) : Prop :=
  - 2 ^ 31 < tcp_handshakes s < 2 ^ 31 - 1 /\
  - 2 ^ 31 < tcp_connections s < 2 ^ 31 - 1 /\
  - 2 ^ 31 < tls_handshakes s < 2 ^ 31 - 1.

(** The peers of a worker that has not returned: [all_peers] holds the
    [active_peers] peers created so far, the peer [k] at position [k];
    the counters count the peers by state; the handlers in the two queues
    are peers. *)
Definition peers_inv (m : machine) : Prop :=
  let s := stat (wld m) in
  tcp_connections s = tls_handshakes s /\
  (w_pc m <> AtDone ->
   Z.of_nat (length (all_peers m)) = active_peers m /\
   (forall k p, all_peers m !! k = Some p ->
                Peer.id_ p = Z.of_nat k /\ peer_ok p) /\
   tcp_handshakes s = zsum (map connecting (all_peers m)) /\
   tls_handshakes s = zsum (map handshaking (all_peers m)) /\
   Forall (fun sh => 0 <= sh < active_peers m)
          (IO.reconnect_q_ (io (wld m)) ++ IO.backlog_ (io (wld m)))).

(** What the loop keeps of the options: the number of threads is at most
    512, the TLS version is one of the three constants, the ticket flag
    is 0 or 1. *)
Definition getopt_inv (st : getopt_st) : Prop :=
  n_threads (opts (gs_opt st)) <= 512 /\
  (tls_vers (gs_opt st) = TLS1_2_VERSION \/
   tls_vers (gs_opt st) = TLS1_3_VERSION \/
   tls_vers (gs_opt st) = TLS_ANY_VERSION) /\
  (use_tickets (gs_opt st) = 0 \/ use_tickets (gs_opt st) = 1).

(** The ring while it fills for the first time: the cursor is the number
    of readings stored, the stride is 1. *)
Definition filling (pre : list Z) : LatencyStat.t :=
  {| LatencyStat.i_ := Z.of_nat (length pre); LatencyStat.di_ := 1;
     LatencyStat.stat_ :=
       pre ++ replicate (Z.to_nat LATENCY_N - length pre) 0 |}.

(** The worker has returned only at the end of the work, its peers
    deleted, and the report is printed only after that. *)
Definition work_inv (g : options) (m : machine) : Prop :=
  (w_pc m = AtDone -> end_of_work g (wld m) = true /\ all_peers m = []) /\
  (final m <> None -> d_pc m = DDone /\ w_pc m = AtDone) /\
  (d_pc m = DDone -> final m <> None).


(** [mx] is the largest of the samples [h] and of 0; [mn] is the least
    of the samples that are not zero, or 0 when there is none. *)
Definition extremes (h : list Z) (mx mn : Z) : Prop :=
  0 <= mx /\ Forall (fun v => v <= mx) h /\ (mx = 0 \/ mx ∈ h) /\
  Forall (fun v => v = 0 \/ mn <= v) h /\
  (mn = 0 -> Forall (fun v => v = 0) h) /\ (mn <> 0 -> mn ∈ h).

(** The figures of a history that has not reached its cap, and the
    figures of the report once it is printed. *)
Definition figures_inv (m : machine) : Prop :=
  let s := stat (wld m) in
  ((length (hs_history s) <= 3600)%nat ->
   measures s = Z.of_nat (length (hs_history s)) /\
   extremes (hs_history s) (max_hs s) (min_hs s)) /\
  (forall r, final m = Some (Printed r) ->
   r_seconds r = measures s /\ r_handshakes r = tot_tls_handshakes s /\
   r_max_hs r = max_hs s /\ r_min_hs r = min_hs s).

(** ** Theorems *)

Section MachineIntegers.

Lemma u32_small x : 0 <= x < 2 ^ 32 -> u32 x = x.
Proof. intros H. unfold u32, wrap_u. apply Z.mod_small. lia. Qed.

Lemma u64_small x : 0 <= x < 2 ^ 64 -> u64 x = x.
Proof. intros H. unfold u64, wrap_u. apply Z.mod_small. lia. Qed.

Lemma i32_small x : - 2 ^ 31 <= x < 2 ^ 31 -> i32 x = x.
Proof.
  intros H. unfold i32, wrap_s.
  replace (32 - 1) with 31 by lia.
  rewrite Z.mod_small; lia.
Qed.

End MachineIntegers.

(** ** The latency sampler *)

Section LatencySampler.

Import LatencyStat.

Lemma init_inv : sampler_inv init.
Proof.
  unfold sampler_inv, init, LATENCY_N; cbn [di_ i_ stat_].
  change (1024 / 4) with 256. rewrite length_replicate. lia.
Qed.

Lemma update_zero s : update s 0 = (s, [Dbg "Bad zero latency" []]).
Proof. reflexivity. Qed.

(** An accepted update, with the wrap-arounds of the cursor arithmetic
    discharged by the invariant. *)
Lemma update_accept s dt :
  sampler_inv s -> dt <> 0 ->
  fst (update s dt) =
    if LATENCY_N <=? i_ s + di_ s then
      {| i_ := 0;
         di_ := if LATENCY_N / 4 <? di_ s + 1 then 1 else di_ s + 1;
         stat_ := <[Z.to_nat (i_ s) := dt]> (stat_ s) |}
    else
      {| i_ := i_ s + di_ s; di_ := di_ s;
         stat_ := <[Z.to_nat (i_ s) := dt]> (stat_ s) |}.
Proof.
  intros (Hd & Hi & _) Hdt. unfold update, LATENCY_N in *.
  change (1024 / 4) with 256 in *.
  destruct (Z.eqb_spec dt 0) as [|_]; [contradiction|].
  rewrite !u32_small by lia.
  destruct (1024 <=? i_ s + di_ s); reflexivity.
Qed.

Lemma update_inv s dt : sampler_inv s -> sampler_inv (fst (update s dt)).
Proof.
  intros Hs. destruct (Z.eq_dec dt 0) as [->|Hdt]; [exact Hs|].
  rewrite (update_accept s dt Hs Hdt).
  destruct Hs as (Hd & Hi & Hl). unfold sampler_inv, LATENCY_N in *.
  change (1024 / 4) with 256 in *.
  destruct (Z.leb_spec 1024 (i_ s + di_ s)); simpl;
    [destruct (Z.ltb_spec 256 (di_ s + 1))|];
    rewrite length_insert; lia.
Qed.

Lemma updates_inv dts : forall s, sampler_inv s -> sampler_inv (updates s dts).
Proof.
  induction dts as [|dt dts IH]; intros s Hs; [exact Hs|].
  apply IH, update_inv, Hs.
Qed.

(** [update] never turns a slot into a zero slot. *)
Lemma update_zero_slot s dt k :
  stat_ (fst (update s dt)) !! k = Some 0 -> stat_ s !! k = Some 0.
Proof.
  unfold update. destruct (Z.eqb_spec dt 0) as [|Hdt]; [auto|].
  assert (<[Z.to_nat (i_ s) := dt]> (stat_ s) !! k = Some 0 ->
          stat_ s !! k = Some 0) as Hins.
  { destruct (decide (Z.to_nat (i_ s) = k)) as [<-|Hne].
    - intros H. apply list_lookup_insert_Some in H.
      destruct H as [(_ & ? & _)|(? & _)]; congruence.
    - by rewrite list_lookup_insert_ne. }
  destruct (LATENCY_N <=? u32 (i_ s + di_ s)); simpl; exact Hins.
Qed.

Lemma updates_zero_slot dts : forall s k,
  stat_ (updates s dts) !! k = Some 0 -> stat_ s !! k = Some 0.
Proof.
  induction dts as [|dt dts IH]; intros s k H; [exact H|].
  eapply update_zero_slot, IH, H.
Qed.

Lemma dump_loop_spec slots : forall g,
  dump_loop slots g =
    {| ls_stat := ls_stat g ++ nonzero_prefix slots;
       acc_lat := fold_left (fun a l => u64 (a + l))
                            (nonzero_prefix slots) (acc_lat g) |}.
Proof.
  induction slots as [|l rest IH]; intros [st acc]; simpl.
  - by rewrite app_nil_r.
  - destruct (Z.eqb_spec l 0) as [|Hl]; simpl.
    + by rewrite app_nil_r.
    + rewrite IH; simpl. by rewrite <- app_assoc.
Qed.

(** The wrapped additions amount to one addition of the sum, modulo the
    width of [unsigned long]. *)
Lemma fold_u64_sum l : forall a,
  0 <= a < 2 ^ 64 ->
  fold_left (fun a l => u64 (a + l)) l a = u64 (a + zsum l).
Proof.
  induction l as [|x l IH]; intros a Ha; simpl.
  - rewrite Z.add_0_r. symmetry. by apply u64_small.
  - rewrite IH.
    + unfold u64, wrap_u. rewrite Zplus_mod_idemp_l. f_equal. lia.
    + unfold u64, wrap_u. apply Z.mod_pos_bound. lia.
Qed.

Lemma nonzero_prefix_spec slots :
  exists rest,
    slots = nonzero_prefix slots ++ rest /\
    Forall (fun l => l <> 0) (nonzero_prefix slots) /\
    (rest = [] \/ head rest = Some 0).
Proof.
  induction slots as [|l slots (rest & Heq & Hnz & Hrest)]; simpl.
  - exists []. auto.
  - destruct (Z.eqb_spec l 0) as [->|Hl].
    + exists (0 :: slots). auto.
    + exists rest. split; [simpl; congruence|]. split; [|exact Hrest].
      constructor; assumption.
Qed.

(** C8.  Starting from the initial sampler ([i_ = 0], [di_ = 1]), after
    every sequence of [update] calls the stride satisfies
    [1 <= di_ <= LATENCY_N / 4] (and the cursor stays inside the ring);
    an accepted update then writes its reading at index [i_], advances
    [i_] by [di_], and when [i_] would reach [LATENCY_N] it sets [i_] to 0
    and increments [di_], which restarts at 1 once it exceeds
    [LATENCY_N / 4]. *)
Theorem sampler_stride_invariant (dts : list Z) :
  let s := updates init dts in
  (1 <= di_ s <= LATENCY_N / 4) /\
  (0 <= i_ s < LATENCY_N) /\
  forall dt, dt <> 0 ->
    let s' := fst (update s dt) in
    stat_ s' = <[Z.to_nat (i_ s) := dt]> (stat_ s) /\
    stat_ s' !! Z.to_nat (i_ s) = Some dt /\
    if LATENCY_N <=? i_ s + di_ s
    then i_ s' = 0 /\
         di_ s' = (if LATENCY_N / 4 <? di_ s + 1 then 1 else di_ s + 1)
    else i_ s' = i_ s + di_ s /\ di_ s' = di_ s.
Proof.
  pose proof (updates_inv dts init init_inv) as Hinv.
  cbv zeta. split; [apply Hinv|]. split; [apply Hinv|].
  intros dt Hdt. rewrite (update_accept _ dt Hinv Hdt).
  destruct Hinv as (_ & Hi & Hlen).
  destruct (LATENCY_N <=? i_ (updates init dts) + di_ (updates init dts));
    cbn [i_ di_ stat_];
    (split; [reflexivity|]; split; [|split; reflexivity]);
    apply list_lookup_insert_eq; lia.
Qed.

Lemma sampler_stride_invariant_witness :
  7 <> 0 /\
  di_ (updates init [5; 0; 9]) = 1 /\
  i_ (fst (update (updates init [5; 0; 9]) 7)) = 3 /\
  stat_ (fst (update (updates init [5; 0; 9]) 7)) !! 2%nat = Some 7.
Proof.
  destruct (sampler_stride_invariant [5; 0; 9]) as (_ & _ & H).
  destruct (H 7 ltac:(discriminate)) as (_ & Hw & Hi).
  split; [discriminate|]. split; [reflexivity|].
  split; [apply Hi | exact Hw].
Defined.

(** C9.  [update] called with a zero duration leaves the ring and both
    cursors unchanged and only logs; no sequence of updates turns a slot
    into a zero slot, so a slot that reads zero was zero from the start;
    [dump] appends to the global store exactly the slots before the first
    zero slot of the ring, scanning from index 0, and adds each appended
    value into [acc_lat]. *)
Theorem sampler_rejects_zero_and_dump
    (s : LatencyStat.t) (g : lat_store) (dts : list Z) (k : nat) :
  update s 0 = (s, [Dbg "Bad zero latency" []]) /\
  (stat_ (updates s dts) !! k = Some 0 -> stat_ s !! k = Some 0) /\
  ls_stat (dump s g) = ls_stat g ++ nonzero_prefix (stat_ s) /\
  acc_lat (dump s g) =
    fold_left (fun a l => u64 (a + l)) (nonzero_prefix (stat_ s)) (acc_lat g) /\
  exists rest,
    stat_ s = nonzero_prefix (stat_ s) ++ rest /\
    Forall (fun l => l <> 0) (nonzero_prefix (stat_ s)) /\
    (rest = [] \/ head rest = Some 0).
Proof.
  split; [apply update_zero|].
  split; [apply updates_zero_slot|].
  unfold dump. rewrite dump_loop_spec. cbn [ls_stat acc_lat].
  split; [reflexivity|]. split; [reflexivity|].
  apply nonzero_prefix_spec.
Qed.

Lemma sampler_rejects_zero_and_dump_witness :
  stat_ (updates init [0; 5; 0; 8]) !! 2%nat = Some 0 /\
  stat_ init !! 2%nat = Some 0 /\
  ls_stat (dump (updates init [0; 5; 0; 8]) g_lat_stat0) = [5; 8] /\
  acc_lat (dump (updates init [0; 5; 0; 8]) g_lat_stat0) = 13.
Proof.
  destruct (sampler_rejects_zero_and_dump init g_lat_stat0 [0; 5; 0; 8] 2)
    as (_ & Hz & _).
  destruct (sampler_rejects_zero_and_dump
              (updates init [0; 5; 0; 8]) g_lat_stat0 [] 0)
    as (_ & _ & Hl & Ha & _).
  split; [reflexivity|]. split; [apply Hz; reflexivity|].
  split; [rewrite Hl; reflexivity | rewrite Ha; reflexivity].
Defined.

End LatencySampler.

(** ** The poller's queues *)

Section Backlog.

Import IO.

Lemma next_backlog_cons ev evs r sh rest :
  next_backlog {| ev_count_ := ev; events_ := evs;
                  reconnect_q_ := r; backlog_ := sh :: rest |} =
  (Some sh, {| ev_count_ := ev; events_ := evs;
               reconnect_q_ := r; backlog_ := rest |}).
Proof. reflexivity. Qed.

(** Draining a backlog hands out its handlers from the front, in order,
    and leaves it empty. *)
Lemma drain_all b : forall ev evs r,
  drain (length b) {| ev_count_ := ev; events_ := evs;
                      reconnect_q_ := r; backlog_ := b |} =
  (b, {| ev_count_ := ev; events_ := evs;
         reconnect_q_ := r; backlog_ := [] |}).
Proof.
  induction b as [|sh b IH]; intros ev evs r; [reflexivity|].
  cbn [length drain]. rewrite next_backlog_cons, IH. reflexivity.
Qed.

End Backlog.

(** ** The worker loop: slow start *)

Section SlowStart.

Variable g : options.
Hypothesis Hn : 0 <= n_peers g < 2 ^ 31 - 1.

Lemma machine0_inv : loop_inv g (machine0 g).
Proof. unfold loop_inv, machine0, PEERS_SLOW_START; simpl. lia. Qed.

Lemma budget_cases b a n :
  budget g b a n = 0 \/ (budget g b a n = 1 /\ b = true /\ a + n < n_peers g).
Proof.
  unfold budget. destruct b; simpl; [|auto].
  destruct (Z.ltb_spec (a + n) (n_peers g)); auto.
Qed.

Lemma bump_spec b m :
  0 <= active_peers m -> 0 <= new_peers m ->
  active_peers m + new_peers m <= n_peers g + 1 ->
  active_peers (bump g b m) = active_peers m /\
  new_peers (bump g b m)
    = new_peers m + budget g b (active_peers m) (new_peers m) /\
  all_peers (bump g b m) = all_peers m /\ wld (bump g b m) = wld m /\
  w_pc (bump g b m) = w_pc m /\ d_pc (bump g b m) = d_pc m.
Proof.
  intros Ha Hb Hs. unfold bump, budget.
  rewrite (i32_small (active_peers m + new_peers m)) by lia.
  destruct b; simpl; [|repeat split; lia].
  destruct (Z.ltb_spec (active_peers m + new_peers m) (n_peers g)); simpl;
    [|repeat split; lia].
  rewrite i32_small by lia. repeat split; lia.
Qed.

Lemma advance_spec e sh m p b p' w' :
  loop_inv g m ->
  peer_at (all_peers m) sh = Some p ->
  Peer.next_state e p (wld m) = Ret (b, p', w') ->
  exists m', advance g e sh m = Ret m' /\
    active_peers m' = active_peers m /\
    new_peers m' = new_peers m + budget g b (active_peers m) (new_peers m) /\
    w_pc m' = w_pc m /\ wld m' = w'.
Proof.
  intros (Ha & Hb & Hs) Hp Hns. unfold advance. rewrite Hp.
  cbn [mbind result_bind]. rewrite Hns. eexists; split; [reflexivity|].
  match goal with |- context [bump g b ?m1] =>
    destruct (bump_spec b m1 ltac:(simpl; lia) ltac:(simpl; lia)
                ltac:(simpl; lia)) as (-> & -> & _ & -> & -> & _) end.
  repeat split.
Qed.

Lemma create_peer_spec e m b p' w' :
  loop_inv g m ->
  active_peers m < n_peers g -> new_peers m <> 0 ->
  Peer.next_state e (fst (Peer.create (active_peers m) (wld m)))
                    (snd (Peer.create (active_peers m) (wld m)))
    = Ret (b, p', w') ->
  exists m', create_peer g e m = Ret m' /\
    active_peers m' = active_peers m + 1 /\
    new_peers m' =
      new_peers m + budget g b (active_peers m + 1) (new_peers m) - 1 /\
    w_pc m' = w_pc m /\ wld m' = w' /\ all_peers m' = all_peers m ++ [p'].
Proof.
  intros (Ha & Hb & Hs) Hlt Hnz Hns. unfold create_peer.
  destruct (Peer.create (active_peers m) (wld m)) as [p w] eqn:Hc.
  simpl in Hns. cbn [mbind result_bind]. rewrite Hns.
  rewrite (i32_small (active_peers m + 1)) by lia.
  eexists; split; [reflexivity|].
  match goal with |- context [bump g b ?m1] =>
    destruct (bump_spec b m1 ltac:(simpl; lia) ltac:(simpl; lia)
                ltac:(simpl; lia)) as (Hb1 & Hb2 & Hb3 & Hb4 & Hb5 & _)
  end.
  cbn [active_peers new_peers all_peers wld w_pc with_new_peers].
  rewrite Hb1, Hb2, Hb3, Hb4, Hb5. simpl.
  rewrite i32_small; [repeat split|].
  unfold budget. destruct (b && _); lia.
Qed.

Lemma advance_inv e sh m m' :
  loop_inv g m -> advance g e sh m = Ret m' -> loop_inv g m'.
Proof.
  intros Hinv H. destruct (peer_at (all_peers m) sh) as [p|] eqn:Hp.
  - destruct (Peer.next_state e p (wld m)) as [[[b p'] w']|] eqn:Hns.
    + destruct (advance_spec e sh m p b p' w' Hinv Hp Hns)
        as (m'' & Hm & Ha & Hb & _).
      rewrite Hm in H. injection H as <-.
      destruct Hinv as (? & ? & ?). unfold loop_inv. rewrite Ha, Hb.
      destruct (budget_cases b (active_peers m) (new_peers m))
        as [->|(-> & _ & ?)]; lia.
    + unfold advance in H. rewrite Hp in H. cbn [mbind result_bind] in H.
      rewrite Hns in H. discriminate.
  - unfold advance in H. rewrite Hp in H. by injection H as <-.
Qed.

Lemma create_peer_inv e m m' :
  loop_inv g m -> active_peers m < n_peers g -> new_peers m <> 0 ->
  create_peer g e m = Ret m' -> loop_inv g m'.
Proof.
  intros Hinv Hlt Hnz H.
  destruct (Peer.next_state e (fst (Peer.create (active_peers m) (wld m)))
              (snd (Peer.create (active_peers m) (wld m))))
    as [[[b p'] w']|] eqn:Hns.
  - destruct (create_peer_spec e m b p' w' Hinv Hlt Hnz Hns)
      as (m'' & Hm & Ha & Hb & _).
    rewrite Hm in H. injection H as <-.
    destruct Hinv as (? & ? & ?). unfold loop_inv. rewrite Ha, Hb.
    destruct (budget_cases b (active_peers m + 1) (new_peers m))
      as [->|(-> & _ & ?)]; lia.
  - unfold create_peer in H.
    destruct (Peer.create (active_peers m) (wld m)) as [p w].
    simpl in Hns. cbn [mbind result_bind] in H. rewrite Hns in H.
    discriminate.
Qed.

Lemma worker_step_inv e m m' :
  loop_inv g m -> worker_step g e m = Ret m' -> loop_inv g m'.
Proof.
  intros Hinv H. unfold worker_step in H.
  destruct (w_pc m).
  - destruct (end_of_work g (wld m)); injection H as <-; exact Hinv.
  - destruct (Z.ltb_spec (active_peers m) (n_peers g)) as [Hlt|_];
      [destruct (Z.eqb_spec (new_peers m) 0) as [_|Hnz]|]; simpl in H.
    + destruct (IO.wait e (io (wld m))); [|discriminate].
      injection H as <-. exact Hinv.
    + eapply create_peer_inv; eauto.
    + destruct (IO.wait e (io (wld m))); [|discriminate].
      injection H as <-. exact Hinv.
  - destruct (IO.next_sk (io (wld m))) as [[sh|] io'].
    + eapply advance_inv; [|exact H]. exact Hinv.
    + injection H as <-. exact Hinv.
  - destruct (finish (wld m)).
    + injection H as <-. exact Hinv.
    + destruct (IO.next_backlog (io (wld m))) as [[sh|] io'].
      * eapply advance_inv; [|exact H]. exact Hinv.
      * injection H as <-. exact Hinv.
  - injection H as <-. exact Hinv.
Qed.

Lemma step_inv i m m' :
  loop_inv g m -> step g i m = Ret m' -> loop_inv g m'.
Proof.
  intros Hinv H. destruct i as [e|dt el|]; simpl in H.
  - eapply worker_step_inv; eauto.
  - injection H as <-. unfold driver_step.
    destruct (d_pc m); try exact Hinv.
    + destruct (end_of_work g (wld m)); exact Hinv.
    + destruct (w_pc m); try exact Hinv.
      destruct (statistics_dump (wld m)). exact Hinv.
  - injection H as <-. exact Hinv.
Qed.

Lemma run_inv ins : forall m m',
  loop_inv g m -> run g ins m = Ret m' -> loop_inv g m'.
Proof.
  induction ins as [|i ins IH]; intros m m' Hinv H; simpl in H.
  - by injection H as <-.
  - destruct (step g i m) as [m1|] eqn:Hs; [|discriminate].
    eapply IH; [|exact H]. eapply step_inv; eauto.
Qed.

(** An advance at the [AtReady] or [AtDrain] test, seen from the step. *)
Lemma advance_step e sh m m1 m' :
  loop_inv g m1 ->
  active_peers m1 = active_peers m -> new_peers m1 = new_peers m ->
  advance g e sh m1 = Ret m' ->
  active_peers m' = active_peers m /\
  new_peers m' = new_peers m +
    match (p ← peer_at (all_peers m1) sh; Some (p, wld m1)) with
    | Some (p, w) =>
        match Peer.next_state e p w with
        | Ret (b, _, _) => budget g b (active_peers m') (new_peers m)
        | Throw _ => 0
        end
    | None => 0
    end.
Proof.
  intros Hinv Ha Hb H.
  destruct (peer_at (all_peers m1) sh) as [p|] eqn:Hp; cbn [mbind option_bind].
  - destruct (Peer.next_state e p (wld m1)) as [[[b p'] w']|] eqn:Hns.
    + destruct (advance_spec e sh m1 p b p' w' Hinv Hp Hns)
        as (m'' & Hm & Ha' & Hb' & _).
      rewrite Hm in H. injection H as <-. rewrite Ha', Hb', Ha, Hb. auto.
    + unfold advance in H. rewrite Hp in H. cbn [mbind result_bind] in H.
      rewrite Hns in H. discriminate.
  - unfold advance in H. rewrite Hp in H. injection H as <-. lia.
Qed.

Lemma worker_step_budget e m m' :
  loop_inv g m -> worker_step g e m = Ret m' ->
  active_peers m' = active_peers m + (if creating g m then 1 else 0) /\
  new_peers m' =
    new_peers m
    + match advance_result g e m with
      | Some b => budget g b (active_peers m') (new_peers m)
      | None => 0
      end
    - (if creating g m then 1 else 0).
Proof.
  intros Hinv H. unfold worker_step in H.
  unfold advance_result, handed_out, creating.
  destruct (w_pc m).
  - destruct (end_of_work g (wld m)); injection H as <-; simpl; lia.
  - destruct ((active_peers m <? n_peers g) && negb (new_peers m =? 0))
      eqn:Hc.
    + apply andb_prop in Hc as [Hlt Hnz].
      apply Z.ltb_lt in Hlt. apply negb_true_iff, Z.eqb_neq in Hnz.
      destruct (Peer.create (active_peers m) (wld m)) as [p w] eqn:Hp.
      destruct (Peer.next_state e p w) as [[[b p'] w']|] eqn:Hns.
      * destruct (create_peer_spec e m b p' w' Hinv Hlt Hnz)
          as (m'' & Hm & Ha & Hb & _); [rewrite Hp; exact Hns|].
        rewrite Hm in H. injection H as <-. rewrite Ha, Hb. lia.
      * unfold create_peer in H. rewrite Hp in H.
        cbn [mbind result_bind] in H. rewrite Hns in H. discriminate.
    + destruct (IO.wait e (io (wld m))); [|discriminate].
      injection H as <-. simpl. lia.
  - destruct (IO.next_sk (io (wld m))) as [[sh|] io'].
    + apply advance_step with (m := m) in H; [|exact Hinv|reflexivity..].
      cbn [mbind option_bind all_peers with_wld wld] in *. 
      destruct H as [-> ->].
      destruct (peer_at (all_peers m) sh); cbn [mbind option_bind]; [|lia].
      destruct (Peer.next_state e t (set_io io' (wld m))) as [[[b ?] ?]|];
        lia.
    + injection H as <-. simpl. lia.
  - destruct (finish (wld m)).
    + injection H as <-. simpl. lia.
    + destruct (IO.next_backlog (io (wld m))) as [[sh|] io'].
      * apply advance_step with (m := m) in H; [|exact Hinv|reflexivity..].
        cbn [mbind option_bind all_peers with_wld wld] in *.
        destruct H as [-> ->].
        destruct (peer_at (all_peers m) sh); cbn [mbind option_bind]; [|lia].
        destruct (Peer.next_state e t (set_io io' (wld m))) as [[[b ?] ?]|];
          lia.
      * injection H as <-. simpl. lia.
  - injection H as <-. lia.
Qed.

End SlowStart.

(** *** A negative target *)

Section NegativeTarget.

Variable g : options.
Hypothesis Hneg : n_peers g < 0.

Lemma peer_at_nil sh : peer_at [] sh = None.
Proof. unfold peer_at. by destruct (sh <? 0). Qed.

(** No peer is ever created: the worker only waits and finds no peer
    behind any handler. *)
Lemma worker_step_no_peers e m m' :
  active_peers m = 0 -> new_peers m = n_peers g -> all_peers m = [] ->
  worker_step g e m = Ret m' ->
  (active_peers m' = 0 /\ new_peers m' = n_peers g /\ all_peers m' = []) /\
  creating g m = false /\ advance_result g e m = None.
Proof.
  intros Ha Hb Hp H.
  unfold worker_step in H. unfold advance_result, handed_out, creating.
  rewrite Ha, Hp in *.
  destruct (Z.ltb_spec 0 (n_peers g)) as [|_]; [lia|]. cbn [andb] in *.
  destruct (w_pc m).
  - destruct (end_of_work g (wld m)); simplify_eq; cbn.
    all: tauto.
  - destruct (IO.wait e (io (wld m))); [|discriminate].
    cbn [mbind result_bind] in H. simplify_eq. cbn. tauto.
  - destruct (IO.next_sk (io (wld m))) as [[sh|] io1].
    + unfold advance in H. cbn [all_peers with_wld] in H.
      rewrite Hp, peer_at_nil in H. simplify_eq. cbn.
      rewrite peer_at_nil. tauto.
    + simplify_eq. cbn. tauto.
  - destruct (finish (wld m)).
    + simplify_eq. unfold end_iteration. cbn. tauto.
    + destruct (IO.next_backlog (io (wld m))) as [[sh|] io1].
      * unfold advance in H. cbn [all_peers with_wld] in H.
        rewrite Hp, peer_at_nil in H. simplify_eq. cbn.
        rewrite peer_at_nil. tauto.
      * simplify_eq. unfold end_iteration. cbn. tauto.
  - simplify_eq. tauto.
Qed.

Lemma step_no_peers i m m' :
  active_peers m = 0 -> new_peers m = n_peers g -> all_peers m = [] ->
  step g i m = Ret m' ->
  active_peers m' = 0 /\ new_peers m' = n_peers g /\ all_peers m' = [].
Proof.
  intros Ha Hb Hp H. destruct i as [e|dt el|]; cbn in H.
  - by destruct (worker_step_no_peers e m m' Ha Hb Hp H).
  - simplify_eq. unfold driver_step.
    destruct (d_pc m); [destruct (end_of_work g (wld m))| |
      destruct (w_pc m); try destruct (statistics_dump (wld m))|]; cbn; tauto.
  - simplify_eq. cbn. tauto.
Qed.

Lemma run_no_peers ins : forall m m',
  active_peers m = 0 -> new_peers m = n_peers g -> all_peers m = [] ->
  run g ins m = Ret m' ->
  active_peers m' = 0 /\ new_peers m' = n_peers g /\ all_peers m' = [].
Proof.
  induction ins as [|i ins IH]; intros m m' Ha Hb Hp H; cbn in H.
  - simplify_eq. tauto.
  - destruct (step g i m) as [m1|] eqn:Hs; [|discriminate]. cbn in H.
    destruct (step_no_peers i m m1 Ha Hb Hp Hs) as (? & ? & ?).
    eapply IH; eauto.
Qed.

End NegativeTarget.

(** C7 (amended).  With a target [n_peers] below [INT_MAX], in every
    state that the worker loop reaches [active_peers] lies between 0 and
    the larger of 0 and [n_peers] (for a target below zero no peer is
    created and [active_peers] stays 0); the creation budget [new_peers]
    starts at no more than [PEERS_SLOW_START]; and each step of the worker
    changes the budget by exactly this: one more when the peer it advanced
    returned [true] from [next_state] and [active_peers + new_peers], the
    peers created plus the budget still to spend, was below the target,
    and one less when the step created a peer. *)
Theorem slow_start_budget (g : options) (ins : list input) (m : machine) :
  n_peers g < 2 ^ 31 - 1 ->
  run g ins (machine0 g) = Ret m ->
  0 <= active_peers m <= Z.max 0 (n_peers g) /\
  new_peers (machine0 g) <= PEERS_SLOW_START /\
  forall e m', worker_step g e m = Ret m' ->
    active_peers m' = active_peers m + (if creating g m then 1 else 0) /\
    new_peers m' =
      new_peers m
      + match advance_result g e m with
        | Some b => budget g b (active_peers m') (new_peers m)
        | None => 0
        end
      - (if creating g m then 1 else 0).
Proof.
  intros Hmax Hrun.
  split; [|split; [unfold machine0, PEERS_SLOW_START; cbn; lia|]].
  - destruct (Z.lt_ge_cases (n_peers g) 0) as [Hneg|Hpos].
    + destruct (run_no_peers g Hneg ins (machine0 g) m) as (Ha & _);
        [reflexivity| cbn; unfold PEERS_SLOW_START; lia |reflexivity
        |exact Hrun|]. lia.
    + pose proof (run_inv g (conj Hpos Hmax) ins _ _
                    (machine0_inv g (conj Hpos Hmax)) Hrun) as (Ha & _).
      lia.
  - intros e m' Hstep.
    destruct (Z.lt_ge_cases (n_peers g) 0) as [Hneg|Hpos].
    + destruct (run_no_peers g Hneg ins (machine0 g) m) as (Ha & Hb & Hp);
        [reflexivity| cbn; unfold PEERS_SLOW_START; lia |reflexivity
        |exact Hrun|].
      destruct (worker_step_no_peers g Hneg e m m' Ha Hb Hp Hstep)
        as ((Ha' & Hb' & _) & -> & ->). lia.
    + pose proof (run_inv g (conj Hpos Hmax) ins _ _
                    (machine0_inv g (conj Hpos Hmax)) Hrun) as Hinv.
      apply (worker_step_budget g (conj Hpos Hmax)); assumption.
Qed.

Lemma slow_start_budget_witness :
  n_peers g12 < 2 ^ 31 - 1 /\
  exists m m',
    run g12 ramp (machine0 g12) = Ret m /\
    worker_step g12 (env_done 90) m = Ret m' /\
    active_peers m = 10 /\ active_peers m <= Z.max 0 (n_peers g12) /\
    new_peers (machine0 g12) = 10 /\ new_peers m = 0 /\
    creating g12 m = false /\
    advance_result g12 (env_done 90) m = Some true /\
    active_peers m' = 10 /\ new_peers m' = 0 + 1 - 0.
Proof.
  assert (n_peers g12 < 2 ^ 31 - 1) as Hn by (simpl; lia).
  split; [exact Hn|].
  destruct (run g12 ramp (machine0 g12)) as [m|] eqn:Hrun;
    [|vm_compute in Hrun; discriminate].
  destruct (worker_step g12 (env_done 90) m) as [m'|] eqn:Hstep;
    [|vm_compute in Hrun; injection Hrun as <-;
      vm_compute in Hstep; discriminate].
  exists m, m'.
  destruct (slow_start_budget g12 ramp m Hn Hrun) as (Ha & _ & Hb).
  destruct (Hb _ _ Hstep) as (Hact & Hnew).
  vm_compute in Hrun. injection Hrun as <-.
  split; [reflexivity|]. split; [exact Hstep|].
  split; [reflexivity|]. split; [exact (proj2 Ha)|].
  split; [reflexivity|]. split; [reflexivity|].
  split; [vm_compute; reflexivity|].
  split; [vm_compute; reflexivity|].
  split; [rewrite Hact; vm_compute; reflexivity|].
  rewrite Hnew, Hact. vm_compute. reflexivity.
Defined.

(** The claim as worded fails in two ways.  With the target -1 the
    loop sits at [active_peers = 0], above the target.  And with the
    target 12, ten peers created and a budget of 2, an advance returns
    [true] while [active_peers] is below the target, and the budget stays
    2: the test is on [active_peers + new_peers]. *)
Lemma slow_start_budget_counterexample :
  reaches g_negative [Worker env_idle; Worker env_idle]
    (fun m => active_peers m = 0 /\ ~ active_peers m <= n_peers g_negative) /\
  reaches g12 burst
    (fun m =>
       active_peers m = 10 /\ new_peers m = 2 /\
       active_peers m < n_peers g12 /\
       advance_result g12 (env_done 70) m = Some true /\
       exists m',
         worker_step g12 (env_done 70) m = Ret m' /\
         active_peers m' = 10 /\ new_peers m' = 2).
Proof.
  split.
  - vm_compute. split; [reflexivity|]. intros H. apply H. reflexivity.
  - vm_compute. split; [reflexivity|]. split; [reflexivity|].
    split; [reflexivity|]. split; [reflexivity|].
    eexists. split; [reflexivity|]. split; reflexivity.
Qed.

(** ** The peer state machine *)

Section PeerFacts.

Import Peer.

(** [disconnect] only talks to the poller and the console. *)
Lemma disconnect_spec e p w :
  let p' := fst (disconnect e p w) in
  let w' := snd (disconnect e p w) in
  stat w' = stat w /\ lat_stat w' = lat_stat w /\ io w' = io w /\
  g_lat_stat w' = g_lat_stat w /\ finish w' = finish w /\
  start_stats w' = start_stats w /\
  id_ p' = id_ p /\ tls_ p' = None /\ sd p' < 0 /\
  state_ p' = STATE_TCP_CONNECT.
Proof.
  unfold disconnect, del_from_poll, IO.del. cbn [mbind result_bind].
  destruct p as [id s tls st pol]. cbn [tls_ sd polled_ set_tls].
  destruct tls; simpl;
    destruct (Z.leb_spec 0 s), pol, (epoll_del_ret e <? 0);
    simpl; repeat split; lia.
Qed.

Lemma add_to_poll_spec e p w p' w' :
  add_to_poll e p w = Ret (p', w') ->
  stat w' = stat w /\ lat_stat w' = lat_stat w /\ io w' = io w /\
  g_lat_stat w' = g_lat_stat w /\ finish w' = finish w /\
  start_stats w' = start_stats w /\
  id_ p' = id_ p /\ tls_ p' = tls_ p /\ sd p' = sd p /\
  state_ p' = state_ p.
Proof.
  unfold add_to_poll, IO.add. cbn [mbind result_bind].
  destruct (polled_ p), (epoll_add_ret e <? 0); intros H;
    simpl in H; simplify_eq; by repeat split.
Qed.

(** A handshake that completes: the sampler is updated with the time of
    this call, whether or not the session was created by it. *)
Lemma tls_handshake_done e p w ctx :
  tls_ p = Some ctx -> ssl_connect_ret e = 1 ->
  exists p' w',
    tls_handshake e p w = Ret (true, p', w') /\
    lat_stat w' = fst (LatencyStat.update (lat_stat w) (u64 (lat e))) /\
    tls_handshakes (stat w') = decr32 (tls_handshakes (stat w)) /\
    tls_connections (stat w') = incr32 (tls_connections (stat w)) /\
    tot_tls_handshakes (stat w') = incr64 (tot_tls_handshakes (stat w)).
Proof.
  intros Htls Hr. unfold tls_handshake. cbn [tls_ set_state].
  rewrite Htls. cbn [mbind result_bind]. rewrite Hr. cbn [Z.eqb Pos.eqb].
  destruct (LatencyStat.update (lat_stat w) (u64 (lat e))) as [ls log].
  match goal with |- context [disconnect e ?q ?v] =>
    pose proof (disconnect_spec e q v) as (Hs & Hl & _);
    destruct (disconnect e q v) as [p1 w1] end.
  cbn [fst snd] in *. eexists _, _. split; [reflexivity|].
  cbn [stat lat_stat set_io set_stat]. rewrite Hs, Hl. by repeat split.
Qed.

(** The fatal branch of a handshake, on a session that exists or is
    created by this call ([tls_handshakes] is then counted up first). *)
Lemma tls_handshake_fatal e p w :
  session_ready e p -> fatal e ->
  (tls_connections (stat w) = 0 ->
   tls_handshake e p w = Throw "cannot establish even one TLS connection") /\
  (tls_connections (stat w) <> 0 ->
   exists p' w',
     tls_handshake e p w = Ret (false, p', w') /\
     tls_handshakes (stat w') =
       decr32 (match tls_ p with
               | Some _ => tls_handshakes (stat w)
               | None => incr32 (tls_handshakes (stat w))
               end) /\
     error_count (stat w') = incr32 (error_count (stat w)) /\
     tcp_connections (stat w') = decr32 (tcp_connections (stat w)) /\
     tls_ p' = None /\ sd p' < 0 /\ state_ p' = STATE_TCP_CONNECT).
Proof.
  intros Hready (Hr & Hrd & Hwr). unfold tls_handshake, IO.new_tls_ctx.
  cbn [tls_ set_state].
  assert (exists q v,
            match tls_ p with
            | Some _ => Ret (set_state STATE_TLS_HANDSHAKING p, w)
            | None =>
                ctx ← match ssl_new_ret e with
                      | Some ctx => Ret ctx
                      | None => Throw "cannot clone TLS context"
                      end;
                Ret (set_tls (Some ctx) (set_state STATE_TLS_HANDSHAKING p),
                     set_stat (upd_tls_handshakes incr32) w)
            end = Ret (q, v) /\
            tls_connections (stat v) = tls_connections (stat w) /\
            error_count (stat v) = error_count (stat w) /\
            tcp_connections (stat v) = tcp_connections (stat w) /\
            tls_handshakes (stat v) =
              match tls_ p with
              | Some _ => tls_handshakes (stat w)
              | None => incr32 (tls_handshakes (stat w))
              end) as (q & v & -> & Hc & He & Ht & Hh).
  { unfold session_ready in Hready.
    destruct (tls_ p) as [ctx|]; [eexists _, _; by repeat split|].
    destruct (ssl_new_ret e) as [ctx|]; [|by destruct Hready].
    eexists _, _. by repeat split. }
  cbn [mbind result_bind].
  destruct (Z.eqb_spec (ssl_connect_ret e) 1) as [|_]; [contradiction|].
  destruct (Z.eqb_spec (ssl_get_error_ret e) SSL_ERROR_WANT_READ) as [|_];
    [contradiction|].
  destruct (Z.eqb_spec (ssl_get_error_ret e) SSL_ERROR_WANT_WRITE) as [|_];
    [contradiction|].
  cbn [orb]. rewrite Hc. split; intros Hz.
  - rewrite Hz. reflexivity.
  - destruct (Z.eqb_spec (tls_connections (stat w)) 0) as [|_];
      [contradiction|].
    match goal with |- context [disconnect e ?a ?b] =>
      pose proof (disconnect_spec e a b) as (Hs & _ & _ & _ & _ & _ & _ & ?);
      destruct (disconnect e a b) as [p1 w1] end.
    cbn [fst snd] in *. eexists _, _. split; [reflexivity|].
    cbn [stat set_stat]. rewrite Hs. simpl. rewrite Hh, He, Ht. tauto.
Qed.

Ltac use_peer_specs :=
  repeat match goal with
  | H : disconnect ?e ?p ?w = (_, _) |- _ =>
      let F := fresh in
      pose proof (disconnect_spec e p w) as F; rewrite H in F;
      cbn [fst snd] in F; clear H
  | H : add_to_poll _ _ _ = Ret _ |- _ => apply add_to_poll_spec in H
  end.

Ltac frame_solve :=
  unfold worker_frame, lat_step, driver_part in *; simpl in *;
  destruct_and?; destruct_or?;
  repeat match goal with
  | H : LatencyStat.update _ _ = _ |- _ => rewrite H in *; clear H
  | H : stat ?w = _ |- _ => rewrite H in *; clear H
  | H : io ?w = _ |- _ => rewrite H in *; clear H
  | H : lat_stat ?w = _ |- _ => rewrite H in *; clear H
  end;
  simpl; repeat split; auto; try congruence;
  first [left; congruence | right; congruence].

Lemma tls_handshake_frame e p w b p' w' :
  tls_handshake e p w = Ret (b, p', w') ->
  worker_frame w w' /\ lat_step e w w'.
Proof.
  unfold tls_handshake, IO.new_tls_ctx, mbind, result_bind. intros H.
  repeat (case_match; simplify_eq/=); use_peer_specs; frame_solve.
Qed.

Lemma handle_established_tcp_conn_frame e p w b p' w' :
  handle_established_tcp_conn e p w = Ret (b, p', w') ->
  worker_frame w w' /\ lat_step e w w'.
Proof.
  unfold handle_established_tcp_conn, dbg_status. intros H.
  apply tls_handshake_frame in H. frame_solve.
Qed.

Lemma handle_connect_error_frame err e p w p' w' :
  handle_connect_error err e p w = Ret (p', w') ->
  worker_frame w w' /\ lat_step e w w'.
Proof.
  unfold handle_connect_error. intros H.
  repeat (case_match; simplify_eq/=); use_peer_specs; frame_solve.
Qed.

(** An advance of a peer leaves the store, the flags, the backlog and the
    driver's part of [stat] alone. *)
Lemma next_state_frame e p w b p' w' :
  next_state e p w = Ret (b, p', w') ->
  worker_frame w w' /\ lat_step e w w'.
Proof.
  unfold next_state, tcp_connect, tcp_connect_try_finish, mbind, result_bind.
  intros H.
  repeat (case_match; simplify_eq/=);
    repeat match goal with
    | H : handle_established_tcp_conn _ _ _ = Ret _ |- _ =>
        apply handle_established_tcp_conn_frame in H
    | H : handle_connect_error _ _ _ _ = Ret _ |- _ =>
        apply handle_connect_error_frame in H
    | H : tls_handshake _ _ _ = Ret _ |- _ =>
        apply tls_handshake_frame in H
    end; frame_solve.
Qed.

End PeerFacts.

(** C1.  On a fatal TLS error during an advance, [tls_handshake] raises
    the worker-fatal error exactly when [stat.tls_connections] is zero at
    that moment, and otherwise decrements [tls_handshakes], increments
    [error_count], disconnects and decrements [tcp_connections].  The
    counter it reads is the one that the driver empties every second: in
    the run [second_handshake] one handshake has completed
    ([tot_tls_handshakes = 1]), the driver has taken its sample, and the
    next fatal error raises "cannot establish even one TLS connection". *)
Theorem cold_start_guard_reads_window_counter :
  (forall e p w,
     session_ready e p -> fatal e ->
     (tls_connections (stat w) = 0 ->
      Peer.tls_handshake e p w
        = Throw "cannot establish even one TLS connection") /\
     (tls_connections (stat w) <> 0 ->
      exists p' w',
        Peer.tls_handshake e p w = Ret (false, p', w') /\
        tls_handshakes (stat w') =
          decr32 (match Peer.tls_ p with
                  | Some _ => tls_handshakes (stat w)
                  | None => incr32 (tls_handshakes (stat w))
                  end) /\
        error_count (stat w') = incr32 (error_count (stat w)) /\
        tcp_connections (stat w') = decr32 (tcp_connections (stat w)) /\
        Peer.tls_ p' = None /\ Peer.sd p' < 0 /\
        Peer.state_ p' = Peer.STATE_TCP_CONNECT)) /\
  exists m,
    run g1 second_handshake (machine0 g1) = Ret m /\
    tot_tls_handshakes (stat (wld m)) = 1 /\
    tls_connections (stat (wld m)) = 0 /\
    step g1 (Worker env_fatal) m
      = Throw "cannot establish even one TLS connection".
Proof.
  split; [apply tls_handshake_fatal|].
  destruct (run g1 second_handshake (machine0 g1)) as [m|] eqn:Hrun;
    [|vm_compute in Hrun; discriminate].
  exists m. split; [reflexivity|].
  vm_compute in Hrun. injection Hrun as <-.
  repeat split; vm_compute; reflexivity.
Qed.

Lemma cold_start_guard_reads_window_counter_witness :
  session_ready env_fatal peer_in_handshake /\ fatal env_fatal /\
  Peer.tls_handshake env_fatal peer_in_handshake world_in_handshake
    = Throw "cannot establish even one TLS connection" /\
  exists p' w',
    Peer.tls_handshake env_fatal peer_in_handshake world_after_handshake
      = Ret (false, p', w') /\
    error_count (stat w') = 1 /\ tls_handshakes (stat w') = 0.
Proof.
  assert (session_ready env_fatal peer_in_handshake) as Hs
    by (left; discriminate).
  assert (fatal env_fatal) as Hf by (repeat split; discriminate).
  destruct cold_start_guard_reads_window_counter as [Hg _].
  split; [exact Hs|]. split; [exact Hf|]. split.
  - apply (Hg env_fatal peer_in_handshake world_in_handshake);
      [exact Hs|exact Hf|reflexivity].
  - destruct (Hg env_fatal peer_in_handshake world_after_handshake Hs Hf)
      as [_ Hr].
    destruct Hr as (p' & w' & Hret & Hh & He & _); [discriminate|].
    exists p', w'. split; [exact Hret|].
    split; [rewrite He|rewrite Hh]; reflexivity.
Defined.

(** C2.  A handshake that completes on an advance where the TLS session
    already existed advances the completion counters and also calls the
    sampler's [update] with the time spent in this last [SSL_connect]: in
    the run [suspended] the handshake of peer 0 was suspended on an
    earlier call, and its completion on a readiness event writes the 150
    microseconds of that call into slot 0 of the sampler. *)
Theorem resumed_completion_updates_sampler :
  (forall e p w ctx,
     Peer.tls_ p = Some ctx -> ssl_connect_ret e = 1 ->
     exists p' w',
       Peer.tls_handshake e p w = Ret (true, p', w') /\
       lat_stat w' = fst (LatencyStat.update (lat_stat w) (u64 (lat e))) /\
       tls_handshakes (stat w') = decr32 (tls_handshakes (stat w)) /\
       tls_connections (stat w') = incr32 (tls_connections (stat w)) /\
       tot_tls_handshakes (stat w') = incr64 (tot_tls_handshakes (stat w))) /\
  exists m m',
    run g1 suspended (machine0 g1) = Ret m /\
    (Peer.tls_ <$> all_peers m !! 0%nat) = Some (Some 1) /\
    (Peer.state_ <$> all_peers m !! 0%nat) = Some Peer.STATE_TLS_HANDSHAKING /\
    LatencyStat.stat_ (lat_stat (wld m)) !! 0%nat = Some 0 /\
    step g1 (Worker (env_done 150)) m = Ret m' /\
    LatencyStat.stat_ (lat_stat (wld m')) !! 0%nat = Some 150 /\
    tot_tls_handshakes (stat (wld m')) = 1.
Proof.
  split; [apply tls_handshake_done|].
  destruct (run g1 suspended (machine0 g1)) as [m|] eqn:Hrun;
    [|vm_compute in Hrun; discriminate].
  destruct (step g1 (Worker (env_done 150)) m) as [m'|] eqn:Hstep;
    [|vm_compute in Hrun; injection Hrun as <-;
      vm_compute in Hstep; discriminate].
  exists m, m'. split; [reflexivity|].
  vm_compute in Hrun. injection Hrun as <-.
  vm_compute in Hstep. injection Hstep as <-.
  repeat split; vm_compute; reflexivity.
Qed.

Lemma resumed_completion_updates_sampler_witness :
  Peer.tls_ peer_in_handshake = Some 1 /\
  ssl_connect_ret (env_done 150) = 1 /\
  exists p' w',
    Peer.tls_handshake (env_done 150) peer_in_handshake world_in_handshake
      = Ret (true, p', w') /\
    LatencyStat.stat_ (lat_stat w') !! 0%nat = Some 150.
Proof.
  split; [reflexivity|]. split; [reflexivity|].
  destruct resumed_completion_updates_sampler as [Hg _].
  destruct (Hg (env_done 150) peer_in_handshake world_in_handshake 1
              eq_refl eq_refl) as (p' & w' & Hret & Hl & _).
  exists p', w'. split; [exact Hret|]. rewrite Hl. reflexivity.
Defined.

(** ** The driver: throughput samples and the report *)

Section Driver.

Lemma statistics_update_frame dt w :
  let w' := statistics_update dt w in
  io w' = io w /\ lat_stat w' = lat_stat w /\
  g_lat_stat w' = g_lat_stat w /\ finish w' = finish w /\
  start_stats w' = start_stats w.
Proof.
  unfold statistics_update. destruct w as [s gl f ss i ls o]; simpl.
  destruct ss; by repeat split.
Qed.

Lemma statistics_update_off dt w :
  start_stats w = false ->
  driver_part (stat (statistics_update dt w)) = driver_part (stat w).
Proof.
  intros Hs. unfold statistics_update. cbn [start_stats print set_stat].
  rewrite Hs. reflexivity.
Qed.

(** The driver's part after a recorded sample. *)
Lemma statistics_update_on dt w :
  start_stats w = true ->
  let s := stat w in
  let c := curr_hs (tls_connections s) dt in
  let s' := stat (statistics_update dt w) in
  measures s' = i32 (measures s + 1) /\
  max_hs s' = Z.max (max_hs s) c /\
  (min_hs s' = c \/ min_hs s' = min_hs s) /\
  avg_hs s' =
    i32 (cdiv (i32 (i32 (avg_hs s * i32 (i32 (measures s + 1) - 1)) + c))
              (i32 (measures s + 1))) /\
  hs_history s' =
    if (length (hs_history s) <=? 3600)%nat
    then hs_history s ++ [c] else hs_history s.
Proof.
  intros Hs. unfold statistics_update. cbn [start_stats print set_stat stat].
  rewrite Hs. cbn [negb stat set_stat print measures max_hs min_hs avg_hs hs_history
    tls_connections upd_tls_connections].
  split; [reflexivity|]. split.
  { destruct (Z.ltb_spec (max_hs (stat w))
                (curr_hs (tls_connections (stat w)) dt)); lia. }
  split.
  { destruct (negb _ && _); auto. }
  split; [reflexivity|].
  destruct (Z.leb_spec (Z.of_nat (length (hs_history (stat w)))) 3600),
    (Nat.leb_spec (length (hs_history (stat w))) 3600); try reflexivity; lia.
Qed.

Lemma statistics_update_stat_inv dt w :
  stat_inv (stat w) -> stat_inv (stat (statistics_update dt w)).
Proof.
  intros (Hmax & Hmin & Hall & Hlen).
  destruct (start_stats w) eqn:Hs.
  - destruct (statistics_update_on dt w Hs) as (_ & Hx & Hn & _ & Hh).
    unfold stat_inv. rewrite Hx, Hh. split; [lia|]. split.
    { destruct Hn as [-> | ->]; lia. }
    destruct (Nat.leb_spec (length (hs_history (stat w))) 3600).
    + split.
      * apply Forall_app. split.
        -- eapply Forall_impl; [exact Hall|]. intros v Hv; simpl in *. lia.
        -- constructor; [lia|constructor].
      * rewrite length_app. simpl. lia.
    + split; [|exact Hlen].
      eapply Forall_impl; [exact Hall|]. intros v Hv; simpl in *. lia.
  - pose proof (statistics_update_off dt w Hs) as Hd.
    unfold driver_part in Hd. injection Hd as _ Hx Hn _ Hh.
    unfold stat_inv. rewrite Hx, Hn, Hh. auto.
Qed.

Lemma curr_hs_defined c dt :
  0 <= c -> 1000 * c < 2 ^ 31 -> 0 < dt < 2 ^ 63 ->
  curr_hs c dt = 1000 * c / dt /\ 0 <= curr_hs c dt < 2 ^ 31.
Proof.
  intros Hc Hm Hdt. unfold curr_hs.
  rewrite (i32_small (1000 * c)) by lia.
  rewrite !u64_small by lia.
  assert (0 <= 1000 * c / dt <= 1000 * c).
  { split; [apply Z.div_pos; lia|].
    apply Z.div_le_upper_bound; nia. }
  rewrite i32_small by lia. lia.
Qed.

Lemma statistics_update_avg_inv dt w :
  tick_defined dt w = true ->
  avg_inv (stat w) -> avg_inv (stat (statistics_update dt w)).
Proof.
  unfold tick_defined. intros Ht (Hm & Ha).
  repeat (apply andb_prop in Ht as [Ht ?]).
  destruct (start_stats w) eqn:Hs.
  - apply andb_prop in H as [Hm1 Hov]. 
    apply Z.leb_le in Ht. apply Z.ltb_lt in H2, H1, H0, Hm1, Hov.
    destruct (curr_hs_defined (tls_connections (stat w)) dt) as [_ Hq];
      [lia..|].
    destruct (statistics_update_on dt w Hs) as (Hme & Hx & _ & Hav & _).
    unfold avg_inv. rewrite Hme, Hx, Hav.
    set (q := curr_hs (tls_connections (stat w)) dt) in *.
    rewrite (i32_small (measures (stat w) + 1)) by lia.
    replace (measures (stat w) + 1 - 1) with (measures (stat w)) by lia.
    rewrite (i32_small (measures (stat w))) by lia.
    assert (0 <= avg_hs (stat w) * measures (stat w)) by nia.
    rewrite (i32_small (avg_hs (stat w) * measures (stat w))) by lia.
    rewrite (i32_small (avg_hs (stat w) * measures (stat w) + q)) by lia.
    unfold cdiv. rewrite Z.quot_div_nonneg by lia.
    assert (0 <= (avg_hs (stat w) * measures (stat w) + q)
                   / (measures (stat w) + 1)
              <= Z.max (max_hs (stat w)) q) as Hb.
    { split; [apply Z.div_pos; lia|].
      apply Z.div_le_upper_bound; [lia|]. nia. }
    assert ((avg_hs (stat w) * measures (stat w) + q)
              / (measures (stat w) + 1)
            <= avg_hs (stat w) * measures (stat w) + q) as Hc.
    { apply Z.div_le_upper_bound; [lia|]. nia. }
    rewrite i32_small by lia. lia.
  - pose proof (statistics_update_off dt w Hs) as Hd.
    unfold driver_part in Hd. injection Hd as Hme Hx _ Hav _.
    unfold avg_inv. rewrite Hme, Hx, Hav. auto.
Qed.


Section Sorting.

Context {A : Type} (key : A -> Z) (comp : A -> A -> bool).
Hypothesis comp_key : forall a b, comp a b = (key a <? key b).

Lemma sort_insert_perm x l : sort_insert comp x l ≡ₚ x :: l.
Proof.
  induction l as [|y l IH]; simpl; [reflexivity|].
  destruct (comp y x); [|reflexivity].
  rewrite IH. apply Permutation_swap.
Qed.

Lemma std_sort_perm l : std_sort comp l ≡ₚ l.
Proof.
  induction l as [|x l IH]; simpl; [reflexivity|].
  rewrite sort_insert_perm. by rewrite IH.
Qed.

Lemma sort_insert_sorted x l :
  StronglySorted (key_le key) l -> StronglySorted (key_le key) (sort_insert comp x l).
Proof.
  induction 1 as [|y l Hl IH Hy]; simpl.
  - repeat constructor.
  - rewrite comp_key. destruct (Z.ltb_spec (key y) (key x)).
    + constructor; [exact IH|].
      rewrite sort_insert_perm. constructor; [unfold key_le; lia|exact Hy].
    + constructor; [by constructor|].
      constructor; [exact H|].
      eapply Forall_impl; [exact Hy|]. unfold key_le. intros; simpl in *; lia.
Qed.

Lemma std_sort_sorted l : StronglySorted (key_le key) (std_sort comp l).
Proof.
  induction l as [|x l IH]; simpl; [constructor|].
  by apply sort_insert_sorted.
Qed.

Lemma sorted_head l a x :
  StronglySorted (key_le key) l -> head l = Some a -> x ∈ l -> key a <= key x.
Proof.
  intros Hs Hh Hx. destruct Hs as [|y l Hl Hy]; [discriminate|].
  simpl in Hh. injection Hh as ->.
  apply elem_of_cons in Hx as [->|Hx]; [lia|].
  rewrite Forall_forall in Hy. by apply Hy.
Qed.

Lemma sorted_last l b x :
  StronglySorted (key_le key) l -> last l = Some b -> x ∈ l -> key x <= key b.
Proof.
  induction 1 as [|y l Hl IH Hy]; intros Hb Hx; [discriminate|].
  destruct l as [|z l].
  - simpl in Hb. injection Hb as ->.
    apply list_elem_of_singleton in Hx as ->. lia.
  - change (last (y :: z :: l)) with (last (z :: l)) in Hb.
    apply elem_of_cons in Hx as [->|Hx]; [|by apply IH].
    rewrite Forall_forall in Hy.
    assert (b ∈ z :: l) as Hin.
    { apply list_elem_of_lookup. exists (length l).
      rewrite <- Hb. rewrite last_lookup. reflexivity. }
    by apply Hy.
Qed.

End Sorting.

Lemma zsum_perm l l' : l ≡ₚ l' -> zsum l = zsum l'.
Proof. induction 1; simpl in *; lia. Qed.

Lemma zsum_bounds a b l :
  Forall (fun x => a <= x <= b) l ->
  a * Z.of_nat (length l) <= zsum l <= b * Z.of_nat (length l).
Proof.
  induction 1 as [|x l Hx Hl IH]; simpl length; simpl zsum; [lia|].
  rewrite Nat2Z.inj_succ. lia.
Qed.

(** What a recording call prints: the live line, and the warning when
    it finds exactly 3600 stored samples. *)
Lemma statistics_update_out dt w :
  start_stats w = true ->
  exists line,
    out (statistics_update dt w) =
      (out w ++ [line]) ++
      if (length (hs_history (stat w)) =? 3600)%nat
      then [Cerr "WARNING: benchmark is running for too long last history won't be stored" []]
      else [].
Proof.
  intros Hs. unfold statistics_update.
  destruct w as [s gl f ss i ls o]. simpl in *. subst ss. simpl.
  eexists. f_equal.
  destruct (Z.eqb_spec (Z.of_nat (length (hs_history s))) 3600),
    (Nat.eqb_spec (length (hs_history s)) 3600); try reflexivity; lia.
Qed.

(** *** The report *)

Lemma statistics_dump_not_enough w :
  snd (statistics_dump w) = NotEnough <->
  start_stats w = false \/ hs_history (stat w) = [].
Proof.
  unfold statistics_dump.
  destruct (start_stats w); simpl.
  - destruct (hs_history (stat w)) as [|x l]; simpl.
    + tauto.
    + destruct (Z.ltb_spec (Z.of_nat (S (length l))) 1); [lia|].
      simpl. split; [discriminate|]. intros [?|?]; discriminate.
  - tauto.
Qed.

(** Past its guard, [statistics_dump] sorts both vectors and reads them. *)
Lemma statistics_dump_printed w :
  start_stats w = true -> hs_history (stat w) <> [] ->
  let hist := std_sort greater_int32 (hs_history (stat w)) in
  let lats := std_sort less_int32 (ls_stat (g_lat_stat w)) in
  let hsz := Z.of_nat (length (hs_history (stat w))) in
  let lsz := Z.of_nat (length (ls_stat (g_lat_stat w))) in
  exists w',
    statistics_dump w =
      (w', Printed
             {| r_seconds := measures (stat w);
                r_handshakes := tot_tls_handshakes (stat w);
                r_max_hs := max_hs (stat w);
                r_avg_hs := avg_hs (stat w);
                r_p95_hs := vec_at hist (u64 (hsz * 95) / 100);
                r_min_hs := min_hs (stat w);
                r_lat_min := vec_front lats;
                r_lat_avg := udiv (acc_lat (g_lat_stat w)) lsz;
                r_lat_p95 := vec_at lats (u64 (lsz * 95) / 100);
                r_lat_max := vec_back lats |}) /\
    driver_part (stat w') =
      (measures (stat w), max_hs (stat w), min_hs (stat w),
       avg_hs (stat w), hist) /\
    g_lat_stat w' = {| ls_stat := lats; acc_lat := acc_lat (g_lat_stat w) |} /\
    io w' = io w /\ lat_stat w' = lat_stat w /\
    finish w' = finish w /\ start_stats w' = start_stats w.
Proof.
  intros Hs Hh. unfold statistics_dump. rewrite Hs.
  destruct (hs_history (stat w)) as [|x l] eqn:Hl; [contradiction|].
  destruct (Z.ltb_spec (Z.of_nat (length (x :: l))) 1) as [Hlt|_];
    [simpl in Hlt; lia|].
  cbn [negb orb]. eexists. split; [reflexivity|]. by repeat split.
Qed.

Lemma statistics_dump_frame w :
  let w' := fst (statistics_dump w) in
  io w' = io w /\ lat_stat w' = lat_stat w /\
  finish w' = finish w /\ start_stats w' = start_stats w /\
  measures (stat w') = measures (stat w) /\
  max_hs (stat w') = max_hs (stat w) /\
  min_hs (stat w') = min_hs (stat w) /\
  avg_hs (stat w') = avg_hs (stat w) /\
  hs_history (stat w') ≡ₚ hs_history (stat w) /\
  ls_stat (g_lat_stat w') ≡ₚ ls_stat (g_lat_stat w) /\
  acc_lat (g_lat_stat w') = acc_lat (g_lat_stat w).
Proof.
  unfold statistics_dump.
  destruct (negb (start_stats w) || _); cbn [fst]; simpl.
  - by repeat split.
  - repeat split; try reflexivity; apply std_sort_perm.
Qed.

End Driver.

(** *** A run of recorded seconds *)

Section Ticks.

Variable g : options.
Variables dt el : Z.

Lemma statistics_update_tot w :
  tot_tls_handshakes (stat (statistics_update dt w))
    = tot_tls_handshakes (stat w).
Proof.
  unfold statistics_update. destruct w as [s gl f ss i ls o]; simpl.
  by destruct ss.
Qed.

Lemma recorded_frame n w :
  start_stats (Nat.iter n (statistics_update dt) w) = start_stats w /\
  finish (Nat.iter n (statistics_update dt) w) = finish w /\
  tot_tls_handshakes (stat (Nat.iter n (statistics_update dt) w))
    = tot_tls_handshakes (stat w) /\
  g_lat_stat (Nat.iter n (statistics_update dt) w) = g_lat_stat w.
Proof.
  induction n as [|n (IH1 & IH2 & IH3 & IH4)]; [by repeat split|].
  rewrite !Nat.iter_succ.
  destruct (statistics_update_frame dt (Nat.iter n (statistics_update dt) w))
    as (_ & _ & Hg & Hf & Hs).
  rewrite statistics_update_tot, Hg, Hf, Hs. by repeat split.
Qed.

(** The history after [n] recorded samples. *)
Lemma recorded_length n w :
  start_stats w = true ->
  (length (hs_history (stat w)) <= 3601)%nat ->
  length (hs_history (stat (Nat.iter n (statistics_update dt) w)))
    = Nat.min (length (hs_history (stat w)) + n) 3601.
Proof.
  intros Hs Hl. induction n as [|n IH]; [simpl; lia|].
  rewrite Nat.iter_succ.
  destruct (recorded_frame n w) as (Hs' & _). rewrite Hs in Hs'.
  destruct (statistics_update_on dt _ Hs') as (_ & _ & _ & _ & ->).
  destruct (Nat.leb_spec
              (length (hs_history (stat (Nat.iter n (statistics_update dt) w))))
              3600); [rewrite length_app; simpl|]; lia.
Qed.

Lemma run_app a : forall b m,
  run g (a ++ b) m = m' ← run g a m; run g b m'.
Proof.
  induction a as [|i a IH]; intros b m; [reflexivity|].
  simpl. destruct (step g i m) as [m1|]; [apply IH|reflexivity].
Qed.

(** [n] rounds of the driver's loop with no timeout set: the world after
    [n] calls of [statistics_update]. *)
Lemma run_ticks n : forall m,
  timeout g = 0 -> d_pc m = DTest -> end_of_work g (wld m) = false ->
  exists m',
    run g (mjoin (replicate n [Driver 0 0; Driver dt el])) m = Ret m' /\
    wld m' = Nat.iter n (statistics_update dt) (wld m).
Proof.
  induction n as [|n IH]; intros m Ht Hd He.
  - exists m. by split.
  - cbn [replicate mjoin list_join app run step mbind result_bind].
    unfold driver_step at 2. rewrite Hd, He.
    unfold driver_step. cbn [d_pc with_driver]. rewrite Ht.
    cbn [Z.eqb negb andb wld with_driver with_wld].
    match goal with |- context [run g _ ?m1] =>
      destruct (IH m1 Ht eq_refl) as (m' & Hrun & Hw) end.
    { unfold end_of_work in *. cbn [wld with_driver with_wld].
      destruct (statistics_update_frame dt (wld m)) as (_ & _ & _ & Hf & _).
      rewrite Hf, statistics_update_tot. exact He. }
    exists m'. split; [exact Hrun|].
    rewrite Hw. cbn [wld with_driver with_wld]. symmetry.
    apply Nat.iter_succ_r.
Qed.

End Ticks.

(** C4.  [update_limits] asks for [(n_peers + 4) * n_threads] open files
    and exits with code 3 when the peers it is left with are none; but when
    [setrlimit] fails, the new [n_peers] is the requested number divided
    by [n_threads + 4], whatever limit is available: with one peer in each
    of 512 threads and a limit of 1024 (or of 2000) open files it is
    raised from 1 to 4. *)
Theorem update_limits_divides_the_request :
  (forall g rlim ret,
     rlim <= req_fd_n g -> ret <> 0 ->
     fst (update_limits g rlim ret) =
       let n := i32 (req_fd_n g / u64 (i32 (n_threads g + 4))) in
       if n =? 0 then Exits 3
       else Returns {| n_peers := n; n_threads := n_threads g;
                       n_hs := n_hs g; timeout := timeout g |}) /\
  req_fd_n g512 = (1 + 4) * 512 /\
  fst (update_limits g512 1024 (-1)) =
    Returns {| n_peers := 4; n_threads := 512;
               n_hs := 2 ^ 64 - 1; timeout := 0 |} /\
  fst (update_limits g512 2000 (-1)) = fst (update_limits g512 1024 (-1)).
Proof.
  split; [|by vm_compute].
  intros g rlim ret Hr Hret. unfold update_limits.
  destruct (Z.ltb_spec (req_fd_n g) rlim); [lia|].
  destruct (Z.eqb_spec ret 0); [contradiction|]. cbn [negb].
  destruct (_ =? 0); reflexivity.
Qed.

Lemma update_limits_divides_the_request_witness :
  1024 <= req_fd_n g512 /\ -1 <> 0 /\
  fst (update_limits g512 1024 (-1)) =
    Returns {| n_peers := 4; n_threads := 512;
               n_hs := 2 ^ 64 - 1; timeout := 0 |}.
Proof.
  assert (1024 <= req_fd_n g512) as Hr by (vm_compute; discriminate).
  assert (-1 <> 0) as Hn by discriminate.
  destruct update_limits_divides_the_request as [Hg _].
  split; [exact Hr|]. split; [exact Hn|].
  rewrite (Hg g512 1024 (-1) Hr Hn). reflexivity.
Defined.

(** On a store that is not empty (and shorter than 2^64 / 95) the four
    reads of the latency line are inside the sorted vector and the
    divisor is not zero. *)
Lemma latency_reads_defined (store : list Z) (acc : Z) :
  store <> [] -> Z.of_nat (length store) * 95 < 2 ^ 64 ->
  let lats := std_sort less_int32 store in
  let lsz := Z.of_nat (length store) in
  exists mn av p95 mx,
    vec_front lats = Some mn /\ udiv acc lsz = Some av /\
    vec_at lats (u64 (lsz * 95) / 100) = Some p95 /\
    vec_back lats = Some mx.
Proof.
  intros Hne Hsz. cbv zeta.
  pose proof (std_sort_perm less_int32 store) as Hp.
  assert (Hlen : length (std_sort less_int32 store) = length store)
    by (by rewrite Hp).
  assert (Hpos : (0 < length store)%nat)
    by (destruct store; [done|cbn; lia]).
  set (lats := std_sort less_int32 store) in *.
  destruct lats as [|x l] eqn:El; [cbn in Hlen; lia|].
  assert (Hlast : is_Some (last (x :: l))).
  { rewrite last_is_Some. discriminate. }
  destruct Hlast as [mx Hmx].
  unfold udiv. destruct (Z.eqb_spec (Z.of_nat (length store)) 0); [lia|].
  rewrite u64_small by lia.
  unfold vec_at.
  assert (Hq : 0 <= Z.of_nat (length store) * 95 / 100
               < Z.of_nat (length store)).
  { split; [apply Z.div_pos; lia|apply Z.div_lt_upper_bound; lia]. }
  destruct (Z.ltb_spec (Z.of_nat (length store) * 95 / 100) 0); [lia|].
  destruct (lookup_lt_is_Some_2 (x :: l)
              (Z.to_nat (Z.of_nat (length store) * 95 / 100)))
    as [p Hp95]; [rewrite Hlen; lia|].
  exists x, (acc / Z.of_nat (length store)), p, mx.
  split; [reflexivity|]. split; [reflexivity|]. split; [exact Hp95|].
  exact Hmx.
Qed.

(** C10.  [statistics_dump] takes its error-and-return branch exactly
    when the start flag is unset or the throughput history is empty.  Past
    that guard, whatever the latency store holds, it sorts the store in
    place and the latency line is made of [front()], [acc_lat / size], the
    element at [size * 95 / 100] and [back()] of the sorted store; none of
    them is guarded.  [None] stands for a read outside the vector or a
    division by zero, which are undefined in the source: on an empty store
    all four are, [front()] being the first that the output statement
    evaluates, and on a store that is not empty none is.  The run
    [stalled] ends in a report read from an empty store. *)
Theorem report_reads_empty_latency_store :
  (forall w,
     snd (statistics_dump w) = NotEnough <->
     start_stats w = false \/ hs_history (stat w) = []) /\
  (forall w,
     start_stats w = true -> hs_history (stat w) <> [] ->
     let store := ls_stat (g_lat_stat w) in
     let lats := std_sort less_int32 store in
     let lsz := Z.of_nat (length store) in
     exists r,
       snd (statistics_dump w) = Printed r /\
       ls_stat (g_lat_stat (fst (statistics_dump w))) = lats /\
       r_lat_min r = vec_front lats /\
       r_lat_avg r = udiv (acc_lat (g_lat_stat w)) lsz /\
       r_lat_p95 r = vec_at lats (u64 (lsz * 95) / 100) /\
       r_lat_max r = vec_back lats /\
       (store = [] ->
        r_lat_min r = None /\ r_lat_avg r = None /\
        r_lat_p95 r = None /\ r_lat_max r = None) /\
       (store <> [] -> lsz * 95 < 2 ^ 64 ->
        exists mn av p95 mx,
          r_lat_min r = Some mn /\ r_lat_avg r = Some av /\
          r_lat_p95 r = Some p95 /\ r_lat_max r = Some mx)) /\
  reaches g1 stalled
    (fun m =>
       hs_history (stat (wld m)) = [0] /\
       ls_stat (g_lat_stat (wld m)) = [] /\
       exists r,
         final m = Some (Printed r) /\
         r_lat_min r = None /\ r_lat_avg r = None /\
         r_lat_p95 r = None /\ r_lat_max r = None).
Proof.
  split; [apply statistics_dump_not_enough|]. split.
  - intros w Hs Hh. cbv zeta.
    destruct (statistics_dump_printed w Hs Hh) as (w' & Hd & _ & Hg & _).
    rewrite Hd. cbn [fst snd]. eexists. split; [reflexivity|].
    rewrite Hg. cbn [ls_stat r_lat_min r_lat_avg r_lat_p95 r_lat_max].
    do 5 (split; [reflexivity|]). split.
    + intros ->. by repeat split.
    + intros Hne Hsz. by apply latency_reads_defined.
  - vm_compute. split; [reflexivity|]. split; [reflexivity|].
    eexists. split; [reflexivity|]. by repeat split.
Qed.

Lemma report_reads_empty_latency_store_witness :
  start_stats (world_recorded 1) = true /\
  hs_history (stat (world_recorded 1)) <> [] /\
  ls_stat (g_lat_stat (world_recorded 1)) = [] /\
  snd (statistics_dump world0) = NotEnough /\
  (exists r,
     snd (statistics_dump (world_recorded 1)) = Printed r /\
     r_lat_min r = None /\ r_lat_avg r = None /\
     r_lat_p95 r = None /\ r_lat_max r = None) /\
  exists r,
    snd (statistics_dump
           (set_g_lat_stat {| ls_stat := [120; 100]; acc_lat := 220 |}
              (world_recorded 1))) = Printed r /\
    r_lat_min r = Some 100 /\ r_lat_avg r = Some 110 /\
    r_lat_p95 r = Some 120 /\ r_lat_max r = Some 120.
Proof.
  destruct report_reads_empty_latency_store as (Hguard & Hread & _).
  assert (hs_history (stat (world_recorded 1)) <> []) as Hh
    by (vm_compute; discriminate).
  split; [reflexivity|]. split; [exact Hh|]. split; [reflexivity|].
  split; [apply Hguard; by left|]. split.
  - destruct (Hread (world_recorded 1) eq_refl Hh)
      as (r & Hr & _ & _ & _ & _ & _ & Hnone & _).
    exists r. split; [exact Hr|]. apply Hnone. reflexivity.
  - destruct (Hread (set_g_lat_stat
                       {| ls_stat := [120; 100]; acc_lat := 220 |}
                       (world_recorded 1)) eq_refl Hh)
      as (r & Hr & _ & Hmin & Havg & Hp & Hmax & _).
    exists r. split; [exact Hr|].
    split; [exact Hmin|]. split; [exact Havg|]. split; [exact Hp|exact Hmax].
Defined.

(** ** Invariants of a run *)

Section Machine.

Variable g : options.

Lemma stat_inv_ext s s' :
  driver_part s' = driver_part s -> stat_inv s -> stat_inv s'.
Proof.
  unfold driver_part, stat_inv. intros H. injection H as _ -> -> _ ->. auto.
Qed.

Lemma avg_inv_ext s s' :
  driver_part s' = driver_part s -> avg_inv s -> avg_inv s'.
Proof.
  unfold driver_part, avg_inv. intros H. injection H as -> -> _ -> _. auto.
Qed.

Lemma ring_ok_update s x : ring_ok s -> ring_ok (fst (LatencyStat.update s (u64 x))).
Proof.
  intros [Hs Hr]. split; [by apply update_inv|].
  unfold LatencyStat.update.
  assert (0 <= u64 x < 2 ^ 64) as Hx
    by (unfold u64, wrap_u; apply Z.mod_pos_bound; lia).
  destruct (u64 x =? 0); [exact Hr|].
  destruct (LATENCY_N <=? _); cbn [fst LatencyStat.stat_];
    by apply Forall_insert.
Qed.

Lemma world_inv_frame e w w' :
  world_inv w -> worker_frame w w' -> lat_step e w w' -> world_inv w'.
Proof.
  intros (Hs & Hr & Hg) (Hgl & _ & _ & _ & Hd) Hl. split; [|split].
  - by eapply stat_inv_ext.
  - destruct Hl as [-> | ->]; [exact Hr|by apply ring_ok_update].
  - by rewrite Hgl.
Qed.

Lemma bump_world b m :
  wld (bump g b m) = wld m /\ w_pc (bump g b m) = w_pc m /\
  d_pc (bump g b m) = d_pc m /\ final (bump g b m) = final m.
Proof. unfold bump. by destruct (b && _). Qed.

Lemma advance_world e sh m m' :
  advance g e sh m = Ret m' ->
  w_pc m' = w_pc m /\ (d_pc m' = d_pc m /\ final m' = final m) /\
  worker_frame (wld m) (wld m') /\ lat_step e (wld m) (wld m').
Proof.
  unfold advance. destruct (peer_at (all_peers m) sh) as [p|].
  - cbn [mbind result_bind].
    destruct (Peer.next_state e p (wld m)) as [[[b p'] w']|] eqn:Hns;
      [|discriminate].
    intros H. injection H as <-.
    destruct (bump_world b (with_wld w'
      (with_all_peers (<[Z.to_nat sh:=p']> (all_peers m)) m)))
      as (-> & -> & -> & ->).
    apply next_state_frame in Hns. tauto.
  - intros H. injection H as <-.
    repeat split; try reflexivity. by left.
Qed.

Lemma create_peer_world e m m' :
  create_peer g e m = Ret m' ->
  w_pc m' = w_pc m /\ (d_pc m' = d_pc m /\ final m' = final m) /\
  worker_frame (wld m) (wld m') /\ lat_step e (wld m) (wld m').
Proof.
  unfold create_peer, Peer.create, Peer.dbg_status.
  cbn [mbind result_bind].
  match goal with |- context [Peer.next_state e ?p ?w] =>
    destruct (Peer.next_state e p w) as [[[b p'] w']|] eqn:Hns;
      [|discriminate] end.
  intros H. injection H as <-. cbn [with_new_peers w_pc d_pc final wld].
  match goal with |- context [bump g b ?m1] =>
    destruct (bump_world b m1) as (-> & -> & -> & ->) end.
  apply next_state_frame in Hns. destruct Hns as [Hf Hl].
  cbn [with_wld with_all_peers w_pc d_pc final wld].
  unfold worker_frame, lat_step in *. simpl in *. tauto.
Qed.

Lemma nonzero_prefix_length l : (length (nonzero_prefix l) <= length l)%nat.
Proof.
  induction l as [|x l IH]; simpl; [lia|].
  destruct (x =? 0); simpl; lia.
Qed.

Lemma nonzero_prefix_range l :
  Forall (fun v => 0 <= v < 2 ^ 64) l ->
  Forall (fun v => 0 < v < 2 ^ 64) (nonzero_prefix l).
Proof.
  induction 1 as [|x l Hx Hl IH]; simpl; [constructor|].
  destruct (Z.eqb_spec x 0); constructor; [lia|exact IH].
Qed.

Lemma store_ok_dump s : ring_ok s -> store_ok (LatencyStat.dump s g_lat_stat0).
Proof.
  intros [(_ & _ & Hlen) Hr]. unfold LatencyStat.dump.
  rewrite dump_loop_spec. unfold store_ok. cbn [ls_stat acc_lat g_lat_stat0].
  split; [by apply nonzero_prefix_range|]. split.
  - rewrite fold_u64_sum by lia. reflexivity.
  - rewrite <- Hlen. apply nonzero_prefix_length.
Qed.

Lemma delete_all_frame e ps : forall w,
  let w' := delete_all e ps w in
  stat w' = stat w /\ lat_stat w' = lat_stat w /\
  g_lat_stat w' = g_lat_stat w /\ finish w' = finish w /\
  start_stats w' = start_stats w /\ io w' = io w.
Proof.
  induction ps as [|p ps IH]; intros w; simpl; [by repeat split|].
  specialize (IH (snd (Peer.disconnect e p w))). simpl in IH.
  destruct (disconnect_spec e p w) as (-> & -> & -> & -> & -> & -> & _) in IH.
  exact IH.
Qed.

Lemma world0_inv : world_inv world0.
Proof.
  split; [|split].
  - unfold stat_inv; simpl. repeat split; try lia. constructor.
  - split; [apply init_inv|].
    unfold world0, LatencyStat.init. cbn [lat_stat LatencyStat.stat_].
    apply Forall_replicate. lia.
  - unfold store_ok; simpl. repeat split; try lia; constructor.
Qed.

Lemma machine0_machine_inv : machine_inv (machine0 g).
Proof.
  split; [apply world0_inv|]. split; [reflexivity|]. simpl. by left.
Qed.


Lemma world_inv_same w w' :
  stat w' = stat w -> lat_stat w' = lat_stat w ->
  g_lat_stat w' = g_lat_stat w -> world_inv w -> world_inv w'.
Proof. unfold world_inv. by intros -> -> ->. Qed.

Lemma wait_backlog e io0 io1 :
  IO.wait e io0 = Ret io1 -> IO.backlog_ io1 = IO.backlog_ io0.
Proof.
  unfold IO.wait. generalize (wait_eintr e) as n.
  induction n as [|n IH]; simpl; [|exact IH].
  destruct (wait_ret e <? 0); [discriminate|].
  intros H. by injection H as <-.
Qed.

Lemma next_sk_backlog io0 :
  IO.backlog_ (snd (IO.next_sk io0)) = IO.backlog_ io0.
Proof. unfold IO.next_sk. by destruct (IO.ev_count_ io0 =? 0). Qed.

Lemma end_iteration_world m :
  let m' := end_iteration g m in
  w_pc m' = AtTop /\ (d_pc m' = d_pc m /\ final m' = final m) /\
  stat (wld m') = stat (wld m) /\ lat_stat (wld m') = lat_stat (wld m) /\
  g_lat_stat (wld m') = g_lat_stat (wld m) /\
  io (wld m') = io (wld m) /\ finish (wld m') = finish (wld m).
Proof.
  unfold end_iteration. destruct (_ && _); by repeat split.
Qed.

Lemma worker_step_machine_inv e m m' :
  machine_inv m -> worker_step g e m = Ret m' -> machine_inv m'.
Proof.
  intros (Hw & Hg & Hb) H. unfold worker_step in H.
  destruct (w_pc m) eqn:Hpc.
  - (* AtTop *)
    destruct (end_of_work g (wld m)) eqn:He; injection H as <-.
    + unfold thread_exit.
      destruct (delete_all_frame e (all_peers m) (wld m))
        as (Hs & Hl & Hgl & _).
      split; [|split; [intros Hn; by destruct Hn|exact I]].
      cbn [wld at_pc with_wld]. destruct Hw as (Hst & Hr & _).
      split; [|split]; cbn [stat lat_stat g_lat_stat set_g_lat_stat].
      * by rewrite Hs.
      * by rewrite Hl.
      * rewrite Hl, Hgl, Hg by discriminate. by apply store_ok_dump.
    + split; [exact Hw|]. split; [intros _; apply Hg; discriminate|].
      cbn [w_pc at_pc wld].
      unfold end_of_work in He. apply orb_false_elim in He as [Hf _].
      destruct Hb as [Hb|Hb]; [exact Hb|congruence].
  - (* AtCreate *)
    destruct ((active_peers m <? n_peers g) && negb (new_peers m =? 0)).
    + apply create_peer_world in H as (Hpc' & _ & Hf & Hl).
      split; [by eapply world_inv_frame|].
      destruct Hf as (Hgl & _ & _ & Hbl & _).
      rewrite Hpc', Hpc, Hgl, Hbl.
      split; [intros _; apply Hg; discriminate|exact Hb].
    + destruct (IO.wait e (io (wld m))) as [io1|] eqn:Hwt; [|discriminate].
      injection H as <-. apply wait_backlog in Hwt.
      split; [exact Hw|]. split; [intros _; apply Hg; discriminate|].
      cbn [w_pc at_pc with_wld wld io set_io]. congruence.
  - (* AtReady *)
    pose proof (next_sk_backlog (io (wld m))) as Hnb.
    destruct (IO.next_sk (io (wld m))) as [[sh|] io1]; cbn [snd] in Hnb.
    + apply advance_world in H as (Hpc' & _ & Hf & Hl).
      cbn [w_pc wld with_wld] in *.
      split; [eapply world_inv_frame; [|exact Hf|exact Hl]; exact Hw|].
      destruct Hf as (Hgl & _ & _ & Hbl & _).
      rewrite Hpc', Hpc, Hgl, Hbl.
      split; [intros _; apply Hg; discriminate|].
      cbn [io set_io]. congruence.
    + injection H as <-.
      split; [exact Hw|]. split; [intros _; apply Hg; discriminate|exact I].
  - (* AtDrain *)
    destruct (finish (wld m)) eqn:Hfin.
    + injection H as <-.
      destruct (end_iteration_world m) as (Hp & _ & Hs & Hl & Hgl & _ & Hf).
      split; [by eapply world_inv_same|]. rewrite Hp, Hgl, Hf.
      split; [intros _; apply Hg; discriminate|by right].
    + unfold IO.next_backlog in H.
      destruct (IO.backlog_ (io (wld m))) as [|sh rest] eqn:Hbl.
      * injection H as <-.
        match goal with |- machine_inv (end_iteration g ?m1) =>
          destruct (end_iteration_world m1) as (Hp & _ & Hs & Hl & Hgl & Hio & Hf)
        end.
        cbn [wld with_wld stat lat_stat g_lat_stat io set_io finish] in *.
        split; [by eapply world_inv_same|]. rewrite Hp, Hgl, Hio.
        split; [intros _; apply Hg; discriminate|by left].
      * apply advance_world in H as (Hpc' & _ & Hf & Hl).
        cbn [w_pc wld with_wld] in *.
        split; [eapply world_inv_frame; [|exact Hf|exact Hl]; exact Hw|].
        destruct Hf as (Hgl & _).
        rewrite Hpc', Hpc, Hgl.
        split; [intros _; apply Hg; discriminate|exact I].
  - injection H as <-. split; [exact Hw|]. rewrite Hpc. by split.
Qed.


Lemma stat_inv_perm s s' :
  max_hs s' = max_hs s -> min_hs s' = min_hs s ->
  hs_history s' ≡ₚ hs_history s -> stat_inv s -> stat_inv s'.
Proof.
  unfold stat_inv. intros -> -> Hp (? & ? & Hall & Hlen).
  split; [done|]. split; [done|]. split; [by rewrite Hp|].
  by rewrite (Permutation_length Hp).
Qed.

Lemma store_ok_perm g0 g1 :
  ls_stat g1 ≡ₚ ls_stat g0 -> acc_lat g1 = acc_lat g0 ->
  store_ok g0 -> store_ok g1.
Proof.
  unfold store_ok. intros Hp -> (Hall & -> & Hlen).
  split; [by rewrite Hp|]. split; [by rewrite (zsum_perm _ _ Hp)|].
  by rewrite (Permutation_length Hp).
Qed.

Lemma statistics_update_world_inv dt w :
  world_inv w -> world_inv (statistics_update dt w).
Proof.
  intros (Hs & Hr & Hg).
  destruct (statistics_update_frame dt w) as (_ & Hl & Hgl & _).
  split; [by apply statistics_update_stat_inv|].
  by rewrite Hl, Hgl.
Qed.

Lemma statistics_dump_world_inv w :
  world_inv w -> world_inv (fst (statistics_dump w)).
Proof.
  intros (Hs & Hr & Hg).
  destruct (statistics_dump_frame w)
    as (_ & Hl & _ & _ & _ & Hx & Hn & _ & Hh & Hp & Ha).
  split; [by eapply stat_inv_perm|]. split; [by rewrite Hl|].
  by eapply store_ok_perm.
Qed.

Lemma driver_step_machine_inv dt el m :
  machine_inv m -> machine_inv (driver_step g dt el m).
Proof.
  intros Hinv. pose proof Hinv as (Hw & Hg & Hb). unfold driver_step.
  destruct (d_pc m).
  - by destruct (end_of_work g (wld m)).
  - destruct (statistics_update_frame dt (wld m))
      as (Hio & _ & Hgl & Hfin & _).
    set (w1 := statistics_update dt (wld m)) in *.
    assert (world_inv w1) as Hw1 by by apply statistics_update_world_inv.
    assert (forall w2, stat w2 = stat w1 -> lat_stat w2 = lat_stat w1 ->
              g_lat_stat w2 = g_lat_stat w1 -> io w2 = io w1 ->
              (finish w2 = finish w1 \/ finish w2 = true) ->
              machine_inv (with_driver DTest None (with_wld w2 m))) as Hk.
    { intros w2 Hs2 Hl2 Hg2 Hio2 Hf2.
      split; [by eapply world_inv_same|].
      cbn [w_pc wld with_driver with_wld]. rewrite Hg2, Hgl, Hio2, Hio.
      split; [exact Hg|].
      destruct (w_pc m); try exact Hb.
      destruct Hb as [Hb|Hb]; [by left|right].
      destruct Hf2 as [->| ->]; congruence. }
    destruct (negb (timeout g =? 0) && (timeout g <=? el)).
    + apply Hk; try reflexivity. by right.
    + apply Hk; try reflexivity. by left.
  - destruct (w_pc m) eqn:Hpc; try exact Hinv.
    destruct (statistics_dump (wld m)) as [w1 r] eqn:Hd.
    pose proof (statistics_dump_world_inv (wld m) Hw) as Hw1.
    rewrite Hd in Hw1. cbn [fst] in Hw1.
    split; [exact Hw1|]. cbn [w_pc with_driver with_wld]. rewrite Hpc.
    split; [intros Hn; by destruct Hn|exact I].
  - exact Hinv.
Qed.

Lemma step_machine_inv i m m' :
  machine_inv m -> step g i m = Ret m' -> machine_inv m'.
Proof.
  intros Hinv H. destruct i as [e|dt el|]; simpl in H.
  - by eapply worker_step_machine_inv.
  - injection H as <-. by apply driver_step_machine_inv.
  - injection H as <-. destruct Hinv as (Hw & Hg & Hb).
    split; [exact Hw|]. split; [exact Hg|].
    cbn [w_pc wld with_wld io finish set_finish].
    destruct (w_pc m); try exact Hb. by right.
Qed.

Lemma run_machine_inv ins : forall m m',
  machine_inv m -> run g ins m = Ret m' -> machine_inv m'.
Proof.
  induction ins as [|i ins IH]; intros m m' Hinv H; simpl in H.
  - by injection H as <-.
  - destruct (step g i m) as [m1|] eqn:Hs; [|discriminate].
    eapply IH; [|exact H]. by eapply step_machine_inv.
Qed.

(** A step of the worker leaves the driver's part of [stat] alone. *)
Lemma worker_step_driver_part e m m' :
  worker_step g e m = Ret m' ->
  driver_part (stat (wld m')) = driver_part (stat (wld m)).
Proof.
  intros H. unfold worker_step in H.
  destruct (w_pc m).
  - destruct (end_of_work g (wld m)); injection H as <-; [|reflexivity].
    unfold thread_exit. cbn [wld at_pc with_wld stat set_g_lat_stat].
    destruct (delete_all_frame e (all_peers m) (wld m)) as (-> & _).
    reflexivity.
  - destruct (_ && _).
    + apply create_peer_world in H as (_ & _ & Hf & _). apply Hf.
    + destruct (IO.wait e (io (wld m))); [|discriminate].
      by injection H as <-.
  - destruct (IO.next_sk (io (wld m))) as [[sh|] io1].
    + apply advance_world in H as (_ & _ & Hf & _). apply Hf.
    + by injection H as <-.
  - destruct (finish (wld m)).
    + injection H as <-.
      destruct (end_iteration_world m) as (_ & _ & -> & _). reflexivity.
    + destruct (IO.next_backlog (io (wld m))) as [[sh|] io1].
      * apply advance_world in H as (_ & _ & Hf & _). apply Hf.
      * injection H as <-.
        match goal with |- context [end_iteration g ?m1] =>
          destruct (end_iteration_world m1) as (_ & _ & -> & _) end.
        reflexivity.
  - by injection H as <-.
Qed.

Lemma step_avg_inv i m m' :
  step g i m = Ret m' ->
  match i, d_pc m with
  | Driver dt _, DSleep => tick_defined dt (wld m)
  | _, _ => true
  end = true ->
  avg_inv (stat (wld m)) -> avg_inv (stat (wld m')).
Proof.
  intros H Ht Ha. destruct i as [e|dt el|]; simpl in H.
  - eapply avg_inv_ext; [|exact Ha]. by eapply worker_step_driver_part.
  - injection H as <-. unfold driver_step.
    destruct (d_pc m).
    + by destruct (end_of_work g (wld m)).
    + pose proof (statistics_update_avg_inv dt (wld m) Ht Ha) as Ha'.
      by destruct (negb (timeout g =? 0) && (timeout g <=? el)).
    + destruct (w_pc m); try exact Ha.
      destruct (statistics_dump_frame (wld m))
        as (_ & _ & _ & _ & Hm & Hx & _ & Hv & _).
      destruct (statistics_dump (wld m)) as [w1 r]. cbn [fst] in *.
      unfold avg_inv in *. cbn [wld with_driver with_wld].
      by rewrite Hm, Hx, Hv.
    + exact Ha.
  - by injection H as <-.
Qed.

Lemma run_avg_inv ins : forall m m',
  run g ins m = Ret m' -> ticks_defined g ins m = true ->
  avg_inv (stat (wld m)) -> avg_inv (stat (wld m')).
Proof.
  induction ins as [|i ins IH]; intros m m' H Ht Ha; simpl in H, Ht.
  - by injection H as <-.
  - destruct (step g i m) as [m1|] eqn:Hs; [|discriminate].
    apply andb_prop in Ht as [Ht1 Ht2].
    eapply IH; [exact H|exact Ht2|]. by eapply step_avg_inv.
Qed.


Lemma p95_index n : (0 < n)%nat ->
  (Z.to_nat (Z.of_nat n * 95 / 100) < n)%nat.
Proof.
  intros Hn.
  assert (0 <= Z.of_nat n * 95 / 100 < Z.of_nat n).
  { split; [apply Z.div_pos; lia|].
    apply Z.div_lt_upper_bound; lia. }
  lia.
Qed.

Lemma vec_at_p95 (v : list Z) :
  v <> [] -> (length v <= 3601)%nat ->
  exists x, vec_at v (u64 (Z.of_nat (length v) * 95) / 100) = Some x /\ x ∈ v.
Proof.
  intros Hv Hlen.
  assert (0 < length v)%nat as Hpos by (destruct v; [done|simpl; lia]).
  rewrite u64_small by lia. unfold vec_at.
  destruct (Z.ltb_spec (Z.of_nat (length v) * 95 / 100) 0) as [Hneg|_].
  { assert (0 <= Z.of_nat (length v) * 95 / 100)
      by (apply Z.div_pos; lia). lia. }
  destruct (lookup_lt_is_Some_2 v _ (p95_index _ Hpos)) as [x Hx].
  exists x. split; [exact Hx|]. by eapply list_elem_of_lookup_2.
Qed.

(** The inequalities that the report satisfies. *)
Lemma report_order_world w w' r :
  statistics_dump w = (w', Printed r) ->
  world_inv w -> avg_inv (stat w) ->
  store_small (ls_stat (g_lat_stat w)) ->
  report_ordered r.
Proof.
  intros Hd ((Hmax & Hmin & Hhist & Hhlen) & _ & (Hpos & Hacc & Hllen))
    (_ & _ & Havg) [Hsmall Hne]. unfold report_ordered.
  unfold LATENCY_N in Hllen.
  assert (start_stats w = true /\ hs_history (stat w) <> []) as [Hs Hh].
  { pose proof (statistics_dump_not_enough w) as Hn. rewrite Hd in Hn.
    cbn [snd] in Hn. split.
    - destruct (start_stats w) eqn:Hs; [done|].
      discriminate (proj2 Hn (or_introl eq_refl)).
    - intros He. discriminate (proj2 Hn (or_intror He)). }
  destruct (statistics_dump_printed w Hs Hh) as (w1 & Hd1 & _).
  rewrite Hd in Hd1. injection Hd1 as _ ->. cbn [r_p95_hs r_lat_min
    r_lat_avg r_lat_p95 r_lat_max r_max_hs r_avg_hs r_min_hs].
  set (hist := std_sort greater_int32 (hs_history (stat w))).
  set (store := ls_stat (g_lat_stat w)) in *.
  set (lats := std_sort less_int32 store).
  assert (hist ≡ₚ hs_history (stat w)) as Hph by apply std_sort_perm.
  assert (lats ≡ₚ store) as Hpl by apply std_sort_perm.
  (* throughput *)
  destruct (vec_at_p95 hist) as (p95 & Hp95 & Hin).
  { intros He. rewrite He in Hph. by apply Permutation_nil_l in Hph. }
  { by rewrite (Permutation_length Hph). }
  rewrite (Permutation_length Hph) in Hp95.
  assert (p95 <= max_hs (stat w)) as Hp95le.
  { rewrite Hph in Hin. rewrite Forall_forall in Hhist. by apply Hhist. }
  (* latency: the store is ordered by value *)
  assert (Forall (fun v => 0 < v < 2 ^ 31) lats) as Hrange.
  { rewrite Hpl. apply Forall_and. split; [|exact Hsmall].
    eapply Forall_impl; [exact Hpos|]. intros v Hv; simpl in *; lia. }
  assert (StronglySorted (key_le i32) lats) as Hsorted
    by (apply (std_sort_sorted i32); reflexivity).
  assert (lats <> []) as Hlne.
  { intros He. rewrite He in Hpl. by apply Permutation_nil_l in Hpl. }
  assert (length lats = length store) as Hlen
    by by rewrite (Permutation_length Hpl).
  assert (forall x y, x ∈ lats -> y ∈ lats -> key_le i32 x y -> x <= y)
    as Hkey.
  { intros x y Hx Hy. unfold key_le. rewrite Forall_forall in Hrange.
    rewrite !i32_small; [done|..].
    - specialize (Hrange y Hy); simpl in Hrange. lia.
    - specialize (Hrange x Hx); simpl in Hrange. lia. }
  destruct lats as [|lmin rest] eqn:Hlats; [done|].
  rewrite <- Hlats in *.
  assert (vec_front lats = Some lmin) as Hfront by by rewrite Hlats.
  destruct (last lats) as [lmax|] eqn:Hlast;
    [|apply last_None in Hlast; done].
  assert (lmin ∈ lats) as Hminin by (rewrite Hlats; apply list_elem_of_here).
  assert (lmax ∈ lats) as Hmaxin.
  { apply last_Some in Hlast as [l' ->]. apply elem_of_app. right.
    apply list_elem_of_here. }
  assert (forall x, x ∈ lats -> lmin <= x <= lmax) as Hbetween.
  { intros x Hx. split.
    - apply Hkey; [done..|]. by eapply sorted_head.
    - apply Hkey; [done..|]. by eapply sorted_last. }
  destruct (vec_at_p95 lats Hlne) as (lp95 & Hlp95 & Hlin); [lia|].
  rewrite Hlen in Hlp95.
  (* the average *)
  assert (0 < Z.of_nat (length store)) as Hlpos.
  { rewrite <- Hlen, Hlats. simpl. lia. }
  assert (lmin * Z.of_nat (length store) <= zsum store
          <= lmax * Z.of_nat (length store)) as Hsum.
  { rewrite <- (zsum_perm _ _ Hpl), <- Hlen. apply zsum_bounds.
    rewrite Forall_forall. exact Hbetween. }
  assert (0 < lmin /\ lmax < 2 ^ 31) as [Hlo Hhi].
  { rewrite Forall_forall in Hrange.
    pose proof (Hrange _ Hminin). pose proof (Hrange _ Hmaxin).
    simpl in *. lia. }
  assert (acc_lat (g_lat_stat w) = zsum store) as Hacc'.
  { rewrite Hacc. apply u64_small. nia. }
  exists p95, lmin, (zsum store / Z.of_nat (length store)), lp95, lmax.
  split; [exact Hp95|]. split; [exact Hfront|].
  split.
  { unfold udiv. rewrite Hacc'.
    destruct (Z.eqb_spec (Z.of_nat (length store)) 0); [lia|done]. }
  split; [exact Hlp95|]. split; [exact Hlast|].
  split; [exact Hp95le|]. split; [exact Havg|]. split; [exact Hmin|].
  split; [|by apply Hbetween].
  split.
  - apply Z.div_le_lower_bound; lia.
  - apply Z.div_le_upper_bound; lia.
Qed.

End Machine.

(** ** The cap of the history *)

(** C3.  [statistics_update] lets the history grow to 3601 samples, not
    3600: a call that finds 3600 stored samples prints the warning that
    the history will not be stored and then appends its sample all the
    same; only from 3601 stored samples on is a sample dropped (and then
    without a warning).  In the run [long_run] the driver takes 3601
    samples and all of them are in the history; no run stores more. *)
Theorem history_keeps_3601_samples :
  (forall dt w,
     start_stats w = true -> length (hs_history (stat w)) = 3600%nat ->
     let w' := statistics_update dt w in
     hs_history (stat w') =
       hs_history (stat w) ++ [curr_hs (tls_connections (stat w)) dt] /\
     last (out w') =
       Some (Cerr "WARNING: benchmark is running for too long last history won't be stored" [])) /\
  (forall dt w,
     start_stats w = true -> length (hs_history (stat w)) = 3601%nat ->
     let w' := statistics_update dt w in
     hs_history (stat w') = hs_history (stat w) /\
     exists line, out w' = out w ++ [line]) /\
  reaches g1 long_run
    (fun m => length (hs_history (stat (wld m))) = 3601%nat) /\
  (forall g ins m,
     run g ins (machine0 g) = Ret m ->
     (length (hs_history (stat (wld m))) <= 3601)%nat).
Proof.
  split; [|split; [|split]].
  - intros dt w Hs Hl. cbv zeta.
    destruct (statistics_update_on dt w Hs) as (_ & _ & _ & _ & ->).
    destruct (statistics_update_out dt w Hs) as (line & ->).
    rewrite Hl. split; [reflexivity|].
    cbn [Nat.eqb]. rewrite last_snoc. reflexivity.
  - intros dt w Hs Hl. cbv zeta.
    destruct (statistics_update_on dt w Hs) as (_ & _ & _ & _ & ->).
    destruct (statistics_update_out dt w Hs) as (line & ->).
    rewrite Hl. split; [reflexivity|].
    exists line. cbn [Nat.eqb]. by rewrite app_nil_r.
  - unfold reaches, long_run. rewrite run_app.
    destruct (run g1 (take 6 suspended) (machine0 g1)) as [m6|] eqn:H6;
      [|vm_compute in H6; discriminate].
    cbn [mbind result_bind].
    assert (d_pc m6 = DTest /\ end_of_work g1 (wld m6) = false /\
            start_stats (wld m6) = true /\ hs_history (stat (wld m6)) = [])
      as (Hd & He & Hs & Hh)
      by (vm_compute in H6; injection H6 as <-; by repeat split).
    destruct (run_ticks g1 1000 1 3601 m6 eq_refl Hd He) as (m & -> & ->).
    rewrite recorded_length;
      [rewrite Hh; reflexivity|exact Hs|rewrite Hh; simpl; lia].
  - intros g ins m Hrun.
    pose proof (run_machine_inv g ins _ _ (machine0_machine_inv g) Hrun)
      as ((Hst & _) & _).
    apply Hst.
Qed.

Lemma history_keeps_3601_samples_witness :
  start_stats (world_recorded 3600) = true /\
  length (hs_history (stat (world_recorded 3600))) = 3600%nat /\
  length (hs_history (stat (statistics_update 1000 (world_recorded 3600))))
    = 3601%nat /\
  length (hs_history (stat (statistics_update 1000 (world_recorded 3601))))
    = 3601%nat.
Proof.
  assert (forall n, start_stats (world_recorded n) = true) as Hs.
  { intros n. unfold world_recorded.
    destruct (recorded_frame 1000 n (set_start_stats true world0))
      as (-> & _). reflexivity. }
  assert (forall n, length (hs_history (stat (world_recorded n)))
                    = Nat.min n 3601) as Hl.
  { intros n. unfold world_recorded.
    rewrite recorded_length; [reflexivity|reflexivity|simpl; lia]. }
  destruct history_keeps_3601_samples as (Hat & Hover & _ & _).
  split; [apply Hs|]. split; [rewrite Hl; reflexivity|]. split.
  - destruct (Hat 1000 (world_recorded 3600)) as [-> _];
      [apply Hs|rewrite Hl; reflexivity|].
    rewrite length_app, Hl. reflexivity.
  - destruct (Hover 1000 (world_recorded 3601)) as [-> _];
      [apply Hs|rewrite Hl; reflexivity|].
    rewrite Hl. reflexivity.
Defined.

(** ** The final report *)

Section FinalReport.
Variable g : options.

Lemma store_small_perm l l' : l ≡ₚ l' -> store_small l -> store_small l'.
Proof.
  intros Hp [Hs Hn]. split; [by rewrite <- Hp|].
  intros ->. by apply Permutation_nil_r in Hp.
Qed.

Lemma worker_step_final e m m' :
  worker_step g e m = Ret m' ->
  final m' = final m /\ d_pc m' = d_pc m /\
  (w_pc m = AtDone -> m' = m).
Proof.
  intros H. unfold worker_step in H.
  destruct (w_pc m).
  - destruct (end_of_work g (wld m)); injection H as <-;
      by repeat split.
  - destruct (_ && _).
    + apply create_peer_world in H as (_ & (? & ?) & _). by repeat split.
    + destruct (IO.wait e (io (wld m))); [|discriminate].
      injection H as <-. by repeat split.
  - destruct (IO.next_sk (io (wld m))) as [[sh|] io1].
    + apply advance_world in H as (_ & (? & ?) & _). by repeat split.
    + injection H as <-. by repeat split.
  - destruct (finish (wld m)).
    + injection H as <-.
      destruct (end_iteration_world g m) as (_ & (? & ?) & _).
      by repeat split.
    + destruct (IO.next_backlog (io (wld m))) as [[sh|] io1].
      * apply advance_world in H as (_ & (? & ?) & _). by repeat split.
      * injection H as <-.
        match goal with |- context [end_iteration g ?m1] =>
          destruct (end_iteration_world g m1) as (_ & (? & ?) & _) end.
        by repeat split.
  - injection H as <-. by repeat split.
Qed.

Lemma step_final_inv i m m' :
  step g i m = Ret m' ->
  machine_inv m -> avg_inv (stat (wld m)) ->
  final_inv m -> final_inv m'.
Proof.
  intros H Hm Ha Hf. destruct i as [e|dt el|]; simpl in H.
  - destruct (worker_step_final e m m' H) as (Hfin & Hd & Hdone).
    unfold final_inv in *. rewrite Hfin.
    destruct (final m) as [o|]; [|exact I].
    destruct Hf as (? & Hpc & ?). by rewrite (Hdone Hpc).
  - injection H as <-. unfold driver_step.
    destruct (d_pc m) eqn:Hd.
    + by destruct (end_of_work g (wld m)).
    + exact I.
    + destruct (w_pc m) eqn:Hpc; try exact Hf.
      destruct (statistics_dump (wld m)) as [w1 r] eqn:Hdump.
      unfold final_inv. cbn [final d_pc w_pc wld with_driver with_wld].
      split; [reflexivity|]. split; [exact Hpc|].
      destruct r as [|r]; [exact I|]. intros Hsm.
      eapply report_order_world; [exact Hdump|apply Hm|exact Ha|].
      destruct (statistics_dump_frame (wld m))
        as (_ & _ & _ & _ & _ & _ & _ & _ & _ & Hp & _).
      rewrite Hdump in Hp. cbn [fst] in Hp.
      by eapply store_small_perm.
    + exact Hf.
  - injection H as <-. exact Hf.
Qed.

Lemma run_final_inv ins : forall m m',
  run g ins m = Ret m' -> ticks_defined g ins m = true ->
  machine_inv m -> avg_inv (stat (wld m)) -> final_inv m ->
  final_inv m'.
Proof.
  induction ins as [|i ins IH]; intros m m' H Ht Hm Ha Hf; simpl in H, Ht.
  - by injection H as <-.
  - destruct (step g i m) as [m1|] eqn:Hs; [|discriminate].
    apply andb_prop in Ht as [Ht1 Ht2].
    eapply IH; [exact H|exact Ht2|..].
    + by eapply step_machine_inv.
    + by eapply step_avg_inv.
    + by eapply step_final_inv.
Qed.

End FinalReport.

(** C6 (amended).  Whenever the final report is printed at the end of a
    run whose signed arithmetic in [statistics_update] is defined, from a
    latency store that is not empty and holds only samples below 2^31
    microseconds, every figure is read inside its vector, the throughput
    figures satisfy [95P <= max], [avg <= max] and [min <= max], and the
    latency figures satisfy [min <= avg <= max] and [min <= 95P <= max]. *)
Theorem report_order (g : options) (ins : list input) (m : machine)
    (r : report) :
  run g ins (machine0 g) = Ret m ->
  ticks_defined g ins (machine0 g) = true ->
  final m = Some (Printed r) ->
  store_small (ls_stat (g_lat_stat (wld m))) ->
  report_ordered r.
Proof.
  intros Hrun Ht Hfin Hsm.
  assert (final_inv m) as Hf.
  { eapply run_final_inv; [exact Hrun|exact Ht|..].
    - apply machine0_machine_inv.
    - unfold avg_inv; simpl; lia.
    - exact I. }
  unfold final_inv in Hf. rewrite Hfin in Hf.
  destruct Hf as (_ & _ & Hr). by apply Hr.
Qed.

Lemma report_order_witness :
  ticks_defined g1 uneven (machine0 g1) = true /\
  reaches g1 uneven
    (fun m =>
       store_small (ls_stat (g_lat_stat (wld m))) /\
       exists r, final m = Some (Printed r) /\ report_ordered r).
Proof.
  assert (ticks_defined g1 uneven (machine0 g1) = true) as Ht
    by (vm_compute; reflexivity).
  split; [exact Ht|]. unfold reaches.
  destruct (run g1 uneven (machine0 g1)) as [m|] eqn:Hrun;
    [|vm_compute in Hrun; discriminate].
  pose proof (fun r => report_order g1 uneven m r Hrun Ht) as Hord.
  vm_compute in Hrun. injection Hrun as <-.
  assert (store_small [100; 120]) as Hsm.
  { split; [|discriminate]. repeat constructor; lia. }
  split; [exact Hsm|].
  eexists. split; [reflexivity|]. apply Hord; [reflexivity|exact Hsm].
Defined.

(** In the run [uneven] the report has a throughput of MAX 2, AVG 1,
    95P 0 and MIN 2: the figures are not in the order
    [min <= avg <= 95P <= max]. *)
Lemma report_order_counterexample :
  reaches g1 uneven
    (fun m =>
       hs_history (stat (wld m)) = [2; 0] /\
       ls_stat (g_lat_stat (wld m)) = [100; 120] /\
       exists r,
         final m = Some (Printed r) /\
         r_max_hs r = 2 /\ r_avg_hs r = 1 /\ r_p95_hs r = Some 0 /\
         r_min_hs r = 2 /\ ~ percentile_order r).
Proof.
  unfold reaches.
  destruct (run g1 uneven (machine0 g1)) as [m|] eqn:Hrun;
    [|vm_compute in Hrun; discriminate].
  vm_compute in Hrun. injection Hrun as <-.
  split; [reflexivity|]. split; [reflexivity|].
  eexists. split; [reflexivity|]. repeat (split; [reflexivity|]).
  intros (p95 & lmin & lavg & lp95 & lmax & _ & _ & _ & _ & _ & Hthr & _).
  cbn [r_min_hs r_avg_hs] in Hthr. lia.
Qed.

(** C5 (amended).  [IO::backlog] exchanges the two queues: afterwards
    the backlog holds exactly the handlers that were in the reconnect
    queue, in order, and the reconnect queue holds what the backlog held;
    [next_backlog] then hands those handlers out one at a time from the
    front and answers [NULL] after the last.  Where [io_loop] calls
    [backlog] the backlog is empty, so there the reconnect queue is left
    empty. *)
Theorem backlog_swaps_the_queues
    (io0 : IO.t) (g : options) (ins : list input) (m : machine) :
  IO.backlog_ (IO.backlog io0) = IO.reconnect_q_ io0 /\
  IO.reconnect_q_ (IO.backlog io0) = IO.backlog_ io0 /\
  fst (IO.drain (length (IO.reconnect_q_ io0)) (IO.backlog io0))
    = IO.reconnect_q_ io0 /\
  fst (IO.next_backlog
         (snd (IO.drain (length (IO.reconnect_q_ io0)) (IO.backlog io0))))
    = None /\
  (run g ins (machine0 g) = Ret m -> w_pc m = AtReady ->
   IO.backlog_ (io (wld m)) = [] /\
   IO.reconnect_q_ (IO.backlog (io (wld m))) = []).
Proof.
  split; [reflexivity|]. split; [reflexivity|].
  destruct io0 as [ev evs r b]. unfold IO.backlog. cbn [IO.reconnect_q_
    IO.backlog_ IO.ev_count_ IO.events_].
  rewrite drain_all. split; [reflexivity|]. split; [reflexivity|].
  intros Hrun Hpc.
  pose proof (run_machine_inv g ins _ _ (machine0_machine_inv g) Hrun)
    as (_ & _ & Hb).
  rewrite Hpc in Hb. split; exact Hb.
Qed.

Lemma backlog_swaps_the_queues_witness :
  reaches g1 suspended
    (fun m =>
       w_pc m = AtReady /\
       IO.backlog_ (io (wld m)) = [] /\
       IO.reconnect_q_ (IO.backlog (io (wld m))) = []) /\
  IO.backlog_ (IO.backlog io_busy) = [2] /\
  IO.reconnect_q_ (IO.backlog io_busy) = [1].
Proof.
  split.
  - unfold reaches.
    destruct (run g1 suspended (machine0 g1)) as [m|] eqn:Hrun;
      [|vm_compute in Hrun; discriminate].
    destruct (backlog_swaps_the_queues io_busy g1 suspended m)
      as (_ & _ & _ & _ & Hb).
    assert (w_pc m = AtReady) as Hpc.
    { vm_compute in Hrun. injection Hrun as <-. reflexivity. }
    split; [exact Hpc|]. exact (Hb Hrun Hpc).
  - destruct (backlog_swaps_the_queues io_busy g1 [] (machine0 g1))
      as (H1 & H2 & _).
    split; [exact H1|exact H2].
Defined.

(** With a backlog that still holds a handler, [backlog] does not leave
    the reconnect queue empty. *)
Lemma backlog_counterexample :
  IO.backlog_ (IO.backlog io_busy) = IO.reconnect_q_ io_busy /\
  IO.reconnect_q_ (IO.backlog io_busy) = [1] /\
  IO.reconnect_q_ (IO.backlog io_busy) <> [].
Proof. split; [reflexivity|]. split; [reflexivity|discriminate]. Qed.

(** * The command line, the store of the sampler and the threads *)

(** ** The command line *)

Section CommandLine.

Variable lc : libc.


Lemma getopt_init_inv g : getopt_inv (getopt_init g).
Proof. unfold getopt_inv; cbn. unfold DEFAULT_THREADS. lia. Qed.


Lemma getopt_case_inv a st st' :
  getopt_inv st -> getopt_case lc a st = Normal st' -> getopt_inv st'.
Proof.
  unfold getopt_inv.
  intros (Ht & Hv & Hu) H. unfold getopt_case, with_optarg, usage in H.
  destruct (ga_c a =? 0); [simplify_eq; cbn; tauto|].
  destruct (ga_c a =? chr "c").
  { destruct (ga_optarg a); [|discriminate]. simplify_eq.
    destruct (negb _); cbn; tauto. }
  destruct (ga_c a =? chr "d"); [simplify_eq; cbn; tauto|].
  destruct (ga_c a =? chr "l").
  { destruct (ga_optarg a); [|discriminate]. simplify_eq. cbn; tauto. }
  destruct (ga_c a =? chr "t").
  { destruct (ga_optarg a); [|discriminate]. cbn in H.
    destruct (Z.ltb_spec 512 (i32 (atoi lc s))); [discriminate|].
    simplify_eq. split; [cbn; lia|cbn; tauto]. }
  destruct (ga_c a =? chr "n").
  { destruct (ga_optarg a); [|discriminate]. simplify_eq. cbn; tauto. }
  destruct (ga_c a =? chr "T").
  { destruct (ga_optarg a); [|discriminate]. simplify_eq. cbn; tauto. }
  destruct (ga_c a =? chr "V"); [|discriminate].
  destruct (ga_optarg a); [|discriminate].
  repeat case_match; simplify_eq; cbn; tauto.
Qed.

Lemma getopt_loop_inv l : forall st st',
  getopt_inv st -> getopt_loop lc l st = Normal st' -> getopt_inv st'.
Proof.
  induction l as [|a l IH]; intros st st' Hinv H; cbn in H.
  - by simplify_eq.
  - destruct (getopt_case lc a st) as [st1| |] eqn:Ha; try discriminate.
    cbn in H. eapply IH; [|exact H]. eapply getopt_case_inv; eauto.
Qed.



(** The cipher and the flag [defaut_cipher] after the loop. *)
Lemma getopt_case_cipher a st st' :
  getopt_case lc a st = Normal st' ->
  cipher (gs_opt st') =
    match last (named_ciphers (cipher_args [a])) with
    | Some c => Some c
    | None => cipher (gs_opt st)
    end /\
  gs_defaut_cipher st' =
    gs_defaut_cipher st && bool_decide (cipher_args [a] = []).
Proof.
  intros H. unfold getopt_case, with_optarg, usage in H.
  unfold cipher_args; cbn [omap list_omap].
  destruct (Z.eqb_spec (ga_c a) 0) as [E0|E0].
  { rewrite E0. simplify_eq. cbn. by rewrite andb_true_r. }
  destruct (Z.eqb_spec (ga_c a) (chr "c")) as [Ec|Ec].
  { destruct (ga_optarg a) as [s|]; [|discriminate]. simplify_eq.
    cbn. rewrite andb_false_r.
    destruct (String.eqb s "any"); cbn; tauto. }
  assert (Hn : cipher (gs_opt st') = cipher (gs_opt st) /\
               gs_defaut_cipher st' = gs_defaut_cipher st).
  { repeat case_match; simplify_eq; cbn; tauto. }
  destruct Hn as [-> ->]. cbn. by rewrite andb_true_r.
Qed.

Lemma cipher_args_cons a l :
  cipher_args (a :: l) = cipher_args [a] ++ cipher_args l.
Proof. unfold cipher_args. cbn. by destruct (if _ =? _ then _ else _). Qed.

Lemma named_ciphers_app a b :
  named_ciphers (a ++ b) = named_ciphers a ++ named_ciphers b.
Proof. apply List.filter_app. Qed.

Lemma getopt_loop_cipher l : forall st st',
  getopt_loop lc l st = Normal st' ->
  cipher (gs_opt st') =
    match last (named_ciphers (cipher_args l)) with
    | Some c => Some c
    | None => cipher (gs_opt st)
    end /\
  gs_defaut_cipher st' =
    gs_defaut_cipher st && bool_decide (cipher_args l = []).
Proof.
  induction l as [|a l IH]; intros st st' H; cbn in H.
  - simplify_eq. cbn. by rewrite andb_true_r.
  - destruct (getopt_case lc a st) as [st1| |] eqn:Ha; try discriminate.
    cbn in H. apply IH in H as [Hc Hd].
    apply getopt_case_cipher in Ha as [Hc1 Hd1].
    rewrite cipher_args_cons, named_ciphers_app, Hc, Hd, Hc1, Hd1.
    split.
    + destruct (named_ciphers (cipher_args l)) as [|x xs] eqn:E using rev_ind.
      * by rewrite app_nil_r.
      * rewrite app_assoc, !last_snoc. reflexivity.
    + rewrite <- andb_assoc. f_equal.
      destruct (cipher_args [a]), (cipher_args l); reflexivity.
Qed.

Lemma getopt_loop_app l1 : forall l2 st,
  getopt_loop lc (l1 ++ l2) st =
  st' ← getopt_loop lc l1 st; getopt_loop lc l2 st'.
Proof.
  induction l1 as [|a l1 IH]; intros l2 st; cbn; [reflexivity|].
  destruct (getopt_case lc a st); cbn; auto.
Qed.

(** [do_getopt] has returned: the loop has ended in a state [st], the
    default cipher has been filled in and the address parsed. *)
Lemma do_getopt_normal cl r g o :
  do_getopt lc cl = Normal (r, g, o) ->
  exists st,
    getopt_loop lc (answers cl) (getopt_init g_opt0) = Normal st /\
    opts g = opts (gs_opt st) /\ debug g = debug (gs_opt st) /\
    tls_vers g = tls_vers (gs_opt st) /\
    use_tickets g = use_tickets (gs_opt st) /\
    cipher g =
      (if gs_defaut_cipher st then
         Some (if tls_vers g =? TLS1_3_VERSION
               then DEFAULT_CIPHER_13 else DEFAULT_CIPHER_12)
       else cipher (gs_opt st)) /\
    ((operands cl = [] /\ r = 0 /\
      ip g = snd (parse_ipv4 lc "127.0.0.1" "443")) \/
     (exists a p, operands cl = [a; p] /\
        match inet_pton lc AF_INET a, inet_pton lc AF_INET6 a with
        | Some _, _ => r = 0 /\ ip g = snd (parse_ipv4 lc a p)
        | None, Some _ => r = 0 /\ ip g = snd (parse_ipv6 lc a p)
        | None, None => r = - EINVAL /\ ip g = ip_zero
        end)).
Proof.
  unfold do_getopt. intros H.
  destruct (getopt_loop lc (answers cl) (getopt_init g_opt0))
    as [st| |] eqn:Hl; try discriminate.
  cbn in H. exists st. split; [reflexivity|].
  set (g1 := if gs_defaut_cipher st then _ else _) in H.
  assert (Hg1 : opts g1 = opts (gs_opt st) /\ debug g1 = debug (gs_opt st) /\
                tls_vers g1 = tls_vers (gs_opt st) /\
                use_tickets g1 = use_tickets (gs_opt st) /\
                cipher g1 =
                  (if gs_defaut_cipher st then
                     Some (if tls_vers g1 =? TLS1_3_VERSION
                           then DEFAULT_CIPHER_13 else DEFAULT_CIPHER_12)
                   else cipher (gs_opt st))).
  { subst g1. destruct (gs_defaut_cipher st); [|tauto].
    destruct (tls_vers (gs_opt st) =? TLS1_3_VERSION) eqn:E; cbn;
      rewrite E; tauto. }
  clearbody g1. destruct Hg1 as (? & ? & ? & ? & ?).
  destruct (operands cl) as [|a [|p [|]]]; try discriminate.
  - simplify_eq. cbn. repeat split; try assumption. left. tauto.
  - unfold parse_ipv4, parse_ipv6, usage in H.
    destruct (inet_pton lc AF_INET a) as [b4|] eqn:E4; cbn in H.
    + simplify_eq. cbn. repeat split; try assumption.
      right. exists a, p. split; [reflexivity|].
      unfold parse_ipv4. rewrite E4. split; reflexivity.
    + destruct (inet_pton lc AF_INET6 a) as [b6|] eqn:E6;
        cbn in H; change (- EINVAL =? 0) with false in H; cbn in H;
        simplify_eq; cbn; repeat split; try assumption.
      all: right; exists a, p; (split; [reflexivity|]);
        unfold parse_ipv6; rewrite E4, E6; split; reflexivity.
Qed.


End CommandLine.

Lemma htons_htons lc x : htons lc (htons lc x) = x mod 2 ^ 16.
Proof.
  unfold htons. destruct (little_endian lc).
  - pose proof (Z.mod_pos_bound x (2 ^ 16) ltac:(lia)) as Hx.
    set (y := x mod 2 ^ 16) in *. clearbody y.
    assert (Hs : (y mod 256 * 256 + y / 256) mod 2 ^ 16 =
                 y mod 256 * 256 + y / 256).
    { apply Z.mod_small.
      pose proof (Z.mod_pos_bound y 256 ltac:(lia)).
      assert (0 <= y / 256 < 256) by
        (split; [apply Z.div_pos; lia|apply Z.div_lt_upper_bound; lia]).
      lia. }
    rewrite Hs. clear Hs.
    pose proof (Z.mod_pos_bound y 256 ltac:(lia)).
    assert (0 <= y / 256 < 256) by
      (split; [apply Z.div_pos; lia|apply Z.div_lt_upper_bound; lia]).
    replace ((y mod 256 * 256 + y / 256) mod 256) with (y / 256).
    2:{ rewrite Z.add_comm, Z.mod_add by lia. symmetry. apply Z.mod_small. lia. }
    replace ((y mod 256 * 256 + y / 256) / 256) with (y mod 256).
    2:{ rewrite Z.add_comm, Z.div_add by lia.
        rewrite (Z.div_small (y / 256)) by lia. lia. }
    pose proof (Z.div_mod y 256 ltac:(lia)). lia.
  - apply Z.mod_mod. lia.
Qed.


(** X2.  The options that [do_getopt] leaves.  The number of threads is at
    most 512, the TLS version is one of the three constants, and the
    cipher is the built-in one of the version when no [-c] was given,
    else the last [-c] argument other than "any" ([NULL] if there is
    none). *)
Theorem do_getopt_options (lc : libc) (cl : cmdline) r g o :
  do_getopt lc cl = Normal (r, g, o) ->
  n_threads (opts g) <= 512 /\
  (tls_vers g = TLS1_2_VERSION \/ tls_vers g = TLS1_3_VERSION \/
   tls_vers g = TLS_ANY_VERSION) /\
  cipher g =
    match cipher_args (answers cl) with
    | [] => Some (if tls_vers g =? TLS1_3_VERSION
                  then DEFAULT_CIPHER_13 else DEFAULT_CIPHER_12)
    | cs => last (named_ciphers cs)
    end.
Proof.
  intros H.
  apply do_getopt_normal in H as (st & Hl & Ho & _ & Hv & _ & Hc & _).
  pose proof (getopt_loop_inv lc _ _ _ (getopt_init_inv g_opt0) Hl)
    as (Ht & Hvs & _).
  apply getopt_loop_cipher in Hl as [Hc1 Hd1].
  rewrite Ho, Hv. split; [exact Ht|]. split; [exact Hvs|].
  rewrite Hc, Hd1, Hc1, Hv. cbn.
  destruct (cipher_args (answers cl)) as [|c cs]; [reflexivity|].
  cbn [bool_decide]. rewrite bool_decide_eq_false_2 by discriminate.
  by destruct (last _).
Qed.

Lemma do_getopt_options_witness :
  cipher_args [short_answer "c" "FOO"; short_answer "c" "any"]
    = ["FOO"; "any"]%string /\
  exists r g o,
    do_getopt libc_example
      {| answers := [short_answer "c" "FOO"; short_answer "c" "any"];
         operands := [] |} = Normal (r, g, o) /\
    cipher g = Some "FOO"%string.
Proof.
  split; [reflexivity|].
  eexists _, _, _. split; [reflexivity|].
  exact (proj2 (proj2 (do_getopt_options libc_example
    {| answers := [short_answer "c" "FOO"; short_answer "c" "any"];
       operands := [] |} _ _ _ eq_refl))).
Defined.

(** X3.  The long option [--to].  It is declared [no_argument], so
    [getopt_long] answers it with [optarg = NULL], and the case ['T']
    passes that to [atoi]: wherever the option stands on a command line
    whose earlier options were accepted, [do_getopt] is undefined. *)
Theorem long_option_to_reads_null (lc : libc) (o : long_option)
  (before after : list getopt_answer) (arg : string) (ops : list string)
  (st : getopt_st) :
  o ∈ long_opts -> lo_name o = "to"%string ->
  getopt_loop lc before (getopt_init g_opt0) = Normal st ->
  do_getopt lc {| answers := before ++ long_answer o arg :: after;
                  operands := ops |} = Undefined.
Proof.
  intros Ho Hname Hl. unfold do_getopt. cbn [answers].
  rewrite getopt_loop_app, Hl. cbn.
  unfold long_opts in Ho.
  repeat (apply elem_of_cons in Ho as [->|Ho]); try discriminate.
  - reflexivity.
  - by apply elem_of_nil in Ho.
Qed.

Lemma long_option_to_reads_null_witness :
  do_getopt libc_example
    {| answers :=
         [short_answer "l" "4";
          long_answer {| lo_name := "to"; lo_has_arg := no_argument;
                         lo_flag := false; lo_val := chr "T" |} "60"];
       operands := [] |} = Undefined.
Proof.
  eapply (long_option_to_reads_null libc_example _ [short_answer "l" "4"] []
            "60" []).
  - unfold long_opts. rewrite !elem_of_cons. right; right; left; reflexivity.
  - reflexivity.
  - reflexivity.
Defined.

(** X4.  The address.  With two operands and result 0, IPv4 is tried
    first and IPv6 only when that fails; the stored address is the one
    [inet_pton] gave; the port is [atoi(port)] reduced modulo 65536, and
    that is the number [print_settings] shows, whatever the byte order of
    the host. *)
Theorem do_getopt_address (lc : libc) (cl : cmdline) g o (a p : string) :
  do_getopt lc cl = Normal (0, g, o) ->
  operands cl = [a; p] ->
  match inet_pton lc AF_INET a with
  | Some b => sin6_family (ip g) = AF_INET /\ sin_addr (ip g) = b
  | None =>
      sin6_family (ip g) = AF_INET6 /\
      inet_pton lc AF_INET6 a = Some (sin6_addr (ip g))
  end /\
  ntohs lc (sin6_port (ip g)) = atoi lc p mod 2 ^ 16 /\
  forall out, print_settings lc g = Normal out ->
    exists host, out !! 1%nat = Some (Cout host [atoi lc p mod 2 ^ 16]).
Proof.
  intros H Hops.
  apply do_getopt_normal in H as (st & _ & _ & _ & _ & _ & _ & Hip).
  destruct Hip as [(Hops' & _)|(a' & p' & Hops' & Hm)]; [congruence|].
  rewrite Hops in Hops'. simplify_eq.
  assert (Hport : ntohs lc (sin6_port (ip g)) = atoi lc p' mod 2 ^ 16).
  { unfold parse_ipv4, parse_ipv6 in Hm.
    destruct (inet_pton lc AF_INET a') as [b|].
    - destruct Hm as [_ ->]. cbn. apply htons_htons.
    - destruct (inet_pton lc AF_INET6 a') as [b|].
      + destruct Hm as [_ ->]. cbn. apply htons_htons.
      + destruct Hm as [Hm _]. discriminate. }
  split; [|split; [exact Hport|]].
  - unfold parse_ipv4, parse_ipv6 in Hm.
    destruct (inet_pton lc AF_INET a') as [b|].
    + destruct Hm as [_ ->]. cbn. tauto.
    + destruct (inet_pton lc AF_INET6 a') as [b|].
      * destruct Hm as [_ ->]. cbn. tauto.
      * destruct Hm as [Hm _]. discriminate.
  - intros out Hout. unfold print_settings in Hout.
    destruct (cipher g); [|discriminate]. simplify_eq.
    rewrite Hport. eexists. reflexivity.
Qed.

Lemma do_getopt_address_witness :
  exists g o,
    do_getopt libc_example
      {| answers := []; operands := ["::1"; "70000"]%string |}
      = Normal (0, g, o) /\
    sin6_family (ip g) = AF_INET6 /\
    ntohs libc_example (sin6_port (ip g)) = 4464.
Proof.
  eexists _, _. split; [reflexivity|].
  pose proof (do_getopt_address libc_example
    {| answers := []; operands := ["::1"; "70000"]%string |} _ _ _ _
    eq_refl eq_refl) as (Hf & Hp & _).
  split; [exact (proj1 Hf)|exact Hp].
Defined.

(** X5.  [-c any].  When every [-c] names "any", [g_opt.cipher] is [NULL]
    on return, [print_settings] streams that null pointer, and [main]
    is undefined from there on. *)
Theorem cipher_any_is_streamed_as_null (lc : libc) (cl : cmdline) g o :
  do_getopt lc cl = Normal (0, g, o) ->
  cipher_args (answers cl) <> [] ->
  named_ciphers (cipher_args (answers cl)) = [] ->
  cipher g = None /\
  print_settings lc g = Undefined /\
  forall rlim_cur setrlimit_ret,
    main_start lc cl rlim_cur setrlimit_ret = Undefined.
Proof.
  intros H Hne Hany.
  assert (Hc : cipher g = None).
  { pose proof H as H'.
    apply do_getopt_normal in H' as (st & Hl & _ & _ & _ & _ & Hc & _).
    apply getopt_loop_cipher in Hl as [Hc1 Hd1].
    rewrite Hc, Hd1, Hc1, Hany. cbn.
    rewrite bool_decide_eq_false_2 by exact Hne. reflexivity. }
  assert (Hp : print_settings lc g = Undefined).
  { unfold print_settings. by rewrite Hc. }
  split; [exact Hc|]. split; [exact Hp|].
  intros rl sr. unfold main_start. rewrite H. cbn. by rewrite Hp.
Qed.

Lemma cipher_any_is_streamed_as_null_witness :
  main_start libc_example
    {| answers := [short_answer "c" "any"]; operands := [] |}
    1024 0 = Undefined.
Proof.
  refine (proj2 (proj2 (cipher_any_is_streamed_as_null libc_example
    {| answers := [short_answer "c" "any"]; operands := [] |} _ _
    eq_refl _ eq_refl)) 1024 0).
  discriminate.
Defined.

(** X6.  The version in the banner.  [print_settings] names "1.2" for
    every command line that did not end with [--tls any], also for
    [--tls 1.3]. *)
Theorem banner_names_version_1_2 (lc : libc) (cl : cmdline) r g o out :
  do_getopt lc cl = Normal (r, g, o) ->
  print_settings lc g = Normal out ->
  out !! 2%nat =
    Some (Cout (if tls_vers g =? TLS_ANY_VERSION
                then "TLS version: Any of 1.2 or 1.3"
                else "TLS version: 1.2") []).
Proof.
  intros H Hout.
  apply do_getopt_normal in H as (st & Hl & _ & _ & Hv & _).
  pose proof (getopt_loop_inv lc _ _ _ (getopt_init_inv g_opt0) Hl)
    as (_ & Hvs & _).
  rewrite <- Hv in Hvs.
  unfold print_settings in Hout.
  destruct (cipher g); [|discriminate]. simplify_eq. cbn.
  destruct Hvs as [->| [->| ->]]; reflexivity.
Qed.

Lemma banner_names_version_1_2_witness :
  exists r g o out,
    do_getopt libc_example
      {| answers := [short_answer "V" "1.3"]; operands := [] |}
      = Normal (r, g, o) /\
    tls_vers g = TLS1_3_VERSION /\
    print_settings libc_example g = Normal out /\
    out !! 2%nat = Some (Cout "TLS version: 1.2" []).
Proof.
  eexists _, _, _, _. split; [reflexivity|]. split; [reflexivity|].
  split; [reflexivity|].
  exact (banner_names_version_1_2 libc_example
    {| answers := [short_answer "V" "1.3"]; operands := [] |} _ _ _ _
    eq_refl eq_refl).
Defined.

(** X7.  The TLS context of a worker.  Whatever the command line, the
    constructor of [IO] first bounds the protocol version from below and
    above, within TLS 1.2 and TLS 1.3; for a fixed version it restricts
    the ciphers to [g_opt.cipher] by the call of that version; with
    [--tls any] it applies no cipher restriction at all, not even a
    cipher given with [-c]. *)
Theorem tls_setup_of_command_line (lc : libc) (cl : cmdline) r g o :
  do_getopt lc cl = Normal (r, g, o) ->
  exists v1 v2 rest,
    IO_configure g =
      SSL_CTX_set_min_proto_version v1 ::
      SSL_CTX_set_max_proto_version v2 :: rest /\
    TLS1_2_VERSION <= v1 <= v2 /\ v2 <= TLS1_3_VERSION /\
    (tls_vers g <> TLS_ANY_VERSION -> v1 = tls_vers g /\ v2 = tls_vers g) /\
    List.filter restricts_ciphers rest =
      match cipher g with
      | Some c =>
          if tls_vers g =? TLS1_3_VERSION then [SSL_CTX_set_ciphersuites c]
          else if tls_vers g =? TLS1_2_VERSION then [SSL_CTX_set_cipher_list c]
          else []
      | None => []
      end /\
    (tls_vers g = TLS_ANY_VERSION ->
     List.filter restricts_ciphers rest = []).
Proof.
  intros H.
  apply do_getopt_normal in H as (st & Hl & _ & _ & Hv & _).
  pose proof (getopt_loop_inv lc _ _ _ (getopt_init_inv g_opt0) Hl)
    as (_ & Hvs & _).
  rewrite <- Hv in Hvs. unfold IO_configure.
  destruct Hvs as [E| [E| E]]; rewrite E; cbn;
    eexists _, _, _; (split; [reflexivity|]);
    unfold TLS1_2_VERSION, TLS1_3_VERSION, TLS_ANY_VERSION;
    (split; [lia|]); (split; [lia|]); (split; [intros; lia|]);
    destruct (use_tickets g =? 0), (cipher g); cbn; split;
    first [reflexivity | intros; reflexivity | intros; lia].
Qed.

Lemma tls_setup_of_command_line_witness :
  exists r g o,
    do_getopt libc_example
      {| answers := [short_answer "c" "AES128-SHA"; short_answer "V" "any"];
         operands := [] |} = Normal (r, g, o) /\
    cipher g = Some "AES128-SHA"%string /\
    List.filter restricts_ciphers (IO_configure g) = [].
Proof.
  eexists _, _, _. split; [reflexivity|]. split; [reflexivity|].
  destruct (tls_setup_of_command_line libc_example
    {| answers := [short_answer "c" "AES128-SHA"; short_answer "V" "any"];
       operands := [] |} _ _ _ eq_refl)
    as (v1 & v2 & rest & Hcalls & _ & _ & _ & _ & Hany).
  change (IO_configure _) with
    (IO_configure
       (set_ip (snd (parse_ipv4 libc_example "127.0.0.1" "443"))
          (set_tls_vers TLS_ANY_VERSION
             (set_cipher (Some "AES128-SHA"%string)
                (gs_opt (getopt_init g_opt0)))))) in *.
  rewrite Hcalls. cbn. apply Hany. reflexivity.
Defined.


(** X9.  [update_limits] with positive options.  When both the number of
    peers and the number of threads are at least 1 (and their request
    fits an [int]), [update_limits] returns: the branch "cannot run with no
    peers" is not taken, and the number of peers it leaves is at least 1. *)
Theorem update_limits_keeps_a_peer (g : options) (rlim_cur setrlimit_ret : Z) :
  1 <= n_peers g -> 1 <= n_threads g ->
  (n_peers g + 4) * n_threads g < 2 ^ 31 ->
  exists g' o,
    update_limits g rlim_cur setrlimit_ret = (Returns g', o) /\
    1 <= n_peers g' /\ n_threads g' = n_threads g.
Proof.
  intros Hp Ht Hfit. unfold update_limits.
  destruct (req_fd_n g <? rlim_cur); [eauto|].
  destruct (negb (setrlimit_ret =? 0)); [|eauto].
  assert (Hreq : req_fd_n g = (n_peers g + 4) * n_threads g).
  { unfold req_fd_n. rewrite (i32_small (n_peers g + 4)) by nia.
    rewrite i32_small by nia. apply u64_small. nia. }
  assert (Hd : u64 (i32 (n_threads g + 4)) = n_threads g + 4).
  { rewrite i32_small by nia. apply u64_small. nia. }
  rewrite Hreq, Hd.
  assert (Hq : 1 <= (n_peers g + 4) * n_threads g / (n_threads g + 4)
               < 2 ^ 31).
  { split.
    - apply Z.div_le_lower_bound; nia.
    - apply Z.div_lt_upper_bound; nia. }
  rewrite i32_small by lia.
  destruct (Z.eqb_spec ((n_peers g + 4) * n_threads g / (n_threads g + 4)) 0);
    [lia|].
  eexists _, _. split; [reflexivity|]. cbn. lia.
Qed.

Lemma update_limits_keeps_a_peer_witness :
  exists g' o,
    update_limits g512 1024 (-1) = (Returns g', o) /\
    1 <= n_peers g' /\ n_threads g' = 512.
Proof.
  apply (update_limits_keeps_a_peer g512 1024 (-1)); cbn; lia.
Defined.

(** ** The sampler and the store *)

Section SamplerStore.

Import LatencyStat.

Lemma updates_accepted dts : forall s, updates s dts = updates s (accepted dts).
Proof.
  induction dts as [|dt dts IH]; intros s; [reflexivity|].
  unfold accepted. cbn [List.filter].
  destruct (Z.eqb_spec dt 0) as [->|Hdt]; cbn [negb].
  - change (updates s (0 :: dts)) with (updates (fst (update s 0)) dts).
    rewrite update_zero. apply IH.
  - change (updates s (dt :: dts)) with (updates (fst (update s dt)) dts).
    rewrite IH. reflexivity.
Qed.

Lemma accepted_nonzero dts : Forall (fun dt => dt <> 0) (accepted dts).
Proof.
  unfold accepted. apply List.Forall_forall. intros x Hx.
  apply List.filter_In in Hx as [_ Hx].
  apply negb_true_iff, Z.eqb_neq in Hx. exact Hx.
Qed.


Lemma filling_inv pre :
  (length pre < Z.to_nat LATENCY_N)%nat -> sampler_inv (filling pre).
Proof.
  unfold sampler_inv, filling, LATENCY_N. cbn [i_ di_ stat_].
  change (1024 / 4) with 256. intros H.
  rewrite length_app, length_replicate. lia.
Qed.

Lemma updates_filling dts : forall pre,
  Forall (fun dt => dt <> 0) dts ->
  (length pre + length dts <= Z.to_nat LATENCY_N)%nat ->
  stat_ (updates (filling pre) dts) =
    (pre ++ dts) ++
    replicate (Z.to_nat LATENCY_N - length pre - length dts) 0.
Proof.
  induction dts as [|dt dts IH]; intros pre Hnz Hlen.
  - cbn. rewrite app_nil_r, Nat.sub_0_r. reflexivity.
  - apply Forall_cons in Hnz as [Hdt Hnz]. cbn [length] in Hlen.
    change (updates (filling pre) (dt :: dts))
      with (updates (fst (update (filling pre) dt)) dts).
    rewrite (update_accept _ dt (filling_inv pre ltac:(lia)) Hdt).
    assert (Hins : <[Z.to_nat (i_ (filling pre)) := dt]> (stat_ (filling pre))
                   = (pre ++ [dt]) ++
                     replicate (Z.to_nat LATENCY_N - length (pre ++ [dt])) 0).
    { cbn [filling i_ stat_]. rewrite Nat2Z.id.
      rewrite insert_app_r_alt by lia. rewrite Nat.sub_diag.
      rewrite length_app. cbn [length].
      destruct (Z.to_nat LATENCY_N - length pre)%nat as [|k] eqn:E; [lia|].
      cbn. rewrite <- app_assoc. cbn.
      replace (Z.to_nat LATENCY_N - (length pre + 1))%nat with k by lia.
      reflexivity. }
    destruct (Z.leb_spec LATENCY_N (i_ (filling pre) + di_ (filling pre)))
      as [Hfull|Hroom].
    + (* the ring is full with this reading *)
      cbn [filling i_ di_] in Hfull. unfold LATENCY_N in *.
      destruct dts as [|? ?]; [|cbn [length] in Hlen; lia].
      cbn [updates fold_left stat_]. rewrite Hins.
      rewrite length_app. cbn [length].
      replace (Z.to_nat 1024 - length pre - 1)%nat
        with (Z.to_nat 1024 - (length pre + 1))%nat by lia.
      reflexivity.
    + cbn [filling i_ di_] in Hroom.
      match goal with |- stat_ (updates ?s dts) = _ =>
        replace s with (filling (pre ++ [dt])) end.
      * rewrite IH; [|exact Hnz|rewrite length_app; cbn; lia].
        rewrite length_app. cbn [length].
        rewrite <- !app_assoc. cbn [app]. do 3 f_equal.
        f_equal. lia.
      * unfold filling at 1. rewrite Hins. cbn [filling i_ di_].
        f_equal. rewrite length_app. cbn. lia.
Qed.

Lemma nonzero_prefix_app_zeros l n :
  Forall (fun v => v <> 0) l -> nonzero_prefix (l ++ replicate n 0) = l.
Proof.
  induction l as [|x l IH]; intros H.
  - destruct n; reflexivity.
  - apply Forall_cons in H as [Hx H]. cbn.
    destruct (Z.eqb_spec x 0); [contradiction|]. by rewrite IH.
Qed.

(** The slots of a ring that has no zero slot stay non-zero. *)
Lemma update_full s dt :
  Forall (fun v => v <> 0) (stat_ s) ->
  Forall (fun v => v <> 0) (stat_ (fst (update s dt))).
Proof.
  intros H. unfold update.
  destruct (Z.eqb_spec dt 0) as [|Hdt]; [exact H|].
  assert (Forall (fun v => v <> 0) (<[Z.to_nat (i_ s) := dt]> (stat_ s))).
  { apply Forall_insert; assumption. }
  destruct (LATENCY_N <=? _); assumption.
Qed.

Lemma updates_full dts : forall s,
  Forall (fun v => v <> 0) (stat_ s) ->
  Forall (fun v => v <> 0) (stat_ (updates s dts)).
Proof.
  induction dts as [|dt dts IH]; intros s H; [exact H|].
  apply IH, update_full, H.
Qed.

(** Every slot of the ring is zero or one of the readings. *)
Lemma update_from s dt (P : Z -> Prop) :
  P dt -> Forall P (stat_ s) -> Forall P (stat_ (fst (update s dt))).
Proof.
  intros Hdt H. unfold update.
  destruct (dt =? 0); [exact H|].
  assert (Forall P (<[Z.to_nat (i_ s) := dt]> (stat_ s))).
  { apply Forall_insert; assumption. }
  destruct (LATENCY_N <=? _); assumption.
Qed.

Lemma updates_from dts (P : Z -> Prop) : forall s,
  Forall P dts -> Forall P (stat_ s) -> Forall P (stat_ (updates s dts)).
Proof.
  induction dts as [|dt dts IH]; intros s Hd H; [exact H|].
  apply Forall_cons in Hd as [Hdt Hd].
  apply IH; [exact Hd|]. apply update_from; assumption.
Qed.

Lemma nonzero_prefix_full l :
  Forall (fun v => v <> 0) l -> nonzero_prefix l = l.
Proof.
  induction l as [|x l IH]; intros H; [reflexivity|].
  apply Forall_cons in H as [Hx H]. cbn.
  destruct (Z.eqb_spec x 0); [contradiction|]. by rewrite IH.
Qed.

Lemma updates_app a b s : updates s (a ++ b) = updates (updates s a) b.
Proof. unfold updates. apply fold_left_app. Qed.

End SamplerStore.

(** X10.  A sampler that is not yet full.  As long as a thread has taken at
    most [LATENCY_N] non-zero readings, [dump] appends exactly these
    readings to the global store, in the order they were taken, and adds
    their sum to [acc_lat] (modulo 2^64). *)
Theorem dump_returns_the_first_readings (dts : list Z) (g : lat_store) :
  (length (accepted dts) <= Z.to_nat LATENCY_N)%nat ->
  0 <= acc_lat g < 2 ^ 64 ->
  let g' := LatencyStat.dump (LatencyStat.updates LatencyStat.init dts) g in
  ls_stat g' = ls_stat g ++ accepted dts /\
  acc_lat g' = u64 (acc_lat g + zsum (accepted dts)).
Proof.
  intros Hlen Hacc. cbv zeta.
  rewrite updates_accepted. unfold LatencyStat.dump.
  change LatencyStat.init with (filling []).
  rewrite updates_filling; [|apply accepted_nonzero|exact Hlen].
  rewrite dump_loop_spec. cbn [ls_stat acc_lat app].
  rewrite nonzero_prefix_app_zeros by apply accepted_nonzero.
  split; [reflexivity|]. apply fold_u64_sum, Hacc.
Qed.

Lemma dump_returns_the_first_readings_witness :
  ls_stat (LatencyStat.dump
             (LatencyStat.updates LatencyStat.init [150; 0; 90; 210])
             g_lat_stat0) = [150; 90; 210] /\
  acc_lat (LatencyStat.dump
             (LatencyStat.updates LatencyStat.init [150; 0; 90; 210])
             g_lat_stat0) = 450.
Proof.
  apply (dump_returns_the_first_readings [150; 0; 90; 210] g_lat_stat0).
  - cbn. unfold LATENCY_N. lia.
  - cbn. lia.
Defined.

(** X11.  A sampler that is full.  Once a thread has taken [LATENCY_N]
    non-zero readings, however many follow, [dump] appends exactly
    [LATENCY_N] samples, each of them one of the readings taken. *)
Theorem dump_of_a_full_ring (dts : list Z) (g : lat_store) :
  (Z.to_nat LATENCY_N <= length (accepted dts))%nat ->
  exists samples,
    ls_stat (LatencyStat.dump
               (LatencyStat.updates LatencyStat.init dts) g)
      = ls_stat g ++ samples /\
    length samples = Z.to_nat LATENCY_N /\
    Forall (fun v => v ∈ accepted dts) samples.
Proof.
  intros Hlen. rewrite updates_accepted. unfold LatencyStat.dump.
  rewrite dump_loop_spec. cbn [ls_stat].
  set (acc := accepted dts) in *.
  assert (Hnz : Forall (fun dt => dt <> 0) acc) by apply accepted_nonzero.
  replace (LatencyStat.updates LatencyStat.init acc)
    with (LatencyStat.updates LatencyStat.init
            (take (Z.to_nat LATENCY_N) acc ++ drop (Z.to_nat LATENCY_N) acc))
    by (by rewrite take_drop).
  rewrite updates_app.
  set (first := take (Z.to_nat LATENCY_N) acc).
  assert (Hfl : length first = Z.to_nat LATENCY_N).
  { subst first. rewrite length_take. lia. }
  assert (Hfirst : LatencyStat.stat_
                     (LatencyStat.updates LatencyStat.init first) = first).
  { change LatencyStat.init with (filling []).
    rewrite updates_filling.
    - cbn [app length]. rewrite Hfl.
      replace (Z.to_nat LATENCY_N - 0 - Z.to_nat LATENCY_N)%nat with 0%nat
        by lia.
      apply app_nil_r.
    - subst first. apply Forall_take, Hnz.
    - cbn [length]. lia. }
  set (s1 := LatencyStat.updates LatencyStat.init first) in *.
  assert (Hfull : Forall (fun v => v <> 0)
            (LatencyStat.stat_
               (LatencyStat.updates s1 (drop (Z.to_nat LATENCY_N) acc)))).
  { apply updates_full. rewrite Hfirst. subst first.
    apply Forall_take, Hnz. }
  rewrite (nonzero_prefix_full _ Hfull).
  eexists. split; [reflexivity|]. split.
  - pose proof (updates_inv (drop (Z.to_nat LATENCY_N) acc) s1) as Hinv.
    apply Hinv. subst s1. apply updates_inv, init_inv.
  - apply updates_from.
    + apply Forall_forall. intros x Hx. eapply subseteq_drop; eauto.
    + rewrite Hfirst. apply Forall_forall. intros x Hx. subst first.
      eapply subseteq_take; eauto.
Qed.

Lemma dump_of_a_full_ring_witness :
  exists samples,
    ls_stat (LatencyStat.dump
               (LatencyStat.updates LatencyStat.init (replicate 1100 5))
               g_lat_stat0) = [] ++ samples /\
    length samples = Z.to_nat LATENCY_N /\
    Forall (fun v => v ∈ accepted (replicate 1100 5)) samples.
Proof.
  apply (dump_of_a_full_ring (replicate 1100 5) g_lat_stat0).
  apply Nat.leb_le. vm_compute. reflexivity.
Defined.

(** ** The ready handlers *)

Section Serve.

Import IO.

Lemma serve_count evs r b : forall (k fuel : nat),
  (k <= length evs)%nat -> Z.of_nat k < 2 ^ 31 -> (k < fuel)%nat ->
  serve fuel {| ev_count_ := Z.of_nat k; events_ := evs;
                reconnect_q_ := r; backlog_ := b |} =
  (rev (take k evs),
   {| ev_count_ := 0; events_ := evs; reconnect_q_ := r; backlog_ := b |}).
Proof.
  induction k as [|k IH]; intros fuel Hk Hr Hf.
  - destruct fuel; [lia|]. reflexivity.
  - destruct fuel as [|fuel]; [lia|].
    cbn [serve]. unfold next_sk. cbn [ev_count_ events_ reconnect_q_ backlog_].
    destruct (Z.eqb_spec (Z.of_nat (S k)) 0) as [|_]; [lia|].
    replace (Z.of_nat (S k) - 1) with (Z.of_nat k) by lia.
    rewrite i32_small by lia.
    destruct (Z.ltb_spec (Z.of_nat k) 0) as [|_]; [lia|].
    rewrite Nat2Z.id.
    destruct (lookup_lt_is_Some_2 evs k ltac:(lia)) as [x Hx].
    rewrite Hx, IH by lia.
    rewrite (take_S_r _ _ _ Hx), rev_unit. reflexivity.
Qed.

End Serve.

(** X12.  The ready handlers.  After [wait] has stored [n] events, at most
    [N_EVENTS], the loop over [next_sk] hands out these [n] handlers, each
    once, from the last event of the array to the first, and then gets
    [NULL] with the count back at zero; the two queues are untouched. *)
Theorem ready_handlers_are_served_backwards (e : sys) (io0 io1 : IO.t)
  (fuel : nat) :
  IO.wait e io0 = Ret io1 ->
  wait_ret e = Z.of_nat (length (wait_ready e)) ->
  wait_ret e <= IO.N_EVENTS ->
  (length (wait_ready e) < fuel)%nat ->
  serve fuel io1 =
    (rev (wait_ready e),
     {| IO.ev_count_ := 0; IO.events_ := wait_ready e;
        IO.reconnect_q_ := IO.reconnect_q_ io0;
        IO.backlog_ := IO.backlog_ io0 |}).
Proof.
  intros Hw Hlen Hmax Hfuel.
  assert (Hio : io1 = {| IO.ev_count_ := wait_ret e;
                         IO.events_ := wait_ready e;
                         IO.reconnect_q_ := IO.reconnect_q_ io0;
                         IO.backlog_ := IO.backlog_ io0 |}).
  { unfold IO.wait in Hw. induction (wait_eintr e) as [|k IH]; cbn in Hw.
    - destruct (wait_ret e <? 0); by simplify_eq.
    - auto. }
  subst io1. rewrite Hlen.
  unfold IO.N_EVENTS in Hmax.
  rewrite serve_count by lia. by rewrite firstn_all.
Qed.

Lemma ready_handlers_are_served_backwards_witness :
  serve 4 (IO.queue_reconnect 7
             {| IO.ev_count_ := 3; IO.events_ := [0; 2; 5];
                IO.reconnect_q_ := []; IO.backlog_ := [] |}) =
    ([5; 2; 0],
     {| IO.ev_count_ := 0; IO.events_ := [0; 2; 5];
        IO.reconnect_q_ := [7]; IO.backlog_ := [] |}).
Proof.
  apply (ready_handlers_are_served_backwards (env_ready [0; 2; 5])
           (IO.queue_reconnect 7 IO.init)); try reflexivity;
    unfold IO.N_EVENTS; cbn; lia.
Defined.

(** ** What an advance does to the counters *)

Section PeerCounters.

Import Peer.

Ltac small32 :=
  unfold incr32, decr32 in *;
  repeat match goal with
  | |- context [i32 ?x] => rewrite (i32_small x) by lia
  end.

(** What an advance that raises no exception leaves behind: the peer
    keeps its identity, is queued for a reconnect exactly when the
    advance returns [true], and the counters of the handshakes that are
    under way move with the state of the peer. *)
Lemma next_state_effect e p w b p' w' :
  next_state e p w = Ret (b, p', w') ->
  id_ p' = id_ p /\
  IO.reconnect_q_ (io w') =
    IO.reconnect_q_ (io w) ++ (if b then [id_ p] else []) /\
  tot_tls_handshakes (stat w') =
    (if b then incr64 (tot_tls_handshakes (stat w))
     else tot_tls_handshakes (stat w)) /\
  (b = true ->
   ssl_connect_ret e = 1 /\ state_ p' = STATE_TCP_CONNECT /\
   tls_ p' = None /\ sd p' < 0 /\
   tls_connections (stat w') = incr32 (tls_connections (stat w))) /\
  (b = false -> tls_connections (stat w') = tls_connections (stat w)) /\
  (peer_ok p -> counters_safe (stat w) ->
   peer_ok p' /\
   tcp_handshakes (stat w') =
     tcp_handshakes (stat w) - connecting p + connecting p' /\
   tls_handshakes (stat w') =
     tls_handshakes (stat w) - handshaking p + handshaking p' /\
   tcp_connections (stat w') =
     tcp_connections (stat w) - handshaking p + handshaking p').
Proof.
  unfold next_state, tcp_connect, tcp_connect_try_finish,
    handle_established_tcp_conn, handle_connect_error, tls_handshake,
    IO.new_tls_ctx, add_to_poll, IO.add, disconnect, del_from_poll, IO.del,
    dbg_status, mbind, result_bind.
  unfold peer_ok, counters_safe, connecting, handshaking.
  destruct p as [id s tls st pol]. cbn [state_ sd tls_ polled_ id_].
  intros H.
  repeat (case_match; simplify_eq/=);
    repeat match goal with
    | H : (_ <? _) = true |- _ => apply Z.ltb_lt in H
    | H : (_ <? _) = false |- _ => apply Z.ltb_ge in H
    | H : (_ <=? _) = true |- _ => apply Z.leb_le in H
    | H : (_ <=? _) = false |- _ => apply Z.leb_gt in H
    | H : (_ =? _) = true |- _ => apply Z.eqb_eq in H
    | H : (_ =? _) = false |- _ => apply Z.eqb_neq in H
    end;
    (split; [reflexivity|]); (split; [by rewrite ?app_nil_r|]);
    (split; [reflexivity|]);
    (split; [intros ?; try discriminate; repeat split; auto; lia|]);
    (split; [intros ?; try discriminate; reflexivity|]);
    intros Hok (Hc1 & Hc2 & Hc3); destruct_and?; simplify_eq;
    small32; repeat split; try lia; try congruence; auto.
Qed.

End PeerCounters.

(** ** The peers of a worker *)

Section Peers.

Variable g : options.
Hypothesis Hn : 0 <= n_peers g < 2 ^ 31 - 1.

Lemma wait_spec e io0 io1 :
  IO.wait e io0 = Ret io1 ->
  0 <= wait_ret e /\
  io1 = {| IO.ev_count_ := wait_ret e; IO.events_ := wait_ready e;
           IO.reconnect_q_ := IO.reconnect_q_ io0;
           IO.backlog_ := IO.backlog_ io0 |}.
Proof.
  unfold IO.wait. induction (wait_eintr e) as [|k IH]; cbn; [|exact IH].
  destruct (Z.ltb_spec (wait_ret e) 0); intros Hw; simplify_eq.
  split; [lia|reflexivity].
Qed.

Lemma zsum_map_app (f : Peer.t -> Z) l l' :
  zsum (map f (l ++ l')) = zsum (map f l) + zsum (map f l').
Proof.
  unfold zsum. induction l as [|x l IH]; cbn; [lia|].
  unfold zsum in IH. cbn in IH. lia.
Qed.

Lemma zsum_map_insert (f : Peer.t -> Z) l k p p' :
  l !! k = Some p ->
  zsum (map f (<[k := p']> l)) = zsum (map f l) - f p + f p'.
Proof.
  revert k. induction l as [|x l IH]; intros [|k] H; try discriminate.
  - cbn in H. simplify_eq. unfold zsum. cbn. lia.
  - cbn in H. specialize (IH k H).
    change (<[S k := p']> (x :: l)) with (x :: <[k := p']> l).
    unfold zsum in *. cbn [map foldr]. rewrite IH. lia.
Qed.

Lemma zsum_map_bounds (f : Peer.t -> Z) l :
  (forall p, 0 <= f p <= 1) ->
  0 <= zsum (map f l) <= Z.of_nat (length l).
Proof.
  intros Hf. induction l as [|x l IH]; unfold zsum in *; cbn; [lia|].
  specialize (Hf x). cbn in IH. lia.
Qed.

Lemma connecting_range p : 0 <= connecting p <= 1.
Proof. unfold connecting. destruct (Peer.state_ p); lia. Qed.

Lemma handshaking_range p : 0 <= handshaking p <= 1.
Proof. unfold handshaking. destruct (Peer.state_ p); lia. Qed.

(** The counters of a worker with at most [n_peers] peers are safe. *)
Lemma peers_inv_safe m :
  peers_inv m -> w_pc m <> AtDone -> active_peers m <= n_peers g ->
  counters_safe (stat (wld m)).
Proof.
  intros (Heq & Hinv) Hpc Ha.
  destruct (Hinv Hpc) as (Hlen & _ & Hc & Hh & _).
  pose proof (zsum_map_bounds connecting (all_peers m) connecting_range).
  pose proof (zsum_map_bounds handshaking (all_peers m) handshaking_range).
  unfold counters_safe. rewrite Heq, Hc, Hh. lia.
Qed.

(** States that differ in nothing the invariant reads. *)
Lemma peers_inv_same m m' :
  w_pc m' = w_pc m \/ (w_pc m <> AtDone /\ w_pc m' <> AtDone) ->
  active_peers m' = active_peers m -> all_peers m' = all_peers m ->
  tcp_handshakes (stat (wld m')) = tcp_handshakes (stat (wld m)) ->
  tcp_connections (stat (wld m')) = tcp_connections (stat (wld m)) ->
  tls_handshakes (stat (wld m')) = tls_handshakes (stat (wld m)) ->
  IO.reconnect_q_ (io (wld m')) ++ IO.backlog_ (io (wld m')) ≡ₚ
    IO.reconnect_q_ (io (wld m)) ++ IO.backlog_ (io (wld m)) ->
  peers_inv m -> peers_inv m'.
Proof.
  intros Hpc Ha Hp H1 H2 H3 Hq (Heq & Hinv). unfold peers_inv.
  rewrite Ha, Hp, H1, H2, H3. split; [exact Heq|].
  intros Hd. rewrite Hq. apply Hinv.
  destruct Hpc as [<-|[? _]]; assumption.
Qed.

Lemma machine0_peers_inv : peers_inv (machine0 g).
Proof.
  split; [reflexivity|]. intros _. cbn.
  split; [reflexivity|]. split.
  { intros k p H. by rewrite lookup_nil in H. }
  repeat split; constructor.
Qed.

Lemma bump_fields b m :
  active_peers (bump g b m) = active_peers m /\
  all_peers (bump g b m) = all_peers m /\
  wld (bump g b m) = wld m /\ w_pc (bump g b m) = w_pc m.
Proof. unfold bump. by destruct (b && _). Qed.

Lemma advance_peers e sh m m' :
  loop_inv g m -> peers_inv m -> w_pc m <> AtDone ->
  advance g e sh m = Ret m' -> peers_inv m'.
Proof.
  intros Hl Hinv Hpc H. unfold advance, peer_at in H.
  destruct (Z.ltb_spec sh 0) as [|Hsh]; [by simplify_eq|].
  destruct (all_peers m !! Z.to_nat sh) as [p|] eqn:Hp; [|by simplify_eq].
  cbn [mbind result_bind] in H.
  destruct (Peer.next_state e p (wld m)) as [[[b p'] w']|] eqn:Hns;
    [|discriminate].
  cbn [mbind result_bind] in H. simplify_eq.
  pose proof (peers_inv_safe m Hinv Hpc ltac:(destruct Hl; lia)) as Hsafe.
  destruct Hinv as (Heq & Hinv).
  destruct (Hinv Hpc) as (Hlen & Hall & Hc & Hh & Hq).
  destruct (Hall _ _ Hp) as [Hid Hok].
  pose proof (next_state_frame e p (wld m) b p' w' Hns)
    as ((_ & _ & _ & Hbl & _) & _).
  apply next_state_effect in Hns
    as (Hid' & Hrq & _ & _ & _ & Heff).
  destruct (Heff Hok Hsafe) as (Hok' & E1 & E2 & E3).
  match goal with |- peers_inv (bump g b ?m1) =>
    destruct (bump_fields b m1) as (Fa & Fp & Fw & Fpc) end.
  unfold peers_inv. rewrite Fa, Fp, Fw, Fpc.
  cbn [with_wld with_all_peers wld all_peers active_peers w_pc].
  split; [lia|]. intros _.
  split; [by rewrite length_insert|]. split.
  { intros k q Hk.
    destruct (decide (k = Z.to_nat sh)) as [->|Hne].
    - rewrite list_lookup_insert_eq in Hk
        by (apply lookup_lt_is_Some; eauto).
      simplify_eq. split; [congruence|exact Hok'].
    - rewrite list_lookup_insert_ne in Hk by congruence. by apply Hall. }
  rewrite !(zsum_map_insert _ _ _ _ _ Hp).
  split; [lia|]. split; [lia|].
  rewrite Hrq, Hbl. apply Forall_app in Hq as [Hq1 Hq2].
  apply Forall_app. split; [|exact Hq2].
  apply Forall_app. split; [exact Hq1|].
  destruct b; [|constructor]. constructor; [|constructor].
  rewrite Hid. apply lookup_lt_Some in Hp. lia.
Qed.

Lemma create_peer_peers e m m' :
  loop_inv g m -> peers_inv m -> w_pc m <> AtDone ->
  active_peers m < n_peers g ->
  create_peer g e m = Ret m' -> peers_inv m'.
Proof.
  intros Hl Hinv Hpc Hlt H. unfold create_peer, Peer.create in H.
  remember {| Peer.id_ := active_peers m; Peer.sd := -1; Peer.tls_ := None;
              Peer.state_ := Peer.STATE_TCP_CONNECT; Peer.polled_ := false |}
    as p0 eqn:Ep0.
  remember (Peer.dbg_status p0 "created" (wld m)) as w0 eqn:Ew0.
  destruct (Peer.next_state e p0 w0) as [[[b p'] w']|] eqn:Hns;
    [|discriminate].
  cbn [mbind result_bind] in H. simplify_eq.
  pose proof (peers_inv_safe m Hinv Hpc ltac:(lia)) as Hsafe.
  destruct Hinv as (Heq & Hinv).
  destruct (Hinv Hpc) as (Hlen & Hall & Hc & Hh & Hq).
  pose proof (next_state_frame e _ _ b p' w' Hns)
    as ((_ & _ & _ & Hbl & _) & _).
  apply next_state_effect in Hns
    as (Hid' & Hrq & _ & _ & _ & Heff).
  destruct (Heff ltac:(unfold peer_ok; cbn; split; [lia|done])
              Hsafe) as (Hok' & E1 & E2 & E3).
  unfold Peer.dbg_status in *.
  cbn [stat print Peer.id_ io] in *.
  unfold connecting, handshaking in E1, E2, E3.
  cbn [Peer.state_] in E1, E2, E3.
  match goal with |- context [bump g b ?m1] =>
    destruct (bump_fields b m1) as (Fa & Fp & Fw & Fpc) end.
  unfold peers_inv, with_new_peers.
  cbn [wld all_peers active_peers w_pc].
  rewrite Fa, Fp, Fw, Fpc.
  cbn [with_wld with_all_peers wld all_peers active_peers w_pc].
  rewrite (i32_small (active_peers m + 1)) by (destruct Hl; lia).
  fold (connecting p') in E1. fold (handshaking p') in E2, E3.
  split; [lia|]. intros _.
  split; [rewrite length_app; cbn; lia|]. split.
  { intros k q Hk. apply lookup_app_Some in Hk as [Hk|[Hge Hk]].
    - by apply Hall.
    - destruct (k - length (all_peers m))%nat as [|j] eqn:E;
        cbn in Hk; [|by rewrite ?lookup_nil in Hk].
      simplify_eq. split; [|exact Hok']. cbn in Hid'. lia. }
  rewrite !zsum_map_app. unfold zsum at 2 4. cbn [map foldr].
  split; [lia|]. split; [lia|].
  rewrite Hrq, Hbl. apply Forall_app in Hq as [Hq1 Hq2].
  assert (Hw : forall l, Forall (fun sh => 0 <= sh < active_peers m) l ->
                         Forall (fun sh => 0 <= sh < active_peers m + 1) l).
  { intros l Hl'. eapply Forall_impl; [exact Hl'|]. intros; cbn in *; lia. }
  apply Forall_app. split; [|by apply Hw].
  apply Forall_app. split; [by apply Hw|].
  destruct b; [|constructor]. constructor; [|constructor].
  destruct Hl. lia.
Qed.

Lemma worker_step_peers e m m' :
  loop_inv g m -> peers_inv m ->
  worker_step g e m = Ret m' -> peers_inv m'.
Proof.
  intros Hl Hinv H. unfold worker_step in H.
  destruct (w_pc m) eqn:Hpc.
  - (* AtTop *)
    destruct (end_of_work g (wld m)); simplify_eq.
    + unfold thread_exit. split; [|intros Hd; by destruct Hd].
      cbn [at_pc with_wld wld set_g_lat_stat stat].
      destruct (delete_all_frame e (all_peers m) (wld m)) as (-> & _).
      apply Hinv.
    + eapply peers_inv_same; [| | | | | | |exact Hinv]; try reflexivity.
      right. rewrite Hpc. split; discriminate.
  - (* AtCreate *)
    destruct (Z.ltb_spec (active_peers m) (n_peers g)) as [Hlt|_];
      [destruct (Z.eqb_spec (new_peers m) 0) as [_|Hnz]|];
      cbn [andb negb] in H.
    + destruct (IO.wait e (io (wld m))) as [io1|] eqn:Hw; [|discriminate].
      cbn [mbind result_bind] in H. simplify_eq. apply wait_spec in Hw as [_ ->].
      eapply peers_inv_same; [| | | | | | |exact Hinv]; try reflexivity.
      right. rewrite Hpc. split; discriminate.
    + eapply create_peer_peers; eauto. congruence.
    + destruct (IO.wait e (io (wld m))) as [io1|] eqn:Hw; [|discriminate].
      cbn [mbind result_bind] in H. simplify_eq. apply wait_spec in Hw as [_ ->].
      eapply peers_inv_same; [| | | | | | |exact Hinv]; try reflexivity.
      right. rewrite Hpc. split; discriminate.
  - (* AtReady *)
    unfold IO.next_sk in H.
    destruct (IO.ev_count_ (io (wld m)) =? 0).
    + simplify_eq.
      eapply peers_inv_same; [| | | | | | |exact Hinv]; try reflexivity.
      * right. rewrite Hpc. split; discriminate.
      * cbn. apply Permutation_app_comm.
    + match type of H with
      | match ?x with _ => _ end = _ => destruct x as [sh|] end.
      * eapply advance_peers; [| | |exact H].
        -- exact Hl.
        -- eapply peers_inv_same; [| | | | | | |exact Hinv];
             try reflexivity. by left.
        -- cbn. congruence.
      * simplify_eq.
        eapply peers_inv_same; [| | | | | | |exact Hinv]; try reflexivity.
        -- right. rewrite Hpc. split; discriminate.
        -- cbn. apply Permutation_app_comm.
  - (* AtDrain *)
    destruct (finish (wld m)).
    + simplify_eq. destruct (end_iteration_world g m)
        as (Hp' & _ & Hs & _ & _ & Hio & _).
      eapply peers_inv_same; [| | | | | | |exact Hinv];
        rewrite ?Hs, ?Hio; try reflexivity.
      right. rewrite Hpc, Hp'. split; discriminate.
    + unfold IO.next_backlog in H.
      destruct (IO.backlog_ (io (wld m))) as [|sh rest] eqn:Hb.
      * simplify_eq.
        match goal with |- peers_inv (end_iteration g ?m1) =>
          destruct (end_iteration_world g m1)
            as (Hp' & _ & Hs & _ & _ & Hio & _) end.
        eapply peers_inv_same; [| | | | | | |exact Hinv];
          rewrite ?Hs, ?Hio; try reflexivity.
        right. rewrite Hpc, Hp'. split; discriminate.
      * eapply advance_peers; [| | |exact H].
        -- exact Hl.
        -- destruct Hinv as (Heq & Hinv). split; [exact Heq|].
           intros _. destruct (Hinv ltac:(congruence))
             as (? & ? & ? & ? & Hq).
           cbn. do 4 (split; [assumption|]).
           rewrite Hb in Hq. apply Forall_app in Hq as [Hq1 Hq2].
           apply Forall_cons in Hq2 as [_ Hq2].
           apply Forall_app. by split.
        -- cbn. congruence.
  - simplify_eq. exact Hinv.
Qed.

Lemma step_peers i m m' :
  loop_inv g m -> peers_inv m -> step g i m = Ret m' -> peers_inv m'.
Proof.
  intros Hl Hinv H. destruct i as [e|dt el|]; cbn in H.
  - eapply worker_step_peers; eauto.
  - simplify_eq. unfold driver_step.
    destruct (d_pc m).
    + destruct (end_of_work g (wld m)); exact Hinv.
    + match goal with |- context [with_wld ?w m] =>
        assert (Hs : tcp_handshakes (stat w) = tcp_handshakes (stat (wld m)) /\
                     tcp_connections (stat w) = tcp_connections (stat (wld m)) /\
                     tls_handshakes (stat w) = tls_handshakes (stat (wld m)) /\
                     io w = io (wld m)) end.
      { destruct (statistics_update_frame dt (wld m)) as (Hio & _).
        assert (Hst : tcp_handshakes (stat (statistics_update dt (wld m)))
                        = tcp_handshakes (stat (wld m)) /\
                      tcp_connections (stat (statistics_update dt (wld m)))
                        = tcp_connections (stat (wld m)) /\
                      tls_handshakes (stat (statistics_update dt (wld m)))
                        = tls_handshakes (stat (wld m))).
        { unfold statistics_update. destruct (wld m) as [s ? ? ss ? ? ?].
          cbn. destruct ss; cbn; tauto. }
        destruct (negb _ && _); cbn; rewrite ?Hio; tauto. }
      destruct Hs as (H1 & H2 & H3 & H4).
      eapply peers_inv_same; [| | | | | | |exact Hinv]; cbn;
        rewrite ?H1, ?H2, ?H3, ?H4; try reflexivity. by left.
    + destruct (w_pc m) eqn:Hpc; try exact Hinv.
      destruct (statistics_dump (wld m)) as [w r] eqn:Hd.
      split; [|cbn; rewrite Hpc; intros Hx; by destruct Hx].
      cbn. unfold statistics_dump in Hd.
      destruct (negb _ || _); simplify_eq; cbn; apply Hinv.
    + exact Hinv.
  - simplify_eq.
    eapply peers_inv_same; [| | | | | | |exact Hinv]; try reflexivity.
    by left.
Qed.

Lemma run_peers ins : forall m m',
  loop_inv g m -> peers_inv m -> run g ins m = Ret m' -> peers_inv m'.
Proof.
  induction ins as [|i ins IH]; intros m m' Hl Hinv H; cbn in H.
  - by simplify_eq.
  - destruct (step g i m) as [m1|] eqn:Hs; [|discriminate]. cbn in H.
    eapply IH; [| |exact H].
    + eapply (step_inv g Hn); eauto.
    + eapply step_peers; eauto.
Qed.

End Peers.

Lemma zsum_states l :
  0 <= zsum (map connecting l) /\ 0 <= zsum (map handshaking l) /\
  zsum (map connecting l) + zsum (map handshaking l) <= Z.of_nat (length l).
Proof.
  induction l as [|p l IH]; unfold zsum in *; cbn [map foldr length].
  - lia.
  - unfold connecting at 1 3, handshaking at 1 3.
    destruct (Peer.state_ p); lia.
Qed.

(** X13.  What an advance returns.  [next_state] returns [true] exactly
    when it has completed a handshake: then [SSL_connect] has returned 1,
    [tot_tls_handshakes] and [tls_connections] are one higher, the peer is
    closed and back in its first state, and it has been put at the end of
    the reconnect queue once.  When it returns [false], the two counters
    and the queue are as before. *)
Theorem advance_returns_true_on_completion
  (e : sys) (p : Peer.t) (w : world) (b : bool) (p' : Peer.t) (w' : world) :
  Peer.next_state e p w = Ret (b, p', w') ->
  Peer.id_ p' = Peer.id_ p /\
  IO.reconnect_q_ (io w') =
    IO.reconnect_q_ (io w) ++ (if b then [Peer.id_ p] else []) /\
  tot_tls_handshakes (stat w') =
    (if b then incr64 (tot_tls_handshakes (stat w))
     else tot_tls_handshakes (stat w)) /\
  tls_connections (stat w') =
    (if b then incr32 (tls_connections (stat w))
     else tls_connections (stat w)) /\
  (b = true ->
   ssl_connect_ret e = 1 /\ Peer.state_ p' = Peer.STATE_TCP_CONNECT /\
   Peer.tls_ p' = None /\ Peer.sd p' < 0).
Proof.
  intros H.
  apply next_state_effect in H as (Hid & Hq & Ht & Ht1 & Hf1 & _).
  split; [exact Hid|]. split; [exact Hq|]. split; [exact Ht|].
  split.
  - destruct b; [apply Ht1|apply Hf1]; reflexivity.
  - intros Hb. destruct (Ht1 Hb) as (? & ? & ? & ? & _). tauto.
Qed.

Lemma advance_returns_true_on_completion_witness :
  exists p' w',
    Peer.next_state (env_done 150) peer_in_handshake world_in_handshake
      = Ret (true, p', w') /\
    IO.reconnect_q_ (io w') = [0] /\
    tot_tls_handshakes (stat w') = 1 /\
    Peer.state_ p' = Peer.STATE_TCP_CONNECT.
Proof.
  eexists _, _. split; [reflexivity|].
  destruct (advance_returns_true_on_completion (env_done 150)
              peer_in_handshake world_in_handshake _ _ _ eq_refl)
    as (_ & Hq & Ht & _ & Hs).
  split; [exact Hq|]. split; [exact Ht|]. apply Hs. reflexivity.
Defined.

(** X14.  The connection counters.  In every state of a run in which the
    worker has not returned, [tcp_handshakes] is the number of its peers
    in state [STATE_TCP_CONNECTING] and [tls_handshakes] the number in
    state [STATE_TLS_HANDSHAKING]; both together are at most
    [active_peers]; and [tcp_connections] equals [tls_handshakes]
    throughout, since a connection is closed by the advance that ends its
    handshake. *)
Theorem counters_count_the_peers (g : options) (ins : list input)
  (m : machine) :
  0 <= n_peers g < 2 ^ 31 - 1 ->
  run g ins (machine0 g) = Ret m ->
  let s := stat (wld m) in
  tcp_connections s = tls_handshakes s /\
  (w_pc m <> AtDone ->
   tcp_handshakes s = zsum (map connecting (all_peers m)) /\
   tls_handshakes s = zsum (map handshaking (all_peers m)) /\
   0 <= tcp_handshakes s /\ 0 <= tls_handshakes s /\
   tcp_handshakes s + tls_handshakes s <= active_peers m).
Proof.
  intros Hn Hrun.
  pose proof (run_peers g Hn ins _ _ (machine0_inv g Hn)
                (machine0_peers_inv g) Hrun) as (Heq & Hinv).
  cbv zeta. split; [exact Heq|]. intros Hpc.
  destruct (Hinv Hpc) as (Hlen & _ & Hc & Hh & _).
  pose proof (zsum_states (all_peers m)). rewrite Hc, Hh. lia.
Qed.

Lemma counters_count_the_peers_witness :
  reaches g12 ramp (fun m =>
    tcp_handshakes (stat (wld m)) = 9 /\
    tls_handshakes (stat (wld m)) = 1 /\
    tcp_connections (stat (wld m)) = 1).
Proof.
  unfold reaches.
  destruct (run g12 ramp (machine0 g12)) as [m|] eqn:Hrun.
  - destruct (counters_count_the_peers g12 ramp m ltac:(cbn; lia) Hrun)
      as (Heq & Hc).
    assert (Hm : w_pc m = AtReady /\
                 zsum (map connecting (all_peers m)) = 9 /\
                 zsum (map handshaking (all_peers m)) = 1).
    { clear Heq Hc. vm_compute in Hrun. injection Hrun as <-.
      repeat split. }
    destruct Hm as (Hpc & Hz1 & Hz2).
    destruct (Hc ltac:(rewrite Hpc; discriminate)) as (H1 & H2 & _).
    rewrite Heq, H1, H2. tauto.
  - vm_compute in Hrun. discriminate.
Defined.

(** X15.  The handlers in the queues.  While the worker has not returned,
    [all_peers] holds exactly [active_peers] peers, the peer with
    [id_ = k] at position [k], and every handler that waits in the
    reconnect queue or in the backlog is one of them. *)
Theorem queued_handlers_are_peers (g : options) (ins : list input)
  (m : machine) :
  0 <= n_peers g < 2 ^ 31 - 1 ->
  run g ins (machine0 g) = Ret m ->
  w_pc m <> AtDone ->
  Z.of_nat (length (all_peers m)) = active_peers m /\
  (forall k p, all_peers m !! k = Some p -> Peer.id_ p = Z.of_nat k) /\
  (forall sh,
     sh ∈ IO.reconnect_q_ (io (wld m)) ++ IO.backlog_ (io (wld m)) ->
     exists p, peer_at (all_peers m) sh = Some p /\ Peer.id_ p = sh).
Proof.
  intros Hn Hrun Hpc.
  pose proof (run_peers g Hn ins _ _ (machine0_inv g Hn)
                (machine0_peers_inv g) Hrun) as (_ & Hinv).
  destruct (Hinv Hpc) as (Hlen & Hall & _ & _ & Hq).
  split; [exact Hlen|]. split; [intros k p Hk; by apply Hall|].
  intros sh Hsh. rewrite Forall_forall in Hq. specialize (Hq sh Hsh).
  unfold peer_at. destruct (Z.ltb_spec sh 0) as [|_]; [lia|].
  destruct (lookup_lt_is_Some_2 (all_peers m) (Z.to_nat sh) ltac:(lia))
    as [p Hp].
  exists p. split; [exact Hp|]. destruct (Hall _ _ Hp) as [-> _]. lia.
Qed.

Lemma queued_handlers_are_peers_witness :
  reaches g1 (suspended ++ [Worker (env_done 150)]) (fun m =>
    IO.reconnect_q_ (io (wld m)) = [0] /\
    exists p, peer_at (all_peers m) 0 = Some p /\ Peer.id_ p = 0).
Proof.
  unfold reaches.
  destruct (run g1 (suspended ++ [Worker (env_done 150)]) (machine0 g1))
    as [m|] eqn:Hrun.
  - assert (Hm : w_pc m = AtReady /\ IO.reconnect_q_ (io (wld m)) = [0] /\
                 IO.backlog_ (io (wld m)) = []).
    { vm_compute in Hrun. injection Hrun as <-. repeat split. }
    destruct Hm as (Hpc & Hq & Hb).
    destruct (queued_handlers_are_peers g1 _ m ltac:(cbn; lia) Hrun
                ltac:(rewrite Hpc; discriminate)) as (_ & _ & Hh).
    split; [exact Hq|]. apply Hh. rewrite Hq, Hb. cbn.
    apply elem_of_cons. left. reflexivity.
  - vm_compute in Hrun. discriminate.
Defined.

(** ** The two flags *)

Section Flags.

Variable g : options.

(** A step of the worker leaves [finish] alone, and sets [start_stats]
    only at the end of an iteration that finds all peers active. *)
Lemma worker_step_flags e m m' :
  worker_step g e m = Ret m' ->
  finish (wld m') = finish (wld m) /\
  (start_stats (wld m') = start_stats (wld m) \/
   (start_stats (wld m') = true /\ active_peers m' = n_peers g)).
Proof.
  intros H. unfold worker_step in H.
  assert (Hend : forall m1,
    finish (wld m1) = finish (wld m) ->
    start_stats (wld m1) = start_stats (wld m) ->
    finish (wld (end_iteration g m1)) = finish (wld m) /\
    (start_stats (wld (end_iteration g m1)) = start_stats (wld m) \/
     (start_stats (wld (end_iteration g m1)) = true /\
      active_peers (end_iteration g m1) = n_peers g))).
  { intros m1 Hf Hs. unfold end_iteration.
    destruct (Z.eqb_spec (active_peers m1) (n_peers g)) as [Ha|_];
      [destruct (start_stats (wld m1)) eqn:Hss|]; cbn; auto. }
  destruct (w_pc m).
  - destruct (end_of_work g (wld m)); simplify_eq; [|by split; [|left]].
    unfold thread_exit. cbn [wld at_pc with_wld set_g_lat_stat finish
      start_stats].
    destruct (delete_all_frame e (all_peers m) (wld m))
      as (_ & _ & _ & -> & -> & _). by split; [|left].
  - destruct (_ && _).
    + apply create_peer_world in H as (_ & _ & (_ & ? & ? & _) & _).
      split; [assumption|by left].
    + destruct (IO.wait e (io (wld m))); [|discriminate].
      cbn in H. simplify_eq. by split; [|left].
  - destruct (IO.next_sk (io (wld m))) as [[sh|] io1].
    + apply advance_world in H as (_ & _ & (_ & ? & ? & _) & _).
      split; [assumption|by left].
    + simplify_eq. by split; [|left].
  - destruct (finish (wld m)) eqn:Hfin.
    + simplify_eq. by apply Hend.
    + destruct (IO.next_backlog (io (wld m))) as [[sh|] io1].
      * apply advance_world in H as (_ & _ & (_ & ? & ? & _) & _).
        cbn in *. split; [congruence|by left].
      * simplify_eq. by apply Hend.
  - simplify_eq. by split; [|left].
Qed.

Lemma driver_step_flags dt el m :
  let m' := driver_step g dt el m in
  start_stats (wld m') = start_stats (wld m) /\
  active_peers m' = active_peers m /\ w_pc m' = w_pc m /\
  all_peers m' = all_peers m /\
  tot_tls_handshakes (stat (wld m')) = tot_tls_handshakes (stat (wld m)) /\
  (finish (wld m') = finish (wld m) \/
   (finish (wld m') = true /\ d_pc m = DSleep /\
    timeout g <> 0 /\ timeout g <= el)).
Proof.
  unfold driver_step. destruct (d_pc m) eqn:Hd.
  - destruct (end_of_work g (wld m)); cbn; tauto.
  - destruct (statistics_update_frame dt (wld m)) as (_ & _ & _ & Hf & Hs).
    pose proof (statistics_update_tot dt (wld m)) as Ht.
    destruct (Z.eqb_spec (timeout g) 0) as [|Hto];
      [|destruct (Z.leb_spec (timeout g) el)]; cbn;
      rewrite ?Hf, ?Hs, ?Ht; tauto.
  - destruct (w_pc m) eqn:Hpc; cbn; try tauto.
    destruct (statistics_dump_frame (wld m)) as (_ & _ & Hf & Hs & _).
    assert (Ht : tot_tls_handshakes (stat (fst (statistics_dump (wld m))))
                 = tot_tls_handshakes (stat (wld m))).
    { unfold statistics_dump. by destruct (negb _ || _). }
    destruct (statistics_dump (wld m)) as [w r]. cbn in *.
    rewrite Hf, Hs, Ht. tauto.
  - cbn; tauto.
Qed.

(** What may have set [finish] in one step. *)
Lemma step_finish i m m' :
  step g i m = Ret m' ->
  finish (wld m') = finish (wld m) \/
  (finish (wld m') = true /\
   (i = Signal \/
    exists dt el, i = Driver dt el /\ timeout g <> 0 /\ timeout g <= el)).
Proof.
  intros H. destruct i as [e|dt el|]; cbn in H.
  - left. by apply worker_step_flags in H as [? _].
  - simplify_eq.
    destruct (driver_step_flags dt el m)
      as (_ & _ & _ & _ & _ & [?|(? & _ & ? & ?)]); [by left|].
    right. split; [assumption|]. right. eauto.
  - simplify_eq. right. split; [reflexivity|by left].
Qed.

Lemma step_work_inv i m m' :
  step g i m = Ret m' -> work_inv g m -> work_inv g m'.
Proof.
  intros H (Hdone & Hfin & Hdd). destruct i as [e|dt el|]; cbn in H.
  - destruct (worker_step_final g e m m' H) as (Hf & Hd & Hsame).
    assert (Hdec : w_pc m = AtDone \/ w_pc m <> AtDone)
      by (destruct (w_pc m); auto; right; discriminate).
    destruct Hdec as [Hpc|Hpc].
    { rewrite (Hsame Hpc). exact (conj Hdone (conj Hfin Hdd)). }
    unfold work_inv. rewrite Hf, Hd.
    split; [|split; [intros Hx; destruct (Hfin Hx); contradiction|exact Hdd]].
    intros Hpc'. unfold worker_step in H.
    destruct (w_pc m) eqn:E; try contradiction.
    + destruct (end_of_work g (wld m)) eqn:Hew; simplify_eq;
        try discriminate.
      unfold thread_exit, end_of_work in *.
      cbn [wld at_pc with_wld set_g_lat_stat finish stat all_peers
           with_all_peers].
      destruct (delete_all_frame e (all_peers m) (wld m))
        as (-> & _ & _ & -> & _). by split.
    + destruct (_ && _).
      * apply create_peer_world in H as (Hw & _). congruence.
      * destruct (IO.wait e (io (wld m))); [|discriminate].
        cbn in H. simplify_eq; try discriminate.
    + destruct (IO.next_sk (io (wld m))) as [[sh|] io1].
      * apply advance_world in H as (Hw & _). cbn in Hw. congruence.
      * simplify_eq; try discriminate.
    + destruct (finish (wld m)).
      * simplify_eq; try discriminate.
      * destruct (IO.next_backlog (io (wld m))) as [[sh|] io1].
        -- apply advance_world in H as (Hw & _). cbn in Hw. congruence.
        -- simplify_eq; try discriminate.
  - simplify_eq.
    destruct (driver_step_flags dt el m) as (_ & _ & Hw & Hp & Ht & Hf).
    unfold work_inv. rewrite Hw, Hp. split.
    + intros Hpc. destruct (Hdone Hpc) as [He Ha]. split; [|exact Ha].
      unfold end_of_work in *. rewrite Ht.
      destruct Hf as [->|(-> & _)]; [exact He|reflexivity].
    + unfold driver_step. destruct (d_pc m) eqn:Hd.
      * destruct (end_of_work g (wld m)); cbn; split;
          [intros []; done|discriminate|intros []; done|discriminate].
      * cbn. split; [intros []; done|discriminate].
      * destruct (w_pc m) eqn:Hpc;
          try (split; [intros Hx; destruct (Hfin Hx); congruence
                      |congruence]).
        destruct (statistics_dump (wld m)). cbn. split; [|discriminate].
        intros _. split; reflexivity.
      * split; [intros Hx; destruct (Hfin Hx); by split|auto].
  - simplify_eq. unfold work_inv. cbn. split; [|split; assumption].
    intros Hpc. destruct (Hdone Hpc) as [He Ha]. split; [|exact Ha].
    reflexivity.
Qed.

Lemma run_work_inv ins : forall m m',
  run g ins m = Ret m' -> work_inv g m -> work_inv g m'.
Proof.
  induction ins as [|i ins IH]; intros m m' H Hinv; cbn in H.
  - by simplify_eq.
  - destruct (step g i m) as [m1|] eqn:Hs; [|discriminate]. cbn in H.
    eapply IH; [exact H|]. eapply step_work_inv; eauto.
Qed.

End Flags.

(** X16.  The flag [finish].  In a run from any state, [finish] is never
    reset; and when it is set at the end and was not at the start, the run
    holds a signal, or a step of the driver whose elapsed time had reached
    a non-zero [timeout].  The worker never sets it. *)
Theorem finish_is_set_by_signal_or_timeout (g : options)
  (ins : list input) (m m' : machine) :
  run g ins m = Ret m' ->
  (finish (wld m) = true -> finish (wld m') = true) /\
  (finish (wld m') = true ->
   finish (wld m) = true \/ Signal ∈ ins \/
   exists dt el, Driver dt el ∈ ins /\ timeout g <> 0 /\ timeout g <= el).
Proof.
  revert m m'.
  induction ins as [|i ins IH]; intros m m' H; cbn in H.
  - simplify_eq. tauto.
  - destruct (step g i m) as [m1|] eqn:Hs; [|discriminate]. cbn in H.
    destruct (IH _ _ H) as [IH1 IH2].
    apply (step_finish g) in Hs. split.
    + intros Hf. apply IH1. destruct Hs as [->|[-> _]]; auto.
    + intros Hf. destruct (IH2 Hf) as [Hf1|[Hsig|(dt & el & Hin & Hto)]].
      * destruct Hs as [<-|[_ [->|(dt & el & -> & Hto)]]]; auto.
        -- right. left. apply elem_of_cons. by left.
        -- right. right. exists dt, el. split; [|exact Hto].
           apply elem_of_cons. by left.
      * right. left. apply elem_of_cons. by right.
      * right. right. exists dt, el. split; [|exact Hto].
        apply elem_of_cons. by right.
Qed.

Lemma finish_is_set_by_signal_or_timeout_witness :
  reaches g1 stalled (fun m =>
    finish (wld m) = true /\ Signal ∈ stalled).
Proof.
  unfold reaches.
  destruct (run g1 stalled (machine0 g1)) as [m|] eqn:Hrun.
  - assert (Hf : finish (wld m) = true).
    { vm_compute in Hrun. by injection Hrun as <-. }
    split; [exact Hf|].
    destruct (finish_is_set_by_signal_or_timeout g1 stalled _ m Hrun)
      as [_ Hset].
    destruct (Hset Hf) as [H0|[Hsig|(dt & el & _ & Hto & _)]].
    + discriminate H0.
    + exact Hsig.
    + by destruct Hto.
  - vm_compute in Hrun. discriminate.
Defined.

(** X17.  The end of a worker.  In every run, the worker has returned only
    when [end_of_work] held ([finish] is set or [tot_tls_handshakes] has
    reached [n_hs]) and still holds, with all its peers deleted; and a
    report exists only when the driver is done, which it is only after the
    worker has returned. *)
Theorem worker_returns_at_end_of_work (g : options) (ins : list input)
  (m : machine) :
  run g ins (machine0 g) = Ret m ->
  (w_pc m = AtDone ->
   (finish (wld m) = true \/
    n_hs g <= tot_tls_handshakes (stat (wld m))) /\
   all_peers m = []) /\
  (forall o, final m = Some o -> d_pc m = DDone /\ w_pc m = AtDone) /\
  (d_pc m = DDone -> exists o, final m = Some o).
Proof.
  intros Hrun.
  assert (H0 : work_inv g (machine0 g)).
  { split; [discriminate|]. split; [intros []; reflexivity|discriminate]. }
  destruct (run_work_inv g ins _ _ Hrun H0) as (Hdone & Hfin & Hdd).
  split; [|split].
  - intros Hpc. destruct (Hdone Hpc) as [He Ha]. split; [|exact Ha].
    unfold end_of_work in He. apply orb_true_iff in He as [He|He];
      [by left|right]. by apply Z.leb_le.
  - intros o Ho. apply Hfin. congruence.
  - intros Hd. destruct (final m) as [o|] eqn:E; [eauto|].
    by destruct (Hdd Hd).
Qed.

Lemma worker_returns_at_end_of_work_witness :
  reaches g1 stalled (fun m =>
    w_pc m = AtDone /\ finish (wld m) = true /\ all_peers m = []).
Proof.
  unfold reaches.
  destruct (run g1 stalled (machine0 g1)) as [m|] eqn:Hrun.
  - destruct (worker_returns_at_end_of_work g1 stalled m Hrun)
      as (Hdone & _).
    assert (Hm : w_pc m = AtDone /\ finish (wld m) = true).
    { vm_compute in Hrun. by injection Hrun as <-. }
    destruct Hm as [Hpc Hf]. split; [exact Hpc|]. split; [exact Hf|].
    apply Hdone, Hpc.
  - vm_compute in Hrun. discriminate.
Defined.

(** ** When the statistics start *)


Section Stats.

Variable g : options.
Hypothesis Hn : 0 <= n_peers g < 2 ^ 31 - 1.



End Stats.



(** ** The extremes of the report *)


Section Figures.

Variable g : options.

Lemma extremes_push h mx mn c :
  extremes h mx mn ->
  extremes (h ++ [c]) (if mx <? c then c else mx)
    (if negb (c =? 0) && ((c <? mn) || (mn =? 0)) then c else mn).
Proof.
  intros (H0 & Hmax & Hin & Hmin & Hz & Hnz).
  assert (Hc : c ∈ h ++ [c]).
  { apply elem_of_app. right. apply elem_of_cons. by left. }
  assert (Hold : forall v, v ∈ h -> v ∈ h ++ [c]).
  { intros v Hv. apply elem_of_app. by left. }
  set (mx' := if mx <? c then c else mx).
  set (mn' := if negb (c =? 0) && ((c <? mn) || (mn =? 0)) then c else mn).
  assert (Hmx : (mx < c /\ mx' = c) \/ (c <= mx /\ mx' = mx)).
  { subst mx'. destruct (Z.ltb_spec mx c); lia. }
  assert (Hmn : (c <> 0 /\ (c < mn \/ mn = 0) /\ mn' = c) \/
                ((c = 0 \/ (mn <= c /\ mn <> 0)) /\ mn' = mn)).
  { subst mn'. destruct (Z.eqb_spec c 0), (Z.ltb_spec c mn),
      (Z.eqb_spec mn 0); cbn [negb andb orb]; lia. }
  clearbody mx' mn'.
  unfold extremes. rewrite !Forall_app, !Forall_singleton.
  split; [lia|]. split.
  { split; [|lia]. eapply Forall_impl; [exact Hmax|].
    intros v Hv. cbn in Hv. lia. }
  split.
  { destruct Hmx as [[_ ->]|[_ ->]]; [by right|].
    destruct Hin as [?|?]; [by left|right; auto]. }
  split.
  { destruct Hmn as [(Hc0 & Hlt & ->)|(Hc0 & ->)].
    - split; [|right; lia].
      destruct (Z.eq_dec mn 0) as [Hm0|Hm0].
      + eapply Forall_impl; [exact (Hz Hm0)|]. intros v Hv. by left.
      + eapply Forall_impl; [exact Hmin|]. intros v Hv. cbn in Hv. lia.
    - split; [exact Hmin|]. lia. }
  split.
  { intros Hm'. destruct Hmn as [(Hc0 & _ & ->)|(Hc0 & ->)]; [lia|].
    split; [exact (Hz Hm')|lia]. }
  intros Hm'. destruct Hmn as [(_ & _ & ->)|(_ & ->)]; auto.
Qed.

Lemma extremes_perm h h' mx mn :
  h ≡ₚ h' -> extremes h mx mn -> extremes h' mx mn.
Proof.
  intros Hp (H0 & Hmax & Hin & Hmin & Hz & Hnz). unfold extremes.
  split; [exact H0|]. split; [by rewrite <- Hp|].
  split; [destruct Hin; [by left|right; by rewrite <- Hp]|].
  split; [by rewrite <- Hp|]. split.
  - intros Hm. rewrite <- Hp. auto.
  - intros Hm. rewrite <- Hp. auto.
Qed.

Lemma statistics_update_figures dt w :
  let s := stat w in
  let s' := stat (statistics_update dt w) in
  ((length (hs_history s) <= 3600)%nat ->
   measures s = Z.of_nat (length (hs_history s)) /\
   extremes (hs_history s) (max_hs s) (min_hs s)) ->
  (length (hs_history s') <= 3600)%nat ->
  measures s' = Z.of_nat (length (hs_history s')) /\
  extremes (hs_history s') (max_hs s') (min_hs s').
Proof.
  cbv zeta. intros Hinv Hlen.
  destruct (start_stats w) eqn:Hs.
  - unfold statistics_update in *. cbn [start_stats print set_stat] in *.
    rewrite Hs in *. cbn [negb stat set_stat print measures max_hs min_hs
      hs_history tls_connections upd_tls_connections] in *.
    destruct (Z.leb_spec (Z.of_nat (length (hs_history (stat w)))) 3600)
      as [Hle|Hgt].
    + rewrite length_app in *. cbn [length] in *.
      destruct (Hinv ltac:(lia)) as (Hm & He).
      rewrite Hm. split; [rewrite i32_small; lia|].
      apply extremes_push, He.
    + lia.
  - pose proof (statistics_update_off dt w Hs) as Hd.
    unfold driver_part in Hd. injection Hd as Hme Hx Hmi _ Hh.
    rewrite Hme, Hx, Hmi, Hh in *. auto.
Qed.

Lemma step_figures_inv i m m' :
  step g i m = Ret m' -> work_inv g m -> figures_inv m -> figures_inv m'.
Proof.
  intros H (_ & Hfin & _) (Hfig & Hrep). destruct i as [e|dt el|]; cbn in H.
  - pose proof (worker_step_driver_part g e m m' H) as Hd.
    destruct (worker_step_final g e m m' H) as (Hf & _ & Hsame).
    unfold driver_part in Hd. injection Hd as Hme Hx Hmi _ Hh.
    unfold figures_inv. rewrite Hme, Hx, Hmi, Hh, Hf.
    split; [exact Hfig|]. intros r Hr.
    destruct (Hfin ltac:(congruence)) as [_ Hpc].
    rewrite (Hsame Hpc). auto.
  - simplify_eq. unfold driver_step. destruct (d_pc m) eqn:Hd.
    + destruct (end_of_work g (wld m)); split; try exact Hfig;
        cbn; discriminate.
    + split; [|cbn; discriminate].
      cbn [wld with_driver with_wld].
      assert (Hst : forall w, stat (if negb (timeout g =? 0)
                                       && (timeout g <=? el)
                                    then set_finish true w else w)
                              = stat w) by (intros; by destruct (_ && _)).
      rewrite Hst. apply statistics_update_figures, Hfig.
    + destruct (w_pc m) eqn:Hpc; try exact (conj Hfig Hrep).
      destruct (statistics_dump (wld m)) as [w r] eqn:Hdump.
      destruct (statistics_dump_frame (wld m))
        as (_ & _ & _ & _ & Hme & Hx & Hmi & _ & Hp & _).
      rewrite Hdump in *. cbn [fst] in *.
      split; cbn [wld with_driver with_wld final].
      * rewrite Hme, Hx, Hmi. intros Hlen.
        pose proof (Permutation_length Hp) as Hpl.
        destruct (Hfig ltac:(lia)) as [Hm He].
        split; [lia|].
        eapply extremes_perm; [symmetry; exact Hp|exact He].
      * intros r' Hr. simplify_eq. rewrite Hme, Hx, Hmi.
        unfold statistics_dump in Hdump.
        destruct (negb _ || _); simplify_eq. cbn. tauto.
    + exact (conj Hfig Hrep).
  - simplify_eq. exact (conj Hfig Hrep).
Qed.

Lemma run_figures_inv ins : forall m m',
  run g ins m = Ret m' -> work_inv g m -> figures_inv m -> figures_inv m'.
Proof.
  induction ins as [|i ins IH]; intros m m' H Hw Hinv; cbn in H.
  - by simplify_eq.
  - destruct (step g i m) as [m1|] eqn:Hs; [|discriminate]. cbn in H.
    eapply IH; [exact H| |].
    + eapply step_work_inv; eauto.
    + eapply step_figures_inv; eauto.
Qed.

End Figures.

(** X19.  The figures of the report.  When the report is printed at the
    end of a run that has stored at most 3600 samples, SECONDS is the
    number of samples, HANDSHAKES is [tot_tls_handshakes], MAX h/s is the
    largest sample (0 if none is positive) and MIN h/s is the least sample
    that is not zero (0 if all are zero). *)
Theorem report_extremes (g : options) (ins : list input) (m : machine)
  (r : report) :
  run g ins (machine0 g) = Ret m ->
  final m = Some (Printed r) ->
  (length (hs_history (stat (wld m))) <= 3600)%nat ->
  r_seconds r = Z.of_nat (length (hs_history (stat (wld m)))) /\
  r_handshakes r = tot_tls_handshakes (stat (wld m)) /\
  extremes (hs_history (stat (wld m))) (r_max_hs r) (r_min_hs r).
Proof.
  intros Hrun Hfin Hlen.
  assert (Hw0 : work_inv g (machine0 g)).
  { split; [discriminate|]. split; [intros []; reflexivity|discriminate]. }
  assert (Hf0 : figures_inv (machine0 g)).
  { split; [|discriminate]. intros _. cbn. split; [reflexivity|].
    unfold extremes. repeat split; auto; try lia; try constructor;
      try (intros []; reflexivity). }
  destruct (run_figures_inv g ins _ _ Hrun Hw0 Hf0) as (Hfig & Hrep).
  destruct (Hrep r Hfin) as (-> & -> & -> & ->).
  destruct (Hfig Hlen) as [-> He]. auto.
Qed.

Lemma report_extremes_witness :
  reaches g1 uneven (fun m =>
    exists r, final m = Some (Printed r) /\
      r_seconds r = 2 /\ r_handshakes r = 2 /\
      (r_min_hs r = 0 -> Forall (fun v => v = 0)
                                (hs_history (stat (wld m))))).
Proof.
  unfold reaches.
  destruct (run g1 uneven (machine0 g1)) as [m|] eqn:Hrun.
  - assert (Hm : exists r, final m = Some (Printed r) /\
                   length (hs_history (stat (wld m))) = 2%nat /\
                   tot_tls_handshakes (stat (wld m)) = 2).
    { vm_compute in Hrun. injection Hrun as <-. eexists. by repeat split. }
    destruct Hm as (r & Hr & Hl & Ht). exists r. split; [exact Hr|].
    destruct (report_extremes g1 uneven m r Hrun Hr ltac:(rewrite Hl; lia))
      as (Hs & Hh & He).
    rewrite Hs, Hh, Hl, Ht. split; [reflexivity|]. split; [reflexivity|].
    apply He.
  - vm_compute in Hrun. discriminate.
Defined.
